(** * puppet-dependency-resolver: a shallow embedding of the resolver core

    The TypeScript sources under [lib/] are embedded as Rocq functions:
    [Requirement], [RequirementsStore], [DependencyGraph], [ForgeCache],
    [ModuleDeclaration], [PuppetFile] and [DependencyResolver]; of the
    command [resolve], the reader of the hide file and the ignore file.

    - JavaScript objects that are shared and mutated ([ModuleDeclaration]
      instances) live in a heap addressed by references ([mref]); every
      holder of a module (a requirement, a graph node, an edge attribute, a
      manifest) stores the reference, so an assignment to [version] is seen
      by all of them, as in the source.
    - The process-wide singletons ([ForgeCache._cache],
      [DependencyGraph._dependencyGraph]) are fields of the [World] that a
      small state-and-exception monad threads through the code.
    - The libraries the code calls are not part of the repository: the
      [semver] package, the forge reached over HTTP and the git checkout are
      the fields of the class [Environment]; the [graphology] directed graph
      is modelled by the operations in [Module DirectedGraph]. *)

From Stdlib Require Import String Ascii List Bool Arith Lia.
From stdpp Require Import base option list gmap strings.

Set Implicit Arguments.
Unset Strict Implicit.

Local Open Scope string_scope.

(* ===================================================================== *)
(** ** JavaScript values *)
(* ===================================================================== *)

(** [!!s] for an optional string: [undefined] and [''] are falsy. *)
Definition truthy (o : option string) : bool :=
  match o with
  | Some s => negb (String.eqb s "")
  | None => false
  end.

(** [`${o}`] for an optional string. *)
Definition template (o : option string) : string :=
  match o with
  | Some s => s
  | None => "undefined"
  end.

(** [o ?? d] *)
Definition nullish (o : option string) (d : string) : string :=
  match o with
  | Some s => s
  | None => d
  end.

(** [Array.prototype.some] over a list of slugs with [slug === x]. *)
Definition some_equal (l : list string) (x : string) : bool :=
  existsb (fun slug => String.eqb slug x) l.

(* ===================================================================== *)
(** ** Data model *)
(* ===================================================================== *)

(** A reference to a [ModuleDeclaration] object: its index in the heap. *)
Abbreviation mref := nat.

(** [semver.Range]: the object is determined by the text it was built from. *)
Record Range := mkRange { raw : string }.

(** [enum RequirementSource { Puppetfile, Dependency }] *)
Inductive RequirementSource := Puppetfile | Dependency.

(** [class Requirement]; the same four fields are the attributes of an edge
    of the dependency graph ([getEdgeAttributes]). *)
Record Requirement := mkRequirement {
  targetModule : option mref;
  sourceModule : option mref;
  source : option RequirementSource;
  dependencyRange : option Range
}.

(** [class ForgeDependency]: one entry of [metadata.dependencies]. *)
Record ForgeDependency := mkForgeDependency {
  dep_name : string;
  version_requirement : option string
}.

(** The part of a repository's [metadata.json] that the code reads. *)
Record GitMetadata := mkGitMetadata {
  meta_version : option string;
  meta_dependencies : option (list ForgeDependency)
}.

(** [class ModuleDeclaration] *)
Record ModuleDeclaration := mkModule {
  name : string;
  author : string;
  forgeModule : bool;
  version : option string;
  git : option string;
  ref : option string;
  comments : option (list string);
  _availableVersions : list string;
  _forgeApiUrl : option string;
  _gitMetadata : option GitMetadata;
  _dependencies : option (list Requirement)
}.

(** [new ModuleDeclaration()] *)
Definition new_ModuleDeclaration : ModuleDeclaration :=
  {| name := ""; author := ""; forgeModule := true; version := None;
     git := None; ref := None; comments := None; _availableVersions := [];
     _forgeApiUrl := None; _gitMetadata := None; _dependencies := None |}.

Definition set_version (v : option string) (m : ModuleDeclaration) : ModuleDeclaration :=
  {| name := name m; author := author m; forgeModule := forgeModule m; version := v;
     git := git m; ref := ref m; comments := comments m;
     _availableVersions := _availableVersions m; _forgeApiUrl := _forgeApiUrl m;
     _gitMetadata := _gitMetadata m; _dependencies := _dependencies m |}.

Definition set_dependencies (d : option (list Requirement)) (m : ModuleDeclaration)
  : ModuleDeclaration :=
  {| name := name m; author := author m; forgeModule := forgeModule m; version := version m;
     git := git m; ref := ref m; comments := comments m;
     _availableVersions := _availableVersions m; _forgeApiUrl := _forgeApiUrl m;
     _gitMetadata := _gitMetadata m; _dependencies := d |}.

(** [getSlug(): `${this.author}-${this.name}`] *)
Definition getSlug (m : ModuleDeclaration) : string :=
  author m +:+ "-" +:+ name m.

(** [class DeprecationStatus]; the date is kept as the text the forge sent. *)
Record DeprecationStatus := mkDeprecationStatus {
  deprecatedAt : string;
  deprecatedFor : string;
  supersededBy : option string
}.

(** The record returned by [GET /v3/modules/<slug>], reduced to the fields
    the cache reads. *)
Record ForgeModuleData := mkForgeModuleData {
  releases : option (list string);
  deprecated_at : option string;
  deprecated_for : option string;
  superseded_by : option string
}.

(** [class ForgeCache] *)
Record ForgeCache := mkForgeCache {
  cache_forgeApiUrl : string;
  _releases : gmap string (list string);
  _forgeModuleData : gmap string ForgeModuleData;
  cache_dependencies : gmap string (list ForgeDependency)
}.

(** [class PuppetFile]. An entry of a module list is [None] where the source
    pushes an [undefined] node attribute. *)
Record PuppetFile := mkPuppetFile {
  modules : list (option mref);
  dependentModules : list (option mref);
  forge : string;
  preamble : string;
  _dependencyIdentifier : string
}.

Definition DEFAULT_FORGE : string := "https://forgeapi.puppetlabs.com".

(** [new PuppetFile()] *)
Definition new_PuppetFile : PuppetFile :=
  {| modules := []; dependentModules := []; forge := DEFAULT_FORGE; preamble := "";
     _dependencyIdentifier := "## dependencies" |}.

(** [class RequirementsStore] *)
Record RequirementsStore := mkStore {
  _requirements : list Requirement;
  _puppetfile : option PuppetFile
}.

(** An edge of the graphology graph: key, extremities and attributes. *)
Record Edge := mkEdge {
  edge_key : string;
  edge_source : string;
  edge_target : string;
  edge_attributes : Requirement
}.

(** The graphology [DirectedGraph]: nodes in insertion order, each with its
    optional [module] attribute, and edges in insertion order. *)
Record Graph := mkGraph {
  nodes : list (string * option mref);
  edges : list Edge
}.

(** What the code throws. *)
Inductive Error :=
| Thrown (message : string)                    (* [throw `...`] *)
| NoVersionFoundError (dependency : Requirement)
| DeprecatedModuleError (slug : string) (status : DeprecationStatus)
| RangeTypeError (text : string)               (* [new Range(text)] refused *)
| RequestError (url : string)                  (* axios rejected *)
| NotFoundGraphError (key : string)            (* graphology: unknown node *)
| UsageGraphError (key : string)               (* graphology: duplicate node or edge *)
| TypeError (what : string)                    (* property read on undefined *)
| OutOfFuel.

(** What the code logs at level [warn]. *)
Inductive Warning :=
| IgnoredNoVersionFound (dependency : Requirement)
| IgnoredDeprecation (slug : string) (status : DeprecationStatus).

(** The mutable state of the process. *)
Record World := mkWorld {
  heap : list ModuleDeclaration;
  forgeCache : option ForgeCache;
  dependencyGraph : Graph;
  warnings : list Warning
}.

Definition set_heap (h : list ModuleDeclaration) (w : World) : World :=
  {| heap := h; forgeCache := forgeCache w; dependencyGraph := dependencyGraph w;
     warnings := warnings w |}.
Definition set_forgeCache (c : option ForgeCache) (w : World) : World :=
  {| heap := heap w; forgeCache := c; dependencyGraph := dependencyGraph w;
     warnings := warnings w |}.
Definition set_graph (g : Graph) (w : World) : World :=
  {| heap := heap w; forgeCache := forgeCache w; dependencyGraph := g;
     warnings := warnings w |}.
Definition add_warning (x : Warning) (w : World) : World :=
  {| heap := heap w; forgeCache := forgeCache w; dependencyGraph := dependencyGraph w;
     warnings := warnings w ++ [x] |}.

(** ** The libraries and services outside the repository *)

Class Environment := {
  (** [new Range(text)] returns (rather than throws a [TypeError]) *)
  semver_valid_range : string -> bool;
  (** [satisfies(version, range)] for the range built from the text *)
  semver_satisfies : string -> string -> bool;
  (** [axios.get(url)] for a [/v3/modules/] URL; [None] when the request fails *)
  http_get_module : string -> option ForgeModuleData;
  (** [axios.get(url)] for a [/v3/releases/] URL, already reduced to
      [response.data.metadata.dependencies ?? []] *)
  http_get_release : string -> option (list ForgeDependency);
  (** clone of the repository, optional checkout of the reference and read
      of [metadata.json]: the message thrown, or the parsed metadata *)
  git_fetch_metadata : string -> option string -> string + GitMetadata
}.

(* ===================================================================== *)
(** ** The monad: state that survives a thrown exception *)
(* ===================================================================== *)

Inductive Result (A : Type) :=
| Ok (a : A)
| Err (e : Error).
Arguments Ok {A} a.
Arguments Err {A} e.

Definition M (A : Type) : Type := World -> Result A * World.

Definition ret {A} (a : A) : M A := fun w => (Ok a, w).
Definition throw {A} (e : Error) : M A := fun w => (Err e, w).
Definition bind {A B} (c : M A) (k : A -> M B) : M B :=
  fun w => match c w with
           | (Ok a, w') => k a w'
           | (Err e, w') => (Err e, w')
           end.
(** [try { c } catch (e) { h e }] *)
Definition try_catch {A} (c : M A) (h : Error -> M A) : M A :=
  fun w => match c w with
           | (Ok a, w') => (Ok a, w')
           | (Err e, w') => h e w'
           end.
Definition get : M World := fun w => (Ok w, w).
Definition modify (f : World -> World) : M unit := fun w => (Ok tt, f w).
Definition lift {A} (r : Result A) : M A := fun w => (r, w).

Declare Scope js_scope.
Delimit Scope js_scope with js.
Notation "x <- c1 ;; c2" := (bind c1 (fun x => c2))
  (at level 100, c1 at next level, right associativity) : js_scope.
Notation "c1 ;;; c2" := (bind c1 (fun _ => c2))
  (at level 100, right associativity) : js_scope.
Local Open Scope js_scope.

(** Sequential [for (const x of l) { f x }] *)
Fixpoint for_each {A} (l : list A) (f : A -> M unit) : M unit :=
  match l with
  | [] => ret tt
  | x :: rest => f x ;;; for_each rest f
  end.

(** Read the object behind a reference. *)
Definition deref (m : mref) : M ModuleDeclaration :=
  fun w => match heap w !! m with
           | Some md => (Ok md, w)
           | None => (Err (TypeError "dangling module reference"), w)
           end.

(** Assign through a reference. *)
Definition update (m : mref) (f : ModuleDeclaration -> ModuleDeclaration) : M unit :=
  md <- deref m ;; modify (fun w => set_heap (<[m := f md]> (heap w)) w).

(** Allocate a new object. *)
Definition alloc (md : ModuleDeclaration) : M mref :=
  fun w => (Ok (length (heap w)), set_heap (heap w ++ [md]) w).

(** [new Range(text)] *)
Definition new_Range `{Environment} (text : string) : M Range :=
  if semver_valid_range text then ret (mkRange text) else throw (RangeTypeError text).

(** [o?.getSlug()] *)
Definition optional_slug (o : option mref) : M (option string) :=
  match o with
  | Some m => md <- deref m ;; ret (Some (getSlug md))
  | None => ret None
  end.

(** Sequential [Array.prototype.filter] with a predicate that reads the heap. *)
Fixpoint filterM {A} (p : A -> M bool) (l : list A) : M (list A) :=
  match l with
  | [] => ret []
  | x :: rest =>
      keep <- p x ;;
      rest' <- filterM p rest ;;
      ret (if keep then x :: rest' else rest')
  end.

(* ===================================================================== *)
(** ** Requirement.ts: the builder methods, [isValid] and the edge helpers

    [getNewVersion] needs the module declarations and the graph and follows
    them, in [Module Requirement], which includes this module. *)
(* ===================================================================== *)

Module RequirementBuilder.

(** [new Requirement()] *)
Definition new : Requirement :=
  {| targetModule := None; sourceModule := None; source := None; dependencyRange := None |}.

(** [withTargetModule(declaration)] *)
Definition withTargetModule `{Environment} (declaration : mref) (this : Requirement)
  : M Requirement :=
  let this := {| targetModule := Some declaration; sourceModule := sourceModule this;
                 source := source this; dependencyRange := dependencyRange this |} in
  d <- deref declaration ;;
  if truthy (version d) && negb (bool_decide (is_Some (dependencyRange this))) then
    range <- new_Range ("<= " +:+ template (version d)) ;;
    ret {| targetModule := targetModule this; sourceModule := sourceModule this;
           source := source this; dependencyRange := Some range |}
  else ret this.

(** [withSource(value)] *)
Definition withSource (value : RequirementSource) (this : Requirement) : Requirement :=
  {| targetModule := targetModule this; sourceModule := sourceModule this;
     source := Some value; dependencyRange := dependencyRange this |}.

(** [withSourceModule(value)]; the resolver also passes an [undefined]
    edge attribute. *)
Definition withSourceModule (value : option mref) (this : Requirement) : Requirement :=
  {| targetModule := targetModule this; sourceModule := value;
     source := source this; dependencyRange := dependencyRange this |}.

(** [withDependencyRange(value)]; the resolver also passes an [undefined]
    edge attribute. *)
Definition withDependencyRange (value : option Range) (this : Requirement) : Requirement :=
  {| targetModule := targetModule this; sourceModule := sourceModule this;
     source := source this; dependencyRange := value |}.

(** [isValid()]: returns [true] or throws. *)
Definition isValid (this : Requirement) : Result bool :=
  match source this, sourceModule this with
  | Some Dependency, None => Err (Thrown "Requirement has no source module")
  | _, _ =>
      match targetModule this with
      | None => Err (Thrown "Requirement has no target module")
      | Some _ =>
          match dependencyRange this with
          | None => Err (Thrown "Requirement has no dependency range")
          | Some _ => Ok true
          end
      end
  end.

(** [getEdgeAttributes()] *)
Definition getEdgeAttributes (this : Requirement) : Requirement :=
  {| targetModule := targetModule this; sourceModule := sourceModule this;
     source := source this; dependencyRange := dependencyRange this |}.

(** [getEdgeId()] *)
Definition getEdgeId (this : Requirement) : M string :=
  s <- match source this with
       | Some Puppetfile => ret (Some "puppetfile")
       | _ => optional_slug (sourceModule this)
       end ;;
  t <- optional_slug (targetModule this) ;;
  ret (template s +:+ "." +:+ template t).

End RequirementBuilder.

(* ===================================================================== *)
(** ** RequirementsStore.ts *)
(* ===================================================================== *)

Module RequirementsStore.

(** [new RequirementsStore()] *)
Definition new : RequirementsStore := {| _requirements := []; _puppetfile := None |}.

(** [addRequirement(requirement)]: [push] *)
Definition addRequirement (requirement : Requirement) (this : RequirementsStore)
  : RequirementsStore :=
  {| _requirements := _requirements this ++ [requirement]; _puppetfile := _puppetfile this |}.

(** [withPuppetFile(puppetfile)] *)
Definition withPuppetFile `{Environment} (puppetfile : PuppetFile) (this : RequirementsStore)
  : M RequirementsStore :=
  let this := {| _requirements := _requirements this; _puppetfile := Some puppetfile |} in
  (fix loop (l : list (option mref)) (this : RequirementsStore) : M RequirementsStore :=
     match l with
     | [] => ret this
     | None :: _ => throw (TypeError "version")
     | Some module :: rest =>
         r <- RequirementBuilder.withTargetModule module RequirementBuilder.new ;;
         let r := RequirementBuilder.withSource Puppetfile r in
         md <- deref module ;;
         range <- new_Range ("=" +:+ nullish (version md) "") ;;
         loop rest (addRequirement (RequirementBuilder.withDependencyRange (Some range) r) this)
     end) (modules puppetfile) this.

(** [hasNextRequirement()] *)
Definition hasNextRequirement (this : RequirementsStore) : bool :=
  (0 <? length (_requirements this))%nat.

(** [getNextRequirement()]: [shift] *)
Definition getNextRequirement (this : RequirementsStore)
  : option Requirement * RequirementsStore :=
  match _requirements this with
  | [] => (None, this)
  | r :: rest => (Some r, {| _requirements := rest; _puppetfile := _puppetfile this |})
  end.

(** [hasPuppetfileRequirementWithTargetModule(slug)] *)
Definition hasPuppetfileRequirementWithTargetModule (slug : string)
  (this : RequirementsStore) : M bool :=
  l <- filterM (fun value =>
                  t <- optional_slug (targetModule value) ;;
                  ret (match source value with
                       | Some Puppetfile => bool_decide (t = Some slug)
                       | _ => false
                       end)) (_requirements this) ;;
  ret (0 <? length l)%nat.

(** [updateTargetVersion(slug, version)] *)
Definition updateTargetVersion (slug : string) (v : string) (this : RequirementsStore)
  : M unit :=
  l <- filterM (fun value =>
                  t <- optional_slug (targetModule value) ;;
                  ret (bool_decide (t = Some slug))) (_requirements this) ;;
  for_each l (fun requirement =>
                match targetModule requirement with
                | Some t => update t (set_version (Some v))
                | None => ret tt
                end).

(** [deleteSourceRequirements(sourceSlug)] *)
Definition deleteSourceRequirements (sourceSlug : string) (this : RequirementsStore)
  : M RequirementsStore :=
  l <- filterM (fun value =>
                  match sourceModule value with
                  | Some s => md <- deref s ;; ret (negb (String.eqb (getSlug md) sourceSlug))
                  | None => ret false
                  end) (_requirements this) ;;
  ret {| _requirements := l; _puppetfile := _puppetfile this |}.

End RequirementsStore.

(* ===================================================================== *)
(** ** The graphology [DirectedGraph] (simple, self-loops allowed) *)
(* ===================================================================== *)

Module DirectedGraph.

Definition empty : Graph := {| nodes := []; edges := [] |}.

Definition hasNode (key : string) (g : Graph) : bool :=
  existsb (fun n => String.eqb (fst n) key) (nodes g).

(** [addNode(key, attributes)]: refuses a key that is present. *)
Definition addNode (key : string) (module : option mref) (g : Graph) : Result Graph :=
  if hasNode key g then Err (UsageGraphError key)
  else Ok {| nodes := nodes g ++ [(key, module)]; edges := edges g |}.

(** [hasEdge(key)] with one argument: an edge with that key exists. *)
Definition hasEdge (key : string) (g : Graph) : bool :=
  existsb (fun e => String.eqb (edge_key e) key) (edges g).

(** [addDirectedEdgeWithKey(key, source, target, attributes)]: both
    extremities must exist, the key must be new, and a simple graph refuses
    a second edge from [source] to [target]. *)
Definition addDirectedEdgeWithKey (key source target : string) (attributes : Requirement)
  (g : Graph) : Result Graph :=
  if negb (hasNode source g) then Err (NotFoundGraphError source)
  else if negb (hasNode target g) then Err (NotFoundGraphError target)
  else if hasEdge key g then Err (UsageGraphError key)
  else if existsb (fun e => String.eqb (edge_source e) source
                            && String.eqb (edge_target e) target) (edges g)
       then Err (UsageGraphError key)
  else Ok {| nodes := nodes g;
             edges := edges g ++ [mkEdge key source target attributes] |}.

(** [dropNode(key)]: removes the node and every edge attached to it. *)
Definition dropNode (key : string) (g : Graph) : Result Graph :=
  if negb (hasNode key g) then Err (NotFoundGraphError key)
  else Ok {| nodes := List.filter (fun n => negb (String.eqb (fst n) key)) (nodes g);
             edges := List.filter (fun e => negb (String.eqb (edge_source e) key)
                                            && negb (String.eqb (edge_target e) key))
                                  (edges g) |}.

(** [inEdges(key)] *)
Definition inEdges (key : string) (g : Graph) : Result (list Edge) :=
  if negb (hasNode key g) then Err (NotFoundGraphError key)
  else Ok (List.filter (fun e => String.eqb (edge_target e) key) (edges g)).

(** [outEdges(key)] *)
Definition outEdges (key : string) (g : Graph) : Result (list Edge) :=
  if negb (hasNode key g) then Err (NotFoundGraphError key)
  else Ok (List.filter (fun e => String.eqb (edge_source e) key) (edges g)).

(** [everyInEdge(key, predicate)] *)
Definition everyInEdge (key : string) (predicate : Edge -> bool) (g : Graph) : Result bool :=
  match inEdges key g with
  | Ok l => Ok (forallb predicate l)
  | Err e => Err e
  end.

(** [someInEdge(key, predicate)] *)
Definition someInEdge (key : string) (predicate : Edge -> bool) (g : Graph) : Result bool :=
  match inEdges key g with
  | Ok l => Ok (existsb predicate l)
  | Err e => Err e
  end.

End DirectedGraph.

(* ===================================================================== *)
(** ** DependencyGraph.ts *)
(* ===================================================================== *)

Module DependencyGraph.

(** The body of the callback of [isValid]: the verdict for one incoming
    edge, given the version of the module under test. *)
Definition edge_accepts `{Environment} (v : option string) (attributes : Requirement) : bool :=
  if negb (truthy v) then true
  else match dependencyRange attributes with
       | Some range => semver_satisfies (template v) (raw range)
       | None => false     (* [satisfies(version, undefined)] is [false] *)
       end.

(** [isValid(module)] *)
Definition isValid `{Environment} (module : ModuleDeclaration) (g : Graph) : Result bool :=
  DirectedGraph.everyInEdge (getSlug module)
    (fun e => edge_accepts (version module) (edge_attributes e)) g.

End DependencyGraph.

(* ===================================================================== *)
(** ** Strings and the regular expressions of the parsers

    Strings are sequences of 8-bit characters; the white space of [\s] and
    the line terminators of [^] and [.] are their ASCII members. *)
(* ===================================================================== *)

Definition is_char (c : ascii) : ascii -> bool := Ascii.eqb c.

(** [\s] *)
Definition is_space (c : ascii) : bool :=
  let n := nat_of_ascii c in
  ((9 <=? n) && (n <=? 13) || (n =? 32))%nat.

(** line terminators *)
Definition is_line_terminator (c : ascii) : bool :=
  let n := nat_of_ascii c in ((n =? 10) || (n =? 13))%nat.

Definition quote : ascii := "'"%char.

(** The longest prefix whose characters all satisfy [p], and the rest. *)
Fixpoint span (p : ascii -> bool) (s : string) : string * string :=
  match s with
  | EmptyString => (EmptyString, EmptyString)
  | String c rest =>
      if p c then let '(a, b) := span p rest in (String c a, b)
      else (EmptyString, s)
  end.

(** [s.split(/[p]/)] for a one-character separator class. *)
Fixpoint split_on (p : ascii -> bool) (s : string) : list string :=
  match s with
  | EmptyString => [EmptyString]
  | String c rest =>
      if p c then EmptyString :: split_on p rest
      else match split_on p rest with
           | first :: others => String c first :: others
           | [] => [String c EmptyString]
           end
  end.

(** [s.replace(/[p]+/g, '')] *)
Fixpoint remove_all (p : ascii -> bool) (s : string) : string :=
  match s with
  | EmptyString => EmptyString
  | String c rest => if p c then remove_all p rest else String c (remove_all p rest)
  end.

(** [s.startsWith(p)], returning what follows the prefix. *)
Fixpoint strip_prefix (p s : string) : option string :=
  match p, s with
  | EmptyString, _ => Some s
  | String a p', String b s' => if Ascii.eqb a b then strip_prefix p' s' else None
  | String _ _, EmptyString => None
  end.

(** [s.includes(p)] *)
Fixpoint includes (p s : string) : bool :=
  match strip_prefix p s with
  | Some _ => true
  | None => match s with
            | EmptyString => false
            | String _ rest => includes p rest
            end
  end.

(** [s.split(/=>/)] *)
Fixpoint split_arrow (s : string) : list string :=
  match s with
  | EmptyString => [EmptyString]
  | String "="%char (String ">"%char rest) => EmptyString :: split_arrow rest
  | String c rest =>
      match split_arrow rest with
      | first :: others => String c first :: others
      | [] => [String c EmptyString]
      end
  end.

(** [text.split(/\r?\n/)] *)
Fixpoint split_lines (s : string) : list string :=
  match s with
  | EmptyString => [EmptyString]
  | String "010"%char rest => EmptyString :: split_lines rest
  | String "013"%char (String "010"%char rest) => EmptyString :: split_lines rest
  | String c rest =>
      match split_lines rest with
      | first :: others => String c first :: others
      | [] => [String c EmptyString]
      end
  end.

(** The groups of a match of [moduleRegExp] and the text after the match. *)
Record ModuleMatch := mkModuleMatch {
  group_author : string;
  group_name : string;
  group_version : option string;
  after_match : string
}.

(** [(,\s*'(?<version>[^']+)')?] at the start of [s] *)
Definition match_version_group (s : string) : option string * string :=
  match s with
  | String ","%char s1 =>
      match snd (span is_space s1) with
      | String "'"%char s2 =>
          match span (fun c => negb (is_char quote c)) s2 with
          | (String c v, String "'"%char s3) => (Some (String c v), s3)
          | _ => (None, s)
          end
      | _ => (None, s)
      end
  | _ => (None, s)
  end.

(** [(?<name>[^']+)'(,\s*'(?<version>[^']+)')?] at the start of [s] *)
Definition match_name_and_version (s : string) : option (string * option string * string) :=
  match span (fun c => negb (is_char quote c)) s with
  | (String c n, String "'"%char s1) =>
      let '(v, s2) := match_version_group s1 in Some (String c n, v, s2)
  | _ => None
  end.

(** [(?<author>[^-]+)[-/]...]: the author is the longest non-empty run
    without ['-'] that is followed by ['-'] or ['/'] and after which the rest
    of the expression matches. [author_so_far] is the run already consumed. *)
Fixpoint match_author (author_so_far : string) (s : string) : option ModuleMatch :=
  match s with
  | EmptyString => None
  | String c rest =>
      let here :=
        if (is_char "-"%char c || is_char "/"%char c)
           && negb (String.eqb author_so_far "") then
          match match_name_and_version rest with
          | Some (n, v, after) => Some (mkModuleMatch author_so_far n v after)
          | None => None
          end
        else None in
      if is_char "-"%char c then here
      else match match_author (author_so_far +:+ String c EmptyString) rest with
           | Some m => Some m
           | None => here
           end
  end.

(** [moduleRegExp] at the start of [s] *)
Definition match_module_here (s : string) : option ModuleMatch :=
  match strip_prefix "mod '" s with
  | Some s1 => match_author "" s1
  | None => None
  end.

(** [text.match(moduleRegExp)] with the flag [m]: the leftmost match that
    starts at the beginning of a line; returns the text before the match
    as well. *)
Fixpoint match_module (before : string) (line_start : bool) (s : string)
  : option (string * ModuleMatch) :=
  match (if line_start then match_module_here s else None) with
  | Some m => Some (before, m)
  | None =>
      match s with
      | EmptyString => None
      | String c rest =>
          match_module (before +:+ String c EmptyString) (is_line_terminator c) rest
      end
  end.

(** The [parameters] record of [ModuleDeclaration.fromText]: keys in the
    order of assignment, the last assignment to a key wins. *)
Definition parse_parameters (rest : string) : list (string * option string) :=
  List.map (fun currentValue =>
              match split_arrow (remove_all (is_char quote) currentValue) with
              | key :: value :: _ => (key, Some value)
              | key :: [] => (key, None)
              | [] => (EmptyString, None)
              end)
           (split_on (is_char ","%char) (remove_all is_space rest)).

(** [key in parameters] and [parameters[key]] *)
Fixpoint parameter (key : string) (l : list (string * option string))
  : option (option string) :=
  match l with
  | [] => None
  | (k, v) :: rest =>
      match parameter key rest with
      | Some later => Some later
      | None => if String.eqb k key then Some v else None
      end
  end.

(* ===================================================================== *)
(** ** ForgeCache.ts *)
(* ===================================================================== *)

Module ForgeCache.

Definition set_releases (r : gmap string (list string)) (c : ForgeCache) : ForgeCache :=
  {| cache_forgeApiUrl := cache_forgeApiUrl c; _releases := r;
     _forgeModuleData := _forgeModuleData c; cache_dependencies := cache_dependencies c |}.

(** [factory(forgeApiUrl)]: the singleton, created on first use. *)
Definition factory (forgeApiUrl : string) : M ForgeCache :=
  w <- get ;;
  match forgeCache w with
  | Some c => ret c
  | None =>
      let c := {| cache_forgeApiUrl := forgeApiUrl; _releases := ∅;
                  _forgeModuleData := ∅; cache_dependencies := ∅ |} in
      modify (set_forgeCache (Some c)) ;;; ret c
  end.

(** Assignment to a field of the singleton. *)
Definition store (c : ForgeCache) : M unit := modify (set_forgeCache (Some c)).

(** [clearCache()] *)
Definition clearCache : M unit := modify (set_forgeCache None).

(** [getModuleData(author, name)] *)
Definition getModuleData `{Environment} (forgeApiUrl author name : string)
  : M ForgeModuleData :=
  c <- factory forgeApiUrl ;;
  let slug := author +:+ "-" +:+ name in
  match _forgeModuleData c !! slug with
  | Some data => ret data
  | None =>
      let url := cache_forgeApiUrl c +:+ "/v3/modules/" +:+ slug in
      match http_get_module url with
      | Some data =>
          store {| cache_forgeApiUrl := cache_forgeApiUrl c; _releases := _releases c;
                   _forgeModuleData := <[slug := data]> (_forgeModuleData c);
                   cache_dependencies := cache_dependencies c |} ;;;
          ret data
      | None => throw (RequestError url)
      end
  end.

(** [getReleases(author, name)] *)
Definition getReleases `{Environment} (forgeApiUrl author name : string)
  : M (list string) :=
  c <- factory forgeApiUrl ;;
  let slug := author +:+ "-" +:+ name in
  match _releases c !! slug with
  | Some l => ret l
  | None =>
      moduleData <- getModuleData forgeApiUrl author name ;;
      c <- factory forgeApiUrl ;;
      let l := match releases moduleData with Some l => l | None => [] end in
      store (set_releases (<[slug := l]> (_releases c)) c) ;;;
      ret l
  end.

(** [getDeprecationStatus(author, name)] *)
Definition getDeprecationStatus `{Environment} (forgeApiUrl author name : string)
  : M (option DeprecationStatus) :=
  moduleData <- getModuleData forgeApiUrl author name ;;
  if truthy (deprecated_at moduleData) then
    ret (Some {| deprecatedAt := template (deprecated_at moduleData);
                 deprecatedFor := nullish (deprecated_for moduleData) "";
                 supersededBy := match superseded_by moduleData with
                                 | Some s => Some s
                                 | None => Some ""
                                 end |})
  else ret None.

(** [getDependencies(author, name, version)] *)
Definition getDependencies `{Environment} (forgeApiUrl author name : string)
  (v : option string) : M (list ForgeDependency) :=
  c <- factory forgeApiUrl ;;
  let slug := author +:+ "-" +:+ name +:+ "-" +:+ template v in
  match cache_dependencies c !! slug with
  | Some l => ret l
  | None =>
      let url := cache_forgeApiUrl c +:+ "/v3/releases/" +:+ slug in
      match http_get_release url with
      | Some l =>
          store {| cache_forgeApiUrl := cache_forgeApiUrl c; _releases := _releases c;
                   _forgeModuleData := _forgeModuleData c;
                   cache_dependencies := <[slug := l]> (cache_dependencies c) |} ;;;
          ret l
      | None => throw (RequestError url)
      end
  end.

(** [updateAvailableReleases(author, name, releases)] *)
Definition updateAvailableReleases (forgeApiUrl author name : string)
  (l : list string) : M unit :=
  c <- factory forgeApiUrl ;;
  store (set_releases (<[author +:+ "-" +:+ name := l]> (_releases c)) c).

End ForgeCache.

(* ===================================================================== *)
(** ** ModuleDeclaration.ts

    The methods that only read [this] take the object; the methods that
    assign to a field of an object others may hold take its reference. The
    builder chain [new ModuleDeclaration().withForgeApiUrl(..).fromText(..)]
    works on an object nobody else holds yet, which is allocated when the
    chain returns. *)
(* ===================================================================== *)

Module ModuleDeclaration.

Definition no_forge_url : Error := Thrown "Can not fetch versions. No forge API URL set.".

(** [withForgeApiUrl(forgeUrl)] *)
Definition withForgeApiUrl (forgeUrl : string) (this : ModuleDeclaration)
  : ModuleDeclaration :=
  {| name := name this; author := author this; forgeModule := forgeModule this;
     version := version this; git := git this; ref := ref this; comments := comments this;
     _availableVersions := _availableVersions this; _forgeApiUrl := Some forgeUrl;
     _gitMetadata := _gitMetadata this; _dependencies := _dependencies this |}.

(** [withComments(value)] *)
Definition withComments (value : list string) (this : ModuleDeclaration)
  : ModuleDeclaration :=
  {| name := name this; author := author this; forgeModule := forgeModule this;
     version := version this; git := git this; ref := ref this; comments := Some value;
     _availableVersions := _availableVersions this; _forgeApiUrl := _forgeApiUrl this;
     _gitMetadata := _gitMetadata this; _dependencies := _dependencies this |}.

(** [getAvailableVersions()] *)
Definition getAvailableVersions `{Environment} (this : ModuleDeclaration)
  : M (list string) :=
  if negb (truthy (_forgeApiUrl this)) then throw no_forge_url
  else ForgeCache.getReleases (template (_forgeApiUrl this)) (author this) (name this).

(** [hasAvailableVersion()] *)
Definition hasAvailableVersion `{Environment} (this : ModuleDeclaration) : M bool :=
  if negb (truthy (_forgeApiUrl this)) then throw no_forge_url
  else versions <- getAvailableVersions this ;; ret (0 <? length versions)%nat.

(** [getNextAvailableVersion()]: [shift] on the cached list *)
Definition getNextAvailableVersion `{Environment} (this : ModuleDeclaration)
  : M (option string) :=
  if negb (truthy (_forgeApiUrl this)) then throw no_forge_url
  else
    versions <- getAvailableVersions this ;;
    ForgeCache.updateAvailableReleases (template (_forgeApiUrl this)) (author this)
      (name this) (tail versions) ;;;
    ret (head versions).

(** [addAvailableVersion(version)]: [unshift] on the cached list *)
Definition addAvailableVersion `{Environment} (v : string) (this : ModuleDeclaration)
  : M unit :=
  if negb (truthy (_forgeApiUrl this)) then throw no_forge_url
  else
    versions <- getAvailableVersions this ;;
    ForgeCache.updateAvailableReleases (template (_forgeApiUrl this)) (author this)
      (name this) (v :: versions).

(** [getDeprecationStatus()] *)
Definition getDeprecationStatus `{Environment} (this : ModuleDeclaration)
  : M (option DeprecationStatus) :=
  if negb (forgeModule this) then ret None
  else if negb (truthy (_forgeApiUrl this)) then throw no_forge_url
  else ForgeCache.getDeprecationStatus (template (_forgeApiUrl this)) (author this)
         (name this).

(** [fetchGitMetadata()] *)
Definition fetchGitMetadata `{Environment} (this : ModuleDeclaration)
  : M ModuleDeclaration :=
  if negb (truthy (git this)) then
    throw (Thrown "About to fetch git metadata without a git setting")
  else
    match git_fetch_metadata (template (git this))
            (if truthy (ref this) then ref this else None) with
    | inl message => throw (Thrown message)
    | inr metadata =>
        let setVersion := negb (truthy (version this)) && truthy (meta_version metadata) in
        ret {| name := name this; author := author this; forgeModule := forgeModule this;
               version := if setVersion then meta_version metadata else version this;
               git := git this; ref := ref this; comments := comments this;
               _availableVersions :=
                 if setVersion then [template (meta_version metadata)]
                 else _availableVersions this;
               _forgeApiUrl := _forgeApiUrl this;
               _gitMetadata := Some metadata; _dependencies := _dependencies this |}
    end.

(** [fromText(text)] *)
Definition fromText `{Environment} (text : string) (this : ModuleDeclaration)
  : M ModuleDeclaration :=
  match match_module "" true text with
  | None => throw (Thrown ("Invalid module declaration: " +:+ text))
  | Some (before, matches) =>
      let this := {| name := group_name matches; author := group_author matches;
                     forgeModule := forgeModule this; version := version this;
                     git := git this; ref := ref this; comments := comments this;
                     _availableVersions := _availableVersions this;
                     _forgeApiUrl := _forgeApiUrl this;
                     _gitMetadata := _gitMetadata this;
                     _dependencies := _dependencies this |} in
      let parameters := parse_parameters (before +:+ after_match matches) in
      this <- match parameter ":git" parameters with
              | Some g =>
                  fetchGitMetadata
                    {| name := name this; author := author this; forgeModule := false;
                       version := version this; git := g;
                       ref := match parameter ":ref" parameters with
                              | Some r => r
                              | None => ref this
                              end;
                       comments := comments this;
                       _availableVersions := _availableVersions this;
                       _forgeApiUrl := _forgeApiUrl this;
                       _gitMetadata := _gitMetadata this;
                       _dependencies := _dependencies this |}
              | None => ret this
              end ;;
      if forgeModule this then
        match group_version matches with
        | Some v => ret (set_version (Some v) this)
        | None =>
            versions <- getAvailableVersions this ;;
            ret (set_version (head versions) this)
        end
      else ret this
  end.

(** [_getVersion()] *)
Definition _getVersion `{Environment} (this : ModuleDeclaration) : M (option string) :=
  if truthy (version this) then ret (version this)
  else if negb (truthy (_forgeApiUrl this)) then
    throw (Thrown "Can not get version. No Forge API URL is set.")
  else
    l <- ForgeCache.getReleases (template (_forgeApiUrl this)) (author this) (name this) ;;
    ret (head l).

(** [_buildDependencies(rawDependencies)]; [this] is the reference that
    becomes the source module of the requirements. *)
Fixpoint _buildDependencies `{Environment} (this : mref)
  (rawDependencies : list ForgeDependency) : M (list Requirement) :=
  match rawDependencies with
  | [] => ret []
  | dependency :: rest =>
      let parts := split_on (fun c => is_char "/"%char c || is_char "-"%char c)
                     (dep_name dependency) in
      let text := "mod '" +:+ template (parts !! 0%nat) +:+ "-"
                  +:+ template (parts !! 1%nat) +:+ "'" in
      range <- new_Range (nullish (version_requirement dependency) "") ;;
      self <- deref this ;;
      target <- fromText text
                  (withForgeApiUrl (nullish (_forgeApiUrl self) DEFAULT_FORGE)
                     new_ModuleDeclaration) ;;
      target <- alloc target ;;
      r <- RequirementBuilder.withTargetModule target
             (RequirementBuilder.withSourceModule (Some this)
                (RequirementBuilder.withDependencyRange (Some range)
                   (RequirementBuilder.withSource Dependency RequirementBuilder.new))) ;;
      others <- _buildDependencies this rest ;;
      ret (r :: others)
  end.

(** [getDependencies()] *)
Definition getDependencies `{Environment} (this : mref) : M (list Requirement) :=
  self <- deref this ;;
  (if forgeModule self then
     (* [_buildForgeDependencies()] *)
     v <- _getVersion self ;;
     if negb (truthy (_forgeApiUrl self)) then
       throw (Thrown "Can not fetch dependencies. No forge API URL set")
     else
       raw <- ForgeCache.getDependencies (template (_forgeApiUrl self)) (author self)
                (name self) v ;;
       l <- _buildDependencies this raw ;;
       update this (set_dependencies (Some l))
   else
     (* [_buildGitDependencies()] *)
     match _gitMetadata self with
     | Some {| meta_dependencies := Some raw |} =>
         l <- _buildDependencies this raw ;;
         update this (set_dependencies (Some l))
     | _ => ret tt
     end) ;;;
  self <- deref this ;;
  ret (match _dependencies self with Some l => l | None => [] end).

End ModuleDeclaration.

(* ===================================================================== *)
(** ** Requirement.ts, continued: the version search *)
(* ===================================================================== *)

Module Requirement.

Include RequirementBuilder.

(** The [while (await this.targetModule.hasAvailableVersion())] loop of
    [getNewVersion]; returns [solutionFound]. *)
Fixpoint search `{Environment} (fuel : nat) (target : mref) : M bool :=
  match fuel with
  | O => throw OutOfFuel
  | S fuel =>
      md <- deref target ;;
      more <- ModuleDeclaration.hasAvailableVersion md ;;
      if more then
        v <- ModuleDeclaration.getNextAvailableVersion md ;;
        update target (set_version v) ;;;
        md <- deref target ;;
        w <- get ;;
        valid <- lift (DependencyGraph.isValid md (dependencyGraph w)) ;;
        if valid && truthy (version md) then
          ModuleDeclaration.addAvailableVersion (template (version md)) md ;;;
          ret true
        else search fuel target
      else ret false
  end.

(** [getNewVersion()] *)
Definition getNewVersion `{Environment} (fuel : nat) (this : Requirement) : M string :=
  match targetModule this with
  | Some target =>
      md <- deref target ;;
      w <- get ;;
      valid <- lift (DependencyGraph.isValid md (dependencyGraph w)) ;;
      (if negb valid then
         solutionFound <- search fuel target ;;
         if solutionFound then ret tt else throw (NoVersionFoundError this)
       else ret tt) ;;;
      md <- deref target ;;
      ret (nullish (version md) "")
  | None => ret ""
  end.

End Requirement.

(* ===================================================================== *)
(** ** PuppetFile.ts *)
(* ===================================================================== *)

Definition nl : string := String "010"%char EmptyString.

(** The comment line expression (white space, [#], white space, then the
    group [comment] up to the end of the line): the group of a match *)
Definition match_comment (line : string) : option string :=
  match snd (span is_space line) with
  | String "#"%char rest =>
      let comment := snd (span is_space rest) in
      if String.eqb (remove_all (fun c => negb (is_line_terminator c)) comment) ""
      then Some comment else None
  | _ => None
  end.

(** [/^\s*$/] *)
Definition is_blank (line : string) : bool :=
  String.eqb (snd (span is_space line)) "".

(** [/forge '(?<forge>[^']+)'/]: the group of the leftmost match *)
Fixpoint match_forge (line : string) : option string :=
  let here :=
    match strip_prefix "forge '" line with
    | Some rest =>
        match span (fun c => negb (is_char quote c)) rest with
        | (String c f, String "'"%char _) => Some (String c f)
        | _ => None
        end
    | None => None
    end in
  match here with
  | Some f => Some f
  | None => match line with
            | EmptyString => None
            | String _ rest => match_forge rest
            end
  end.

Definition double_quote : ascii := ascii_of_nat 34.

(** [Handlebars.Utils.escapeExpression] *)
Fixpoint escapeExpression (s : string) : string :=
  match s with
  | EmptyString => EmptyString
  | String c rest =>
      (if is_char "&"%char c then "&amp;"
       else if is_char "<"%char c then "&lt;"
       else if is_char ">"%char c then "&gt;"
       else if is_char double_quote c then "&quot;"
       else if is_char "'"%char c then "&#x27;"
       else if is_char "`"%char c then "&#x60;"
       else if is_char "="%char c then "&#x3D;"
       else String c EmptyString) +:+ escapeExpression rest
  end.

(** [a.name <= b.name] on the code units *)
Definition name_leb (a b : ModuleDeclaration) : bool :=
  match String.compare (name a) (name b) with
  | Gt => false
  | _ => true
  end.

(** [Array.prototype.sort(sortByModuleName)]: a stable sort by name *)
Fixpoint insert_by_name (x : ModuleDeclaration) (l : list ModuleDeclaration)
  : list ModuleDeclaration :=
  match l with
  | [] => [x]
  | y :: rest => if name_leb y x then y :: insert_by_name x rest else x :: l
  end.

Definition sortByModuleName (l : list ModuleDeclaration) : list ModuleDeclaration :=
  fold_left (fun sorted x => insert_by_name x sorted) l [].

Module PuppetFile.

(** [withDependencyIdentifier(value)] *)
Definition withDependencyIdentifier (value : string) (this : PuppetFile) : PuppetFile :=
  {| modules := modules this; dependentModules := dependentModules this;
     forge := forge this; preamble := preamble this; _dependencyIdentifier := value |}.

(** [withPreamble(value)] *)
Definition withPreamble (value : string) (this : PuppetFile) : PuppetFile :=
  {| modules := modules this; dependentModules := dependentModules this;
     forge := forge this; preamble := value;
     _dependencyIdentifier := _dependencyIdentifier this |}.

Definition set_forge (value : string) (this : PuppetFile) : PuppetFile :=
  {| modules := modules this; dependentModules := dependentModules this;
     forge := value; preamble := preamble this;
     _dependencyIdentifier := _dependencyIdentifier this |}.

Definition push_module (m : option mref) (this : PuppetFile) : PuppetFile :=
  {| modules := modules this ++ [m]; dependentModules := dependentModules this;
     forge := forge this; preamble := preamble this;
     _dependencyIdentifier := _dependencyIdentifier this |}.

Definition push_dependentModule (m : option mref) (this : PuppetFile) : PuppetFile :=
  {| modules := modules this; dependentModules := dependentModules this ++ [m];
     forge := forge this; preamble := preamble this;
     _dependencyIdentifier := _dependencyIdentifier this |}.

(** The local variables of [fromText]. *)
Record ParserState := mkParserState {
  currentDeclaration : string;
  inDeclaration : bool;
  inDependencies : bool;
  currentComment : list string;
  readingComment : list string;
  parsed : PuppetFile
}.

(** The closure [addToModules] of [fromText] *)
Definition addToModules `{Environment} (st : ParserState) : M ParserState :=
  if inDeclaration st && negb (String.eqb (currentDeclaration st) "") then
    newModule <- ModuleDeclaration.fromText (currentDeclaration st)
                   (ModuleDeclaration.withForgeApiUrl (forge (parsed st))
                      new_ModuleDeclaration) ;;
    newModule <- alloc (ModuleDeclaration.withComments (currentComment st) newModule) ;;
    ret {| currentDeclaration := currentDeclaration st; inDeclaration := inDeclaration st;
           inDependencies := inDependencies st; currentComment := currentComment st;
           readingComment := readingComment st;
           parsed := if inDependencies st
                     then push_dependentModule (Some newModule) (parsed st)
                     else push_module (Some newModule) (parsed st) |}
  else ret st.

(** The body of the loop over the lines of [fromText] *)
Definition parse_line `{Environment} (line : string) (st : ParserState) : M ParserState :=
  let isSentinel := includes (_dependencyIdentifier (parsed st)) line in
  if bool_decide (is_Some (strip_prefix "mod" line)) || isSentinel then
    st <- addToModules st ;;
    ret {| currentDeclaration := if isSentinel then "" else line;
           inDeclaration := negb isSentinel;
           inDependencies := if isSentinel then true else inDependencies st;
           currentComment := readingComment st;
           readingComment := [];
           parsed := parsed st |}
  else
    match match_comment line with
    | Some comment =>
        ret {| currentDeclaration := currentDeclaration st;
               inDeclaration := inDeclaration st; inDependencies := inDependencies st;
               currentComment := currentComment st;
               readingComment := readingComment st ++ [comment];
               parsed := parsed st |}
    | None =>
        if is_blank line then
          ret {| currentDeclaration := currentDeclaration st;
                 inDeclaration := inDeclaration st; inDependencies := inDependencies st;
                 currentComment := currentComment st;
                 readingComment := [];
                 parsed := parsed st |}
        else if inDeclaration st then
          ret {| currentDeclaration := currentDeclaration st +:+ line;
                 inDeclaration := inDeclaration st; inDependencies := inDependencies st;
                 currentComment := currentComment st;
                 readingComment := readingComment st;
                 parsed := parsed st |}
        else
          match match_forge line with
          | Some f =>
              ret {| currentDeclaration := currentDeclaration st;
                     inDeclaration := inDeclaration st;
                     inDependencies := inDependencies st;
                     currentComment := currentComment st;
                     readingComment := readingComment st;
                     parsed := set_forge f (parsed st) |}
          | None => ret st
          end
    end.

Fixpoint parse_lines `{Environment} (lines : list string) (st : ParserState)
  : M ParserState :=
  match lines with
  | [] => ret st
  | line :: rest => st <- parse_line line st ;; parse_lines rest st
  end.

(** [fromText(text)] *)
Definition fromText `{Environment} (text : string) (this : PuppetFile) : M PuppetFile :=
  st <- parse_lines (split_lines text)
          {| currentDeclaration := ""; inDeclaration := false; inDependencies := false;
             currentComment := []; readingComment := []; parsed := this |} ;;
  st <- addToModules st ;;
  ret (parsed st).

(** [this.modules] read through the heap; an [undefined] entry fails at
    the first property read. *)
Fixpoint read_modules (l : list (option mref)) : M (list ModuleDeclaration) :=
  match l with
  | [] => ret []
  | None :: _ => throw (TypeError "module")
  | Some m :: rest =>
      md <- deref m ;; others <- read_modules rest ;; ret (md :: others)
  end.

(** [list.find(predicate)] on a list of modules, read through the heap *)
Fixpoint find_module (predicate : ModuleDeclaration -> bool) (l : list (option mref))
  : M (option ModuleDeclaration) :=
  match l with
  | [] => ret None
  | None :: _ => throw (TypeError "author")
  | Some m :: rest =>
      value <- deref m ;;
      if predicate value then ret (Some value) else find_module predicate rest
  end.

(** [getModule(author, name)] *)
Definition getModule (a n : string) (this : PuppetFile) : M (option ModuleDeclaration) :=
  find_module (fun value => String.eqb (author value) a && String.eqb (name value) n)
    (modules this).

(** [hasModule(author, name)]; the resolver calls it with the pieces of a
    node key, the second of which may be [undefined]. *)
Definition hasModule (a : string) (n : option string) (this : PuppetFile) : M bool :=
  found <- find_module (fun value => String.eqb (author value) a
                                     && bool_decide (Some (name value) = n))
             (modules this) ;;
  ret (bool_decide (is_Some found)).

(** [getDependentModule(author, name)] *)
Definition getDependentModule (a n : string) (this : PuppetFile)
  : M (option ModuleDeclaration) :=
  find_module (fun value => String.eqb (author value) a && String.eqb (name value) n)
    (dependentModules this).

(** The expansion of [{{#each comments}}]: one line per comment *)
Definition render_comments (c : option (list string)) : string :=
  match c with
  | Some l => fold_right (fun this out => "# " +:+ this +:+ nl +:+ out) "" l
  | None => ""
  end.

(** One iteration of [{{#each gitModules}}] *)
Definition render_gitModule (value : ModuleDeclaration) (last : bool) : string :=
  render_comments (comments value)
  +:+ "mod '" +:+ escapeExpression (author value) +:+ "-"
  +:+ escapeExpression (name value) +:+ "'," +:+ nl
  +:+ "    :git => '" +:+ escapeExpression (nullish (git value) "") +:+ "'"
  +:+ (if truthy (ref value)
       then "," +:+ nl +:+ "    :ref => '" +:+ escapeExpression (nullish (ref value) "")
            +:+ "'"
       else "")
  +:+ nl
  +:+ (if last then "" else "    " +:+ nl).

(** One iteration of [{{#each forgeModules}}] *)
Definition render_forgeModule (value : ModuleDeclaration) (last : bool) : string :=
  render_comments (comments value)
  +:+ "mod '" +:+ escapeExpression (author value) +:+ "-"
  +:+ escapeExpression (name value) +:+ "', '"
  +:+ escapeExpression (nullish (version value) "") +:+ "'" +:+ nl
  +:+ (if last then "" else nl).

(** One iteration of [{{#each dependentModules}}] *)
Definition render_dependentModule (value : ModuleDeclaration) (last : bool) : string :=
  render_comments (comments value)
  +:+ "mod '" +:+ escapeExpression (author value) +:+ "-"
  +:+ escapeExpression (name value) +:+ "', '"
  +:+ escapeExpression (nullish (version value) "") +:+ "'"
  +:+ (if last then "" else nl +:+ nl).

(** [{{#each list}}], with [@last] *)
Fixpoint render_each (item : ModuleDeclaration -> bool -> string)
  (l : list ModuleDeclaration) : string :=
  match l with
  | [] => ""
  | [x] => item x true
  | x :: rest => item x false +:+ render_each item rest
  end.

(** [toText()]: the Handlebars template, with the lines that hold only a
    block tag removed as Handlebars does. *)
Definition toText (this : PuppetFile) : M string :=
  mods <- read_modules (modules this) ;;
  deps <- read_modules (dependentModules this) ;;
  let gitModules := sortByModuleName (List.filter (fun v => negb (forgeModule v)) mods) in
  let forgeModules := sortByModuleName (List.filter forgeModule mods) in
  let dependents := sortByModuleName deps in
  ret ("forge '" +:+ escapeExpression (forge this) +:+ "'" +:+ nl +:+ nl
       +:+ (if String.eqb (preamble this) "" then ""
            else escapeExpression (preamble this) +:+ nl +:+ nl)
       +:+ "# Git modules" +:+ nl +:+ nl
       +:+ render_each render_gitModule gitModules
       +:+ nl +:+ "# Forge modules" +:+ nl +:+ nl
       +:+ render_each render_forgeModule forgeModules
       +:+ nl +:+ escapeExpression (_dependencyIdentifier this) +:+ nl +:+ nl
       +:+ render_each render_dependentModule dependents).

End PuppetFile.

(* ===================================================================== *)
(** ** DependencyResolver.ts *)
(* ===================================================================== *)

(** [class DependencyResolver]; the store is the loop variable of [resolve]. *)
Record DependencyResolver := mkResolver {
  _store : option RequirementsStore;
  _sourcePuppetfile : option PuppetFile;
  _ignoreList : list string;
  _hideList : list string
}.

Module DependencyResolver.

(** [new DependencyResolver()] *)
Definition new : DependencyResolver :=
  {| _store := None; _sourcePuppetfile := None; _ignoreList := []; _hideList := [] |}.

(** [withPuppetFile(puppetfile)] *)
Definition withPuppetFile `{Environment} (puppetfile : PuppetFile)
  (this : DependencyResolver) : M DependencyResolver :=
  store <- RequirementsStore.withPuppetFile puppetfile RequirementsStore.new ;;
  ret {| _store := Some store; _sourcePuppetfile := Some puppetfile;
         _ignoreList := _ignoreList this; _hideList := _hideList this |}.

(** [withHideList(value)] *)
Definition withHideList (value : list string) (this : DependencyResolver)
  : DependencyResolver :=
  {| _store := _store this; _sourcePuppetfile := _sourcePuppetfile this;
     _ignoreList := _ignoreList this; _hideList := value |}.

(** [withIgnoreList(value)] *)
Definition withIgnoreList (value : list string) (this : DependencyResolver)
  : DependencyResolver :=
  {| _store := _store this; _sourcePuppetfile := _sourcePuppetfile this;
     _ignoreList := value; _hideList := _hideList this |}.

(** A statement on the graph singleton that may throw. *)
Definition on_graph (f : Graph -> Result Graph) : M unit :=
  w <- get ;;
  g <- lift (f (dependencyGraph w)) ;;
  modify (set_graph g).

(** [_addToGraph(requirement)] *)
Definition _addToGraph (requirement : Requirement) : M unit :=
  s <- optional_slug (sourceModule requirement) ;;
  w <- get ;;
  (match source requirement with
   | Some Dependency =>
       if negb (DirectedGraph.hasNode (template s) (dependencyGraph w)) then
         on_graph (DirectedGraph.addNode (template s) (sourceModule requirement))
       else ret tt
   | Some Puppetfile =>
       if negb (DirectedGraph.hasNode "puppetfile" (dependencyGraph w)) then
         on_graph (DirectedGraph.addNode "puppetfile" None)
       else ret tt
   | None => ret tt
   end) ;;;
  t <- optional_slug (targetModule requirement) ;;
  w <- get ;;
  (if negb (DirectedGraph.hasNode (template t) (dependencyGraph w)) then
     on_graph (DirectedGraph.addNode (template t) (targetModule requirement))
   else ret tt) ;;;
  let sourceKey := nullish s "puppetfile" in
  w <- get ;;
  if negb (DirectedGraph.hasEdge (sourceKey +:+ "." +:+ template t) (dependencyGraph w)) then
    edgeId <- RequirementBuilder.getEdgeId requirement ;;
    on_graph (DirectedGraph.addDirectedEdgeWithKey edgeId sourceKey (template t)
                (RequirementBuilder.getEdgeAttributes requirement))
  else ret tt.

(** [_checkDeprecationStatus(module)] *)
Definition _checkDeprecationStatus `{Environment} (this : DependencyResolver)
  (module : mref) : M unit :=
  md <- deref module ;;
  status <- ModuleDeclaration.getDeprecationStatus md ;;
  match status with
  | None => ret tt
  | Some _ =>
      status <- ModuleDeclaration.getDeprecationStatus md ;;
      match status with
      | None => throw (TypeError "deprecation status")
      | Some status =>
          if some_equal (_ignoreList this) (getSlug md) then
            modify (add_warning (IgnoredDeprecation (getSlug md) status))
          else throw (DeprecatedModuleError (getSlug md) status)
      end
  end.

(** The body of [for (const dependency of await targetModule.getDependencies())]
    in [_checkVersion]; [index] is the position of [dependency] in the array
    that [targetModule._dependencies] holds ([target] is [targetModule]). *)
Definition add_dependency `{Environment} (target : mref) (index : nat)
  (dependency : Requirement) (store : RequirementsStore) : M RequirementsStore :=
  valid <- lift (RequirementBuilder.isValid dependency) ;;
  match valid, targetModule dependency, dependencyRange dependency with
  | true, Some dependencyTarget, Some range =>
      dmd <- deref dependencyTarget ;;
      w <- get ;;
      shortcut <-
        (if DirectedGraph.hasNode (getSlug dmd) (dependencyGraph w)
         then lift (DependencyGraph.isValid dmd (dependencyGraph w))
         else ret false) ;;
      if shortcut then
        match List.find (fun n => String.eqb (fst n) (getSlug dmd))
                (nodes (dependencyGraph w)) with
        | Some (_, Some existingModule) =>
            (* [dependency.targetModule = existingModule] *)
            update target
              (fun md => set_dependencies
                           (option_map
                              (fun l => <[index := {| targetModule := Some existingModule;
                                                     sourceModule := sourceModule dependency;
                                                     source := source dependency;
                                                     dependencyRange := Some range |}]> l)
                              (_dependencies md)) md) ;;;
            ret store
        | _ => throw (TypeError "getSlug")
        end
      else
        r <- RequirementBuilder.withTargetModule dependencyTarget
               (RequirementBuilder.withSourceModule (Some target)
                  (RequirementBuilder.withSource Dependency RequirementBuilder.new)) ;;
        ret (RequirementsStore.addRequirement
               (RequirementBuilder.withDependencyRange (Some range) r) store)
  | _, _, _ => ret store
  end.

Fixpoint add_dependencies `{Environment} (target : mref) (index : nat)
  (dependencies : list Requirement) (store : RequirementsStore) : M RequirementsStore :=
  match dependencies with
  | [] => ret store
  | dependency :: rest =>
      store <- add_dependency target index dependency store ;;
      add_dependencies target (S index) rest store
  end.

(** The callback of [forEachOutEdge] in [_checkVersion]; an edge that an
    earlier call removed from the graph is not visited. *)
Definition drop_sole_dependency (e : Edge) : M unit :=
  w <- get ;;
  if DirectedGraph.hasEdge (edge_key e) (dependencyGraph w) then
    other <- lift (DirectedGraph.someInEdge (edge_target e)
                     (fun e' => negb (String.eqb (edge_source e) (edge_source e')))
                     (dependencyGraph w)) ;;
    if negb other then on_graph (DirectedGraph.dropNode (edge_target e)) else ret tt
  else ret tt.

(** The body of [for (const edge of graph.graph.inEdges(..))] in
    [_checkVersion] *)
Fixpoint readd_requirements `{Environment} (target : mref) (inEdges : list Edge)
  (store : RequirementsStore) : M RequirementsStore :=
  match inEdges with
  | [] => ret store
  | edge :: rest =>
      let edgeAttributes := edge_attributes edge in
      r <- RequirementBuilder.withTargetModule target
             (RequirementBuilder.withSourceModule (sourceModule edgeAttributes)
                (RequirementBuilder.withSource Dependency RequirementBuilder.new)) ;;
      readd_requirements target rest
        (RequirementsStore.addRequirement
           (RequirementBuilder.withDependencyRange (dependencyRange edgeAttributes) r)
           store)
  end.

(** [_checkVersion(targetModule, oldVersion, newVersion)] *)
Definition _checkVersion `{Environment} (target : mref) (oldVersion newVersion : string)
  (store : RequirementsStore) : M RequirementsStore :=
  if String.eqb newVersion oldVersion then
    dependencies <- ModuleDeclaration.getDependencies target ;;
    add_dependencies target 0 dependencies store
  else
    update target (set_version (Some newVersion)) ;;;
    md <- deref target ;;
    RequirementsStore.updateTargetVersion (getSlug md) newVersion store ;;;
    w <- get ;;
    out <- lift (DirectedGraph.outEdges (getSlug md) (dependencyGraph w)) ;;
    for_each out drop_sole_dependency ;;;
    store <- RequirementsStore.deleteSourceRequirements (getSlug md) store ;;
    w <- get ;;
    inEdges <- lift (DirectedGraph.inEdges (getSlug md) (dependencyGraph w)) ;;
    store <- readd_requirements target inEdges store ;;
    on_graph (DirectedGraph.dropNode (getSlug md)) ;;;
    ret store.

(** The [while (this._store.hasNextRequirement())] loop of [resolve] *)
Fixpoint resolve_loop `{Environment} (fuel : nat) (this : DependencyResolver)
  (store : RequirementsStore) : M unit :=
  match fuel with
  | O => throw OutOfFuel
  | S fuel =>
      if RequirementsStore.hasNextRequirement store then
        let '(next, store) := RequirementsStore.getNextRequirement store in
        match next with
        | Some requirement =>
            valid <- lift (RequirementBuilder.isValid requirement) ;;
            match valid, targetModule requirement with
            | true, Some target =>
                match sourceModule requirement with
                | Some s => _checkDeprecationStatus this s
                | None => ret tt
                end ;;;
                _checkDeprecationStatus this target ;;;
                _addToGraph requirement ;;;
                md <- deref target ;;
                let oldVersion := version md in
                attempt <- try_catch
                             (v <- Requirement.getNewVersion fuel requirement ;; ret (Some v))
                             (fun e =>
                                match e with
                                | NoVersionFoundError r =>
                                    if some_equal (_ignoreList this) (getSlug md) then
                                      modify (add_warning (IgnoredNoVersionFound r)) ;;;
                                      ret None
                                    else throw e
                                | _ => throw e
                                end) ;;
                match attempt with
                | Some newVersion =>
                    store <- _checkVersion target (nullish oldVersion "") newVersion store ;;
                    resolve_loop fuel this store
                | None => resolve_loop fuel this store
                end
            | _, _ => resolve_loop fuel this store
            end
        | None => resolve_loop fuel this store
        end
      else ret tt
  end.

(** [attributes['module'] in resultPuppetfile.modules]: the left operand
    is converted to a property key, the text of an object or of
    [undefined], which is never an index of the array. *)
Definition module_in (module : option mref) (l : list (option mref)) : bool := false.

(** The callback of [graph.graph.forEachNode] at the end of [resolve] *)
Definition dump_node (this : DependencyResolver) (node : string * option mref)
  (resultPuppetfile : PuppetFile) : M PuppetFile :=
  let '(nodeId, module) := node in
  if negb (some_equal (_hideList this) nodeId) then
    let parts := split_on (is_char "-"%char) nodeId in
    let author := template (parts !! 0%nat) in
    let name := parts !! 1%nat in
    inSource <- match _sourcePuppetfile this with
                | Some p => PuppetFile.hasModule author name p
                | None => ret false
                end ;;
    w <- get ;;
    topLevel <- (if inSource then ret true
                 else lift (DirectedGraph.someInEdge nodeId
                              (fun e => match source (edge_attributes e) with
                                        | Some Puppetfile => true
                                        | _ => false
                                        end) (dependencyGraph w))) ;;
    if topLevel && negb (module_in module (modules resultPuppetfile)) then
      ret (PuppetFile.push_module module resultPuppetfile)
    else if negb (String.eqb nodeId "puppetfile")
            && negb (module_in module (dependentModules resultPuppetfile)) then
      ret (PuppetFile.push_dependentModule module resultPuppetfile)
    else ret resultPuppetfile
  else ret resultPuppetfile.

Fixpoint dump_nodes (this : DependencyResolver) (l : list (string * option mref))
  (resultPuppetfile : PuppetFile) : M PuppetFile :=
  match l with
  | [] => ret resultPuppetfile
  | node :: rest =>
      resultPuppetfile <- dump_node this node resultPuppetfile ;;
      dump_nodes this rest resultPuppetfile
  end.

(** [resolve()] *)
Definition resolve `{Environment} (fuel : nat) (this : DependencyResolver) : M PuppetFile :=
  match _store this with
  | None => throw (Thrown "Store wasn't initialized.")
  | Some store =>
      let resultPuppetfile :=
        PuppetFile.set_forge
          (match _sourcePuppetfile this with Some p => forge p | None => DEFAULT_FORGE end)
          (PuppetFile.withPreamble
             (match _sourcePuppetfile this with Some p => preamble p | None => "" end)
             new_PuppetFile) in
      resolve_loop fuel this store ;;;
      w <- get ;;
      dump_nodes this (nodes (dependencyGraph w)) resultPuppetfile
  end.

End DependencyResolver.

(* ===================================================================== *)
(** ** commands/resolve.ts: the hide file and the ignore file *)
(* ===================================================================== *)

Module ResolveCommand.

(** [String.prototype.trimEnd] *)
Fixpoint trim_end (s : string) : string :=
  match s with
  | EmptyString => EmptyString
  | String c rest =>
      match trim_end rest with
      | EmptyString => if is_space c then EmptyString else String c EmptyString
      | kept => String c kept
      end
  end.

(** [String.prototype.trim] *)
Definition trim (s : string) : string := trim_end (snd (span is_space s)).

(** The loop of [_readInFile]. Its test is [line.match(/^$/ || ...)]: the
    left operand of [||] is a regular expression object, which is truthy, so
    the argument of [match] is [/^$/] and the expression for comment lines
    is never used. *)
Fixpoint read_lines (lines : list string) (parsedContent : list string) : list string :=
  match lines with
  | [] => parsedContent
  | line :: rest =>
      if String.eqb line "" then read_lines rest parsedContent
      else read_lines rest (parsedContent ++ [trim line])
  end.

(** [_readInFile(filePath)], on the content of the file *)
Definition _readInFile (fileContent : string) : list string :=
  read_lines (split_on (is_char "010"%char) fileContent) [].

End ResolveCommand.

(* ===================================================================== *)
(** ** A reference instance of the environment

    The theorems below hold for every [Environment]. The examples run the
    code on this instance: a [semver] restricted to plain versions
    [major.minor.patch] and to ranges that are a (possibly empty) list of
    comparators [=v], [<v], [<=v], [>v], [>=v] or [v] separated by spaces,
    on which it agrees with the package; a forge that serves a fixed table,
    and no git repository. *)
(* ===================================================================== *)

Module SemverFragment.

Definition is_digit (c : ascii) : bool :=
  let n := nat_of_ascii c in ((48 <=? n) && (n <=? 57))%nat.

Fixpoint digits_value (acc : nat) (s : string) : nat :=
  match s with
  | EmptyString => acc
  | String c rest => digits_value (10 * acc + (nat_of_ascii c - 48)) rest
  end.

(** A numeric identifier: digits, without a leading zero. *)
Definition parse_number (s : string) : option nat :=
  match s with
  | EmptyString => None
  | String c rest =>
      if String.eqb (remove_all is_digit s) ""
         && (negb (is_char "0"%char c) || String.eqb rest "")
      then Some (digits_value 0 s) else None
  end.

Definition parse_version (s : string) : option (nat * nat * nat) :=
  match split_on (is_char "."%char) s with
  | [a; b; c] =>
      match parse_number a, parse_number b, parse_number c with
      | Some x, Some y, Some z => Some (x, y, z)
      | _, _, _ => None
      end
  | _ => None
  end.

Definition compare_versions (v w : nat * nat * nat) : comparison :=
  let '(a, b, c) := v in
  let '(x, y, z) := w in
  match Nat.compare a x with
  | Eq => match Nat.compare b y with
          | Eq => Nat.compare c z
          | o => o
          end
  | o => o
  end.

Inductive Operator := OpEq | OpLt | OpLe | OpGt | OpGe.

Definition parse_operator (s : string) : Operator * string :=
  match s with
  | String "<"%char (String "="%char rest) => (OpLe, rest)
  | String ">"%char (String "="%char rest) => (OpGe, rest)
  | String "<"%char rest => (OpLt, rest)
  | String ">"%char rest => (OpGt, rest)
  | String "="%char rest => (OpEq, rest)
  | _ => (OpEq, s)
  end.

(** The comparators of a range: the words of the text, an operator that
    stands alone being joined to the word after it. *)
Fixpoint comparators (words : list string) : option (list (Operator * (nat * nat * nat))) :=
  match words with
  | [] => Some []
  | "" :: rest => comparators rest
  | word :: rest =>
      let '(op, v) := parse_operator word in
      if String.eqb v "" then
        match rest with
        | next :: rest' =>
            match parse_version next, comparators rest' with
            | Some pv, Some l => Some ((op, pv) :: l)
            | _, _ => None
            end
        | [] => None
        end
      else
        match parse_version v, comparators rest with
        | Some pv, Some l => Some ((op, pv) :: l)
        | _, _ => None
        end
  end.

Definition parse_range (text : string) : option (list (Operator * (nat * nat * nat))) :=
  comparators (List.filter (fun w => negb (String.eqb w ""))
                 (split_on (is_char " "%char) text)).

Definition test (v : nat * nat * nat) (c : Operator * (nat * nat * nat)) : bool :=
  match fst c, compare_versions v (snd c) with
  | OpEq, Eq => true
  | OpLt, Lt => true
  | OpLe, (Lt | Eq) => true
  | OpGt, Gt => true
  | OpGe, (Gt | Eq) => true
  | _, _ => false
  end.

Definition valid_range (text : string) : bool :=
  bool_decide (is_Some (parse_range text)).

Definition satisfies (v text : string) : bool :=
  match parse_version v, parse_range text with
  | Some pv, Some l => forallb (test pv) l
  | _, _ => false
  end.

End SemverFragment.

Module Scenario.

(** A forge that serves the given tables, keyed by request URL. *)
Definition stub (moduleTable : list (string * ForgeModuleData))
  (releaseTable : list (string * list ForgeDependency)) : Environment :=
  {| semver_valid_range := SemverFragment.valid_range;
     semver_satisfies := SemverFragment.satisfies;
     http_get_module := fun url =>
       option_map snd (List.find (fun entry => String.eqb (fst entry) url) moduleTable);
     http_get_release := fun url =>
       option_map snd (List.find (fun entry => String.eqb (fst entry) url) releaseTable);
     git_fetch_metadata := fun _ _ => inl "Can not clone git repository" |}.

Definition forgeUrl : string := "http://localhost".

Definition moduleUrl (slug : string) : string := forgeUrl +:+ "/v3/modules/" +:+ slug.
Definition releaseUrl (slugAndVersion : string) : string :=
  forgeUrl +:+ "/v3/releases/" +:+ slugAndVersion.

Definition released (versions : list string) : ForgeModuleData :=
  {| releases := Some versions; deprecated_at := None; deprecated_for := None;
     superseded_by := None |}.

Definition needs (slug range : string) : ForgeDependency :=
  {| dep_name := slug; version_requirement := Some range |}.

(** The state of a process that has just started. *)
Definition start : World :=
  {| heap := []; forgeCache := None; dependencyGraph := DirectedGraph.empty;
     warnings := [] |}.

(** The command: parse the manifest, configure the resolver, resolve. *)
Definition run `{Environment} (fuel : nat) (manifest : string)
  (hideList ignoreList : list string) : M PuppetFile :=
  puppetfile <- PuppetFile.fromText manifest new_PuppetFile ;;
  resolver <- DependencyResolver.withPuppetFile puppetfile DependencyResolver.new ;;
  DependencyResolver.resolve fuel
    (DependencyResolver.withIgnoreList ignoreList
       (DependencyResolver.withHideList hideList resolver)).

(** The slugs and versions of a list of modules. *)
Definition listing (w : World) (l : list (option mref)) : list (string * option string) :=
  List.map (fun entry =>
              match entry with
              | Some m => match heap w !! m with
                          | Some md => (getSlug md, version md)
                          | None => ("", None)
                          end
              | None => ("", None)
              end) l.

(** The forge of [DependencyResolver.test.ts]. *)
Definition testForge : Environment :=
  stub
    [ (moduleUrl "test-default", released ["1.2.3"]);
      (moduleUrl "test-defaultdependency", released ["1.2.5"]);
      (moduleUrl "test-dependency", released ["1.2.4"]);
      (moduleUrl "test-wrongdepa", released ["1.2.3"]);
      (moduleUrl "test-wrongdepb", released ["1.2.3"]);
      (moduleUrl "test-wrongdepc", released ["1.2.3"]);
      (moduleUrl "test-deprecated",
       {| releases := Some ["1.2.3"]; deprecated_at := Some "2023-06-12T12:14:00.000Z";
          deprecated_for := Some "some reason"; superseded_by := Some "other-module" |}) ]
    [ (releaseUrl "test-default-1.2.3", [needs "test/defaultdependency" ">= 1.2.4"]);
      (releaseUrl "test-defaultdependency-1.2.5", []);
      (releaseUrl "test-wrongdepa-1.2.3", [needs "test/wrongdepc" ">=1.2.3"]);
      (releaseUrl "test-wrongdepb-1.2.3", [needs "test/wrongdepc" "<1.2.3"]);
      (releaseUrl "test-wrongdepc-1.2.3", []);
      (releaseUrl "test-deprecated-1.2.3", []) ].

Definition basicManifest : string :=
  nl +:+ "forge 'http://localhost'" +:+ nl +:+ nl
  +:+ "mod 'test-default', '1.2.3'" +:+ nl +:+ nl
  +:+ "## dependencies" +:+ nl +:+ nl
  +:+ "mod 'test-dependency', '1.2.4'" +:+ nl.

Definition wrongManifest : string :=
  nl +:+ "forge 'http://localhost'" +:+ nl +:+ nl
  +:+ "mod 'test-wrongdepa', '1.2.3'" +:+ nl
  +:+ "mod 'test-wrongdepb', '1.2.3'" +:+ nl.

End Scenario.

(* ===================================================================== *)
(** * Properties *)
(* ===================================================================== *)

Local Open Scope list_scope.

(** ** The monad *)

Lemma bind_Ok {A B} (c : M A) (k : A -> M B) w a w' :
  c w = (Ok a, w') -> bind c k w = k a w'.
Proof. unfold bind. intros ->. reflexivity. Qed.
Arguments bind_Ok {A B c k w a w'} _.

Lemma bind_Err {A B} (c : M A) (k : A -> M B) w e w' :
  c w = (Err e, w') -> bind c k w = (Err e, w').
Proof. unfold bind. intros ->. reflexivity. Qed.
Arguments bind_Err {A B c k w e w'} _.

(** A successful [bind] splits into its two steps. *)
Lemma bind_inv_Ok {A B} (c : M A) (k : A -> M B) w b w'' :
  bind c k w = (Ok b, w'') ->
  exists a w', c w = (Ok a, w') /\ k a w' = (Ok b, w'').
Proof.
  unfold bind. destruct (c w) as [[a|e] w']; intros E.
  - eauto.
  - discriminate.
Qed.

Lemma deref_Ok w m d : heap w !! m = Some d -> deref m w = (Ok d, w).
Proof. unfold deref. intros ->. reflexivity. Qed.

Lemma deref_inv w m d w' : deref m w = (Ok d, w') -> w' = w /\ heap w !! m = Some d.
Proof.
  unfold deref. destruct (heap w !! m); intros E; inversion E; subst; auto.
Qed.

Lemma append_inj_l (s a b : string) : s +:+ a = s +:+ b -> a = b.
Proof.
  induction s as [|c s IH]; intros E.
  - exact E.
  - apply IH. unfold String.append in E. fold String.append in E. congruence.
Qed.

Lemma truthy_Some v : v <> "" -> truthy (Some v) = true.
Proof.
  intros Hv. simpl. destruct (String.eqb_spec v ""); [contradiction|reflexivity].
Qed.

Lemma truthy_inv o : truthy o = true -> exists v, o = Some v /\ v <> "".
Proof.
  destruct o as [v|]; simpl; [|discriminate].
  destruct (String.eqb_spec v ""); [discriminate|]. eauto.
Qed.

(** ** Requirement.withTargetModule *)

(** The version of the module behind a reference, [None] when unset. *)
Definition version_at (w : World) (m : mref) : option string :=
  match heap w !! m with
  | Some d => version d
  | None => None
  end.

(** C10. [withTargetModule] stores the declaration as the target; when the
    declaration has a (non-empty) version and the requirement has no range
    yet, it also sets the range to ["<= " + version]; when a range is already
    set, or the declaration has no version, the range is left as it is. Hence
    the range of the result depends on the order of the builder calls: two
    targets with different versions, set in either order, leave the range of
    the one that was set first. *)
Theorem withTargetModule_default_range `{Environment} :
  forall (w : World) (declaration : mref) (d : ModuleDeclaration) (this : Requirement),
    heap w !! declaration = Some d ->
    (forall v, version d = Some v -> v <> "" -> dependencyRange this = None ->
       semver_valid_range ("<= " +:+ v) = true ->
       Requirement.withTargetModule declaration this w =
         (Ok {| targetModule := Some declaration; sourceModule := sourceModule this;
                source := source this;
                dependencyRange := Some (mkRange ("<= " +:+ v)) |}, w))
    /\ (is_Some (dependencyRange this) \/ truthy (version d) = false ->
        Requirement.withTargetModule declaration this w =
          (Ok {| targetModule := Some declaration; sourceModule := sourceModule this;
                 source := source this; dependencyRange := dependencyRange this |}, w))
    /\ (forall other d' v v',
          heap w !! other = Some d' ->
          version d = Some v -> v <> "" -> version d' = Some v' -> v' <> "" ->
          semver_valid_range ("<= " +:+ v) = true ->
          semver_valid_range ("<= " +:+ v') = true ->
          v <> v' ->
          exists first second,
            bind (Requirement.withTargetModule declaration Requirement.new)
                 (Requirement.withTargetModule other) w = (Ok first, w)
            /\ bind (Requirement.withTargetModule other Requirement.new)
                    (Requirement.withTargetModule declaration) w = (Ok second, w)
            /\ dependencyRange first = Some (mkRange ("<= " +:+ v))
            /\ dependencyRange second = Some (mkRange ("<= " +:+ v'))
            /\ dependencyRange first <> dependencyRange second).
Proof.
  intros w declaration d this Hd.
  assert (Hset : forall (m : mref) (dm : ModuleDeclaration) (r : Requirement) u,
             heap w !! m = Some dm -> version dm = Some u -> u <> "" ->
             dependencyRange r = None -> semver_valid_range ("<= " +:+ u) = true ->
             Requirement.withTargetModule m r w =
               (Ok {| targetModule := Some m; sourceModule := sourceModule r;
                      source := source r;
                      dependencyRange := Some (mkRange ("<= " +:+ u)) |}, w)).
  { intros m dm r u Hm Hu Hne Hr Hvalid.
    unfold Requirement.withTargetModule, RequirementBuilder.withTargetModule.
    rewrite (bind_Ok (deref_Ok Hm)). cbn [dependencyRange].
    rewrite Hu, (truthy_Some Hne), Hr. cbn [template].
    rewrite bool_decide_eq_false_2 by (intros [x Hx]; discriminate).
    cbn [negb andb]. unfold new_Range. rewrite Hvalid. reflexivity. }
  assert (Hkeep : forall (m : mref) (dm : ModuleDeclaration) (r : Requirement),
             heap w !! m = Some dm ->
             is_Some (dependencyRange r) \/ truthy (version dm) = false ->
             Requirement.withTargetModule m r w =
               (Ok {| targetModule := Some m; sourceModule := sourceModule r;
                      source := source r; dependencyRange := dependencyRange r |}, w)).
  { intros m dm r Hm Hcase.
    unfold Requirement.withTargetModule, RequirementBuilder.withTargetModule.
    rewrite (bind_Ok (deref_Ok Hm)). cbn [dependencyRange].
    destruct Hcase as [Hsome | Hfalsy].
    - rewrite bool_decide_eq_true_2 by assumption.
      cbn [negb]. rewrite andb_false_r. reflexivity.
    - rewrite Hfalsy. reflexivity. }
  split; [|split].
  - intros v Hv Hne Hr Hvalid. eapply Hset; eauto.
  - intros Hcase. eapply Hkeep; eauto.
  - intros other d' v v' Hd' Hv Hne Hv' Hne' Hvalid Hvalid' Hdiff.
    eexists _, _. split; [|split; [|split; [|split]]].
    + erewrite bind_Ok by (eapply (Hset declaration d); eauto; reflexivity).
      eapply (Hkeep other d'); [eassumption | left; cbn; eauto].
    + erewrite bind_Ok by (eapply (Hset other d'); eauto; reflexivity).
      eapply (Hkeep declaration d); [eassumption | left; cbn; eauto].
    + reflexivity.
    + reflexivity.
    + cbn. intros E. apply Hdiff. injection E as E.
      exact (append_inj_l E).
Qed.

(** A heap of two forge modules, [test-one] at 1.2.3 and [test-two] at 2.0.0. *)
Definition sample_module (n v : string) : ModuleDeclaration :=
  {| name := n; author := "test"; forgeModule := true; version := Some v;
     git := None; ref := None; comments := None; _availableVersions := [];
     _forgeApiUrl := Some Scenario.forgeUrl; _gitMetadata := None; _dependencies := None |}.

Definition sample_world : World :=
  {| heap := [sample_module "one" "1.2.3"; sample_module "two" "2.0.0"];
     forgeCache := None; dependencyGraph := DirectedGraph.empty; warnings := [] |}.

Lemma withTargetModule_default_range_witness :
  Requirement.withTargetModule (H := Scenario.testForge) 0 Requirement.new sample_world
  = (Ok {| targetModule := Some 0; sourceModule := None; source := None;
           dependencyRange := Some (mkRange "<= 1.2.3") |}, sample_world)
  /\ Requirement.withTargetModule (H := Scenario.testForge) 0
       (Requirement.withDependencyRange (Some (mkRange ">=1.0.0")) Requirement.new)
       sample_world
     = (Ok {| targetModule := Some 0; sourceModule := None; source := None;
              dependencyRange := Some (mkRange ">=1.0.0") |}, sample_world).
Proof.
  pose proof (@withTargetModule_default_range Scenario.testForge
                sample_world 0 (sample_module "one" "1.2.3")) as T.
  split.
  - apply (proj1 (T Requirement.new eq_refl) "1.2.3");
      [reflexivity | discriminate | reflexivity | vm_compute; reflexivity].
  - apply (proj1 (proj2 (T (Requirement.withDependencyRange (Some (mkRange ">=1.0.0"))
                              Requirement.new) eq_refl))).
    left. cbn. eauto.
Defined.

(** ** RequirementsStore *)

(** What [deleteSourceRequirements] keeps: the requirements that have a
    source module whose slug differs from the given one. *)
Definition kept_by_delete (w : World) (sourceSlug : string) (value : Requirement) : bool :=
  match sourceModule value with
  | Some s => match heap w !! s with
              | Some md => negb (String.eqb (getSlug md) sourceSlug)
              | None => false
              end
  | None => false
  end.

Lemma deleteSourceRequirements_filter (w : World) (sourceSlug : string)
  (this : RequirementsStore) :
  (forall value s, value ∈ _requirements this -> sourceModule value = Some s ->
                   is_Some (heap w !! s)) ->
  RequirementsStore.deleteSourceRequirements sourceSlug this w
  = (Ok {| _requirements := List.filter (kept_by_delete w sourceSlug) (_requirements this);
           _puppetfile := _puppetfile this |}, w).
Proof.
  intros Hheap. unfold RequirementsStore.deleteSourceRequirements.
  match goal with |- bind (filterM ?p _) _ _ = _ => set (pred := p) end.
  assert (E : filterM pred (_requirements this) w
              = (Ok (List.filter (kept_by_delete w sourceSlug) (_requirements this)), w)).
  { induction (_requirements this) as [|value rest IH]; [reflexivity|].
    cbn [filterM List.filter].
    assert (Hp : pred value w = (Ok (kept_by_delete w sourceSlug value), w)).
    { unfold pred, kept_by_delete. destruct (sourceModule value) as [s|] eqn:Hs.
      - destruct (Hheap value s) as [md Hmd]; [left|assumption|].
        rewrite (bind_Ok (deref_Ok Hmd)), Hmd. reflexivity.
      - reflexivity. }
    rewrite (bind_Ok Hp).
    rewrite (bind_Ok (IH (fun v s Hv => Hheap v s (list_elem_of_further _ _ _ Hv)))).
    unfold ret. destruct (kept_by_delete w sourceSlug value); reflexivity. }
  rewrite (bind_Ok E). reflexivity.
Qed.

(** C4 (the code departs from the claim). A queued requirement that comes
    from the manifest has no source module; [deleteSourceRequirements]
    removes it, whatever the slug: here the store holds one manifest
    requirement for [test-one] and the call is for the slug [test-two]. *)
Theorem deleteSourceRequirements_drops_manifest_requirements :
  let manifestRequirement :=
    {| targetModule := Some 0; sourceModule := None; source := Some Puppetfile;
       dependencyRange := Some (mkRange "=1.2.3") |} in
  RequirementsStore.deleteSourceRequirements "test-two"
    {| _requirements := [manifestRequirement]; _puppetfile := None |} sample_world
  = (Ok {| _requirements := []; _puppetfile := None |}, sample_world).
Proof. reflexivity. Qed.

(** The requirements that [getNextRequirement] returns until
    [hasNextRequirement] is false. *)
Fixpoint dequeue_all (fuel : nat) (store : RequirementsStore) : list Requirement :=
  match fuel with
  | O => []
  | S fuel =>
      if RequirementsStore.hasNextRequirement store then
        match RequirementsStore.getNextRequirement store with
        | (Some r, store') => r :: dequeue_all fuel store'
        | (None, _) => []
        end
      else []
  end.

Lemma dequeue_all_requirements (l : list Requirement) (p : option PuppetFile) (fuel : nat) :
  length l <= fuel ->
  dequeue_all fuel {| _requirements := l; _puppetfile := p |} = l.
Proof.
  revert fuel. induction l as [|r rest IH]; intros fuel Hfuel.
  - destruct fuel; reflexivity.
  - destruct fuel as [|fuel]; [simpl in Hfuel; lia|].
    cbn. f_equal. apply IH. simpl in Hfuel. lia.
Qed.

(** The requirement that [withPuppetFile] builds for a top-level module. *)
Definition manifest_requirement (w : World) (m : mref) : Requirement :=
  {| targetModule := Some m; sourceModule := None; source := Some Puppetfile;
     dependencyRange := Some (mkRange ("=" +:+ nullish (version_at w m) "")) |}.

(** The texts of the ranges that [withPuppetFile] builds for a module are
    accepted by [semver]. *)
Definition ranges_accepted `{Environment} (w : World) (m : mref) : Prop :=
  exists d, heap w !! m = Some d
            /\ semver_valid_range ("=" +:+ nullish (version d) "") = true
            /\ (truthy (version d) = true ->
                semver_valid_range ("<= " +:+ template (version d)) = true).

(** C6. A store built from a manifest holds exactly one requirement per
    top-level module, in the order of the manifest (the dependent modules
    play no part): source [Puppetfile], no source module, the module as
    target and the range ["=" + version]; dequeuing returns them in that
    order. *)
Theorem withPuppetFile_enqueues_top_level_modules `{Environment} :
  forall (w : World) (puppetfile : PuppetFile) (top : list mref),
    modules puppetfile = List.map Some top ->
    (forall m, m ∈ top -> ranges_accepted w m) ->
    exists store,
      RequirementsStore.withPuppetFile puppetfile RequirementsStore.new w = (Ok store, w)
      /\ _requirements store = List.map (manifest_requirement w) top
      /\ (forall fuel, length top <= fuel ->
                       dequeue_all fuel store = List.map (manifest_requirement w) top).
Proof.
  intros w puppetfile top Hmods Hok.
  unfold RequirementsStore.withPuppetFile. rewrite Hmods.
  match goal with
  | |- context [?f (List.map Some top) ?s0 w] =>
      set (loop := f);
      assert (Hloop : forall l queued,
                (forall m, m ∈ l -> ranges_accepted w m) ->
                loop (List.map Some l)
                     {| _requirements := queued; _puppetfile := Some puppetfile |} w
                = (Ok {| _requirements := queued ++ List.map (manifest_requirement w) l;
                         _puppetfile := Some puppetfile |}, w))
  end.
  { induction l as [|m rest IH]; intros queued Hl.
    - cbn. rewrite app_nil_r. reflexivity.
    - destruct (Hl m) as (d & Hd & Heq & Hle); [left|].
      cbn [List.map]. unfold loop at 1. fold loop.
      assert (Hstep : RequirementBuilder.withTargetModule m RequirementBuilder.new w
                      = (Ok {| targetModule := Some m; sourceModule := None; source := None;
                               dependencyRange :=
                                 if truthy (version d)
                                 then Some (mkRange ("<= " +:+ template (version d)))
                                 else None |}, w)).
      { unfold RequirementBuilder.withTargetModule.
        rewrite (bind_Ok (deref_Ok Hd)). cbn [dependencyRange RequirementBuilder.new].
        rewrite bool_decide_eq_false_2 by (intros [x Hx]; discriminate).
        cbn [negb]. rewrite andb_true_r.
        destruct (truthy (version d)) eqn:Ht; [|reflexivity].
        unfold new_Range. rewrite (Hle eq_refl). reflexivity. }
      rewrite (bind_Ok Hstep), (bind_Ok (deref_Ok Hd)).
      unfold new_Range at 1. rewrite Heq.
      unfold bind at 1, ret at 1.
      unfold RequirementsStore.addRequirement. cbn [_requirements _puppetfile].
      rewrite IH by (intros m' Hm'; apply Hl; right; exact Hm').
      rewrite <- app_assoc. cbn [List.map app].
      unfold manifest_requirement at 2, version_at. rewrite Hd. reflexivity. }
  eexists. split; [|split].
  - apply (Hloop top [] Hok).
  - reflexivity.
  - intros fuel Hfuel. cbn [app]. apply dequeue_all_requirements.
    rewrite length_map. exact Hfuel.
Qed.

Lemma withPuppetFile_enqueues_top_level_modules_witness :
  exists store,
    RequirementsStore.withPuppetFile (H := Scenario.testForge)
      {| modules := [Some 0; Some 1]; dependentModules := []; forge := Scenario.forgeUrl;
         preamble := ""; _dependencyIdentifier := "## dependencies" |}
      RequirementsStore.new sample_world = (Ok store, sample_world)
    /\ _requirements store
       = [ {| targetModule := Some 0; sourceModule := None; source := Some Puppetfile;
              dependencyRange := Some (mkRange "=1.2.3") |};
           {| targetModule := Some 1; sourceModule := None; source := Some Puppetfile;
              dependencyRange := Some (mkRange "=2.0.0") |} ]
    /\ dequeue_all 2 store = _requirements store.
Proof.
  destruct (@withPuppetFile_enqueues_top_level_modules Scenario.testForge
              sample_world
              {| modules := [Some 0; Some 1]; dependentModules := [];
                 forge := Scenario.forgeUrl; preamble := "";
                 _dependencyIdentifier := "## dependencies" |}
              [0; 1] eq_refl) as (store & Hrun & Hreq & Hdeq).
  - intros m Hm. unfold ranges_accepted.
    apply list_elem_of_In in Hm. destruct Hm as [<- | [<- | []]].
    + exists (sample_module "one" "1.2.3"). repeat split; vm_compute; reflexivity.
    + exists (sample_module "two" "2.0.0"). repeat split; vm_compute; reflexivity.
  - exists store. split; [exact Hrun|]. split.
    + rewrite Hreq. reflexivity.
    + rewrite Hreq. apply Hdeq. simpl. lia.
Defined.

(** ** DependencyGraph.isValid *)

Lemma inEdges_Ok key g :
  DirectedGraph.hasNode key g = true ->
  DirectedGraph.inEdges key g
  = Ok (List.filter (fun e => String.eqb (edge_target e) key) (edges g)).
Proof. unfold DirectedGraph.inEdges. intros ->. reflexivity. Qed.

Lemma isValid_Ok `{Environment} (module : ModuleDeclaration) (g : Graph) :
  DirectedGraph.hasNode (getSlug module) g = true ->
  DependencyGraph.isValid module g
  = Ok (forallb (fun e => DependencyGraph.edge_accepts (version module) (edge_attributes e))
          (List.filter (fun e => String.eqb (edge_target e) (getSlug module)) (edges g))).
Proof.
  intros Hnode. unfold DependencyGraph.isValid, DirectedGraph.everyInEdge.
  rewrite (inEdges_Ok Hnode). reflexivity.
Qed.


(** A graph with the node [test-one] and two edges into it, ">=1.0.0" and
    "<1.2.3". *)
Definition sample_graph : Graph :=
  {| nodes := [("test-one", Some 0); ("test-two", Some 1); ("puppetfile", None)];
     edges := [ mkEdge "puppetfile.test-one" "puppetfile" "test-one"
                  {| targetModule := Some 0; sourceModule := None;
                     source := Some Puppetfile;
                     dependencyRange := Some (mkRange ">=1.0.0") |};
                mkEdge "test-two.test-one" "test-two" "test-one"
                  {| targetModule := Some 0; sourceModule := Some 1;
                     source := Some Dependency;
                     dependencyRange := Some (mkRange "<1.2.3") |} ] |}.


(** ** DependencyResolver.resolve: an invalid requirement *)

Lemma isValid_Err_inv (r : Requirement) :
  targetModule r = None \/ dependencyRange r = None ->
  exists message, RequirementBuilder.isValid r = Err (Thrown message).
Proof.
  intros Hcase. unfold RequirementBuilder.isValid.
  destruct (source r) as [[|]|], (sourceModule r), (targetModule r), (dependencyRange r);
    eauto; destruct Hcase; discriminate.
Qed.

(** The claim C9 on one input: the store holds a requirement without a
    range and nothing else. Skipping it would leave an empty store, on which
    [resolve] succeeds; the code ends with the exception of [isValid]. *)
Lemma resolve_invalid_requirement_not_skipped :
  let invalid := {| targetModule := Some 0; sourceModule := None;
                    source := Some Puppetfile; dependencyRange := None |} in
  let resolver (queue : list Requirement) :=
    {| _store := Some {| _requirements := queue; _puppetfile := None |};
       _sourcePuppetfile := None; _ignoreList := []; _hideList := [] |} in
  DependencyResolver.resolve (H := Scenario.testForge) 5 (resolver [invalid]) sample_world
  = (Err (Thrown "Requirement has no dependency range"), sample_world)
  /\ fst (DependencyResolver.resolve (H := Scenario.testForge) 5 (resolver []) sample_world)
     = Ok (PuppetFile.set_forge DEFAULT_FORGE new_PuppetFile)
  /\ DependencyResolver.resolve (H := Scenario.testForge) 5 (resolver [invalid]) sample_world
     <> DependencyResolver.resolve (H := Scenario.testForge) 4 (resolver []) sample_world.
Proof. repeat split. discriminate. Qed.

(** C9, as the code has it. When the requirement that [resolve] dequeues
    has no target module or no dependency range, [isValid] throws and
    [resolve] ends with that exception, leaving the state as it was; the
    requirements queued behind it are not processed. *)
Theorem resolve_aborts_on_invalid_requirement `{Environment} :
  forall (fuel : nat) (this : DependencyResolver) (store : RequirementsStore)
         (r : Requirement) (rest : list Requirement) (w : World),
    _store this = Some store ->
    _requirements store = r :: rest ->
    targetModule r = None \/ dependencyRange r = None ->
    exists message,
      RequirementBuilder.isValid r = Err (Thrown message)
      /\ DependencyResolver.resolve (S fuel) this w = (Err (Thrown message), w).
Proof.
  intros fuel this store r rest w Hstore Hqueue Hinvalid.
  destruct (isValid_Err_inv Hinvalid) as [message Hmsg].
  exists message. split; [exact Hmsg|].
  unfold DependencyResolver.resolve. rewrite Hstore.
  cbn [DependencyResolver.resolve_loop].
  unfold RequirementsStore.hasNextRequirement, RequirementsStore.getNextRequirement.
  rewrite Hqueue. cbn [length Nat.ltb Nat.leb].
  rewrite Hmsg. reflexivity.
Qed.

Lemma resolve_aborts_on_invalid_requirement_witness :
  exists message,
    RequirementBuilder.isValid
      {| targetModule := None; sourceModule := None; source := Some Puppetfile;
         dependencyRange := Some (mkRange "=1.2.3") |} = Err (Thrown message)
    /\ DependencyResolver.resolve (H := Scenario.testForge) 3
         {| _store := Some {| _requirements :=
                                [ {| targetModule := None; sourceModule := None;
                                     source := Some Puppetfile;
                                     dependencyRange := Some (mkRange "=1.2.3") |} ];
                              _puppetfile := None |};
            _sourcePuppetfile := None; _ignoreList := []; _hideList := [] |} sample_world
       = (Err (Thrown message), sample_world).
Proof.
  apply (@resolve_aborts_on_invalid_requirement Scenario.testForge 2
           {| _store := Some {| _requirements :=
                                  [ {| targetModule := None; sourceModule := None;
                                       source := Some Puppetfile;
                                       dependencyRange := Some (mkRange "=1.2.3") |} ];
                                _puppetfile := None |};
              _sourcePuppetfile := None; _ignoreList := []; _hideList := [] |}
           {| _requirements :=
                [ {| targetModule := None; sourceModule := None;
                     source := Some Puppetfile;
                     dependencyRange := Some (mkRange "=1.2.3") |} ];
              _puppetfile := None |}
           _ [] sample_world eq_refl eq_refl).
  left. reflexivity.
Defined.

(** ** Requirement.getNewVersion *)

Lemma factory_Some url w c :
  forgeCache w = Some c -> ForgeCache.factory url w = (Ok c, w).
Proof.
  intros Hc. unfold ForgeCache.factory, bind, get. rewrite Hc. reflexivity.
Qed.

Lemma getReleases_cached `{Environment} url a n w c l :
  forgeCache w = Some c -> _releases c !! (a +:+ "-" +:+ n) = Some l ->
  ForgeCache.getReleases url a n w = (Ok l, w).
Proof.
  intros Hc Hl. unfold ForgeCache.getReleases.
  rewrite (bind_Ok (factory_Some url Hc)), Hl. reflexivity.
Qed.

Lemma updateAvailableReleases_Some url a n l w c :
  forgeCache w = Some c ->
  ForgeCache.updateAvailableReleases url a n l w
  = (Ok tt, set_forgeCache
              (Some (ForgeCache.set_releases (<[a +:+ "-" +:+ n := l]> (_releases c)) c)) w).
Proof.
  intros Hc. unfold ForgeCache.updateAvailableReleases.
  rewrite (bind_Ok (factory_Some url Hc)). reflexivity.
Qed.

(** The state during the search for the module [md] behind [t]: the version
    of the module is [v] and the cached release list of its slug is [l]. *)
Definition searching (w : World) (t : mref) (md : ModuleDeclaration) (c : ForgeCache)
  (v : option string) (l : list string) : World :=
  {| heap := <[t := set_version v md]> (heap w);
     forgeCache := Some (ForgeCache.set_releases (<[getSlug md := l]> (_releases c)) c);
     dependencyGraph := dependencyGraph w;
     warnings := warnings w |}.

Lemma searching_searching w t md c v l v' l' :
  searching (searching w t md c v l) t (set_version v md)
    (ForgeCache.set_releases (<[getSlug md := l]> (_releases c)) c) v' l'
  = searching w t md c v' l'.
Proof.
  unfold searching. cbn. f_equal.
  - apply list_insert_insert_eq.
  - unfold ForgeCache.set_releases. cbn. do 2 f_equal. apply insert_insert_eq.
Qed.

(** The verdict of the loop on a candidate: the graph validates the module
    at that version, and the version is not the empty text. *)
Definition candidate_accepted `{Environment} (g : Graph) (md : ModuleDeclaration)
  (v : string) : bool :=
  match DependencyGraph.isValid (set_version (Some v) md) g with
  | Ok b => b && truthy (Some v)
  | Err _ => false
  end.

(** The claim's account of the search over a release list: drop the head
    until a candidate is accepted; that candidate stays at the head. *)
Fixpoint first_accepted (accepted : string -> bool) (l : list string)
  : option (string * list string) :=
  match l with
  | [] => None
  | v :: rest => if accepted v then Some (v, v :: rest) else first_accepted accepted rest
  end.

Lemma first_accepted_ext (f g : string -> bool) (l : list string) :
  (forall x, f x = g x) -> first_accepted f l = first_accepted g l.
Proof.
  intros E. induction l as [|v rest IH]; [reflexivity|].
  cbn. rewrite E, IH. reflexivity.
Qed.

Lemma update_Ok w m d f :
  heap w !! m = Some d -> update m f w = (Ok tt, set_heap (<[m := f d]> (heap w)) w).
Proof. intros Hd. unfold update. rewrite (bind_Ok (deref_Ok Hd)). reflexivity. Qed.

Section cached.
Context `{Environment}.
Variables (w : World) (md : ModuleDeclaration) (c : ForgeCache) (url : string)
  (l : list string).
Hypothesis (Hurl : url <> "") (Hu : _forgeApiUrl md = Some url)
  (Hc : forgeCache w = Some c) (Hl : _releases c !! getSlug md = Some l).

Lemma getAvailableVersions_cached :
  ModuleDeclaration.getAvailableVersions md w = (Ok l, w).
Proof.
  unfold ModuleDeclaration.getAvailableVersions.
  rewrite Hu, (truthy_Some Hurl). cbn [negb template].
  apply (getReleases_cached _ Hc Hl).
Qed.

Lemma hasAvailableVersion_cached :
  ModuleDeclaration.hasAvailableVersion md w = (Ok (0 <? length l)%nat, w).
Proof.
  unfold ModuleDeclaration.hasAvailableVersion.
  rewrite Hu, (truthy_Some Hurl). cbn [negb].
  rewrite (bind_Ok getAvailableVersions_cached). reflexivity.
Qed.

Lemma getNextAvailableVersion_cached :
  ModuleDeclaration.getNextAvailableVersion md w
  = (Ok (head l),
     set_forgeCache
       (Some (ForgeCache.set_releases (<[getSlug md := tail l]> (_releases c)) c)) w).
Proof.
  unfold ModuleDeclaration.getNextAvailableVersion.
  rewrite Hu, (truthy_Some Hurl). cbn [negb template].
  rewrite (bind_Ok getAvailableVersions_cached).
  rewrite (bind_Ok (updateAvailableReleases_Some _ _ _ _ Hc)). reflexivity.
Qed.

Lemma addAvailableVersion_cached v :
  ModuleDeclaration.addAvailableVersion v md w
  = (Ok tt,
     set_forgeCache
       (Some (ForgeCache.set_releases (<[getSlug md := v :: l]> (_releases c)) c)) w).
Proof.
  unfold ModuleDeclaration.addAvailableVersion.
  rewrite Hu, (truthy_Some Hurl). cbn [negb template].
  rewrite (bind_Ok getAvailableVersions_cached).
  apply (updateAvailableReleases_Some _ _ _ _ Hc).
Qed.
End cached.

Lemma search_releases `{Environment} (t : mref) (url : string) (g : Graph) :
  url <> "" ->
  forall (l : list string) (fuel : nat) (w : World) (md : ModuleDeclaration) (c : ForgeCache),
    length l < fuel ->
    heap w !! t = Some md ->
    _forgeApiUrl md = Some url ->
    dependencyGraph w = g ->
    DirectedGraph.hasNode (getSlug md) g = true ->
    forgeCache w = Some c ->
    _releases c !! getSlug md = Some l ->
    Requirement.search fuel t w
    = match first_accepted (candidate_accepted g md) l with
      | Some (v, l') => (Ok true, searching w t md c (Some v) l')
      | None => (Ok false, match l with
                           | [] => w
                           | _ => searching w t md c (Some (List.last l "")) []
                           end)
      end.
Proof.
  intros Hurl. induction l as [|v rest IH]; intros fuel w md c Hfuel Hmd Hu Hg Hnode Hc Hl;
    (destruct fuel as [|fuel]; [simpl in Hfuel; lia|]).
  - cbn [Requirement.search first_accepted].
    rewrite (bind_Ok (deref_Ok Hmd)).
    rewrite (bind_Ok (hasAvailableVersion_cached Hurl Hu Hc Hl)). reflexivity.
  - cbn [Requirement.search first_accepted].
    rewrite (bind_Ok (deref_Ok Hmd)).
    rewrite (bind_Ok (hasAvailableVersion_cached Hurl Hu Hc Hl)).
    cbn [length Nat.ltb Nat.leb].
    rewrite (bind_Ok (getNextAvailableVersion_cached Hurl Hu Hc Hl)).
    cbn [tail head].
    set (w1 := set_forgeCache _ w).
    assert (Hmd1 : heap w1 !! t = Some md) by exact Hmd.
    rewrite (bind_Ok (update_Ok _ Hmd1)).
    set (w2 := set_heap _ w1).
    assert (Hw2 : w2 = searching w t md c (Some v) rest) by reflexivity.
    assert (Hmd2 : heap w2 !! t = Some (set_version (Some v) md)).
    { unfold w2. cbn. apply list_lookup_insert_eq. eapply lookup_lt_Some. exact Hmd. }
    rewrite (bind_Ok (deref_Ok Hmd2)).
    unfold bind at 1, get at 1.
    assert (Hg2 : dependencyGraph w2 = g) by exact Hg.
    rewrite Hg2.
    assert (Hnode2 : DirectedGraph.hasNode (getSlug (set_version (Some v) md)) g = true)
      by exact Hnode.
    assert (Hcand : candidate_accepted g md v
                    = match DependencyGraph.isValid (set_version (Some v) md) g with
                      | Ok b => b && truthy (Some v)
                      | Err _ => false
                      end) by reflexivity.
    rewrite Hcand, (isValid_Ok Hnode2).
    match goal with |- context [lift (Ok ?b)] => set (valid := b) end.
    unfold bind at 1, lift at 1.
    assert (Hc2 : forgeCache w2
                  = Some (ForgeCache.set_releases (<[getSlug md := rest]> (_releases c)) c))
      by reflexivity.
    assert (Hl2 : _releases (ForgeCache.set_releases (<[getSlug md := rest]> (_releases c)) c)
                    !! getSlug (set_version (Some v) md) = Some rest).
    { cbn. apply lookup_insert_eq. }
    assert (Hu2 : _forgeApiUrl (set_version (Some v) md) = Some url) by exact Hu.
    cbn [version set_version].
    destruct (valid && truthy (Some v)) eqn:Hacc.
    + rewrite (bind_Ok (addAvailableVersion_cached Hurl Hu2 Hc2 Hl2 _)).
      unfold ret. f_equal. rewrite Hw2. unfold searching, set_forgeCache. cbn.
      f_equal. unfold ForgeCache.set_releases. cbn. do 2 f_equal.
      apply insert_insert_eq.
    + rewrite (IH fuel w2 (set_version (Some v) md) _ ltac:(simpl in Hfuel; lia)
                 Hmd2 Hu Hg2 Hnode2 Hc2 Hl2).
      assert (Hsame : forall x, candidate_accepted g (set_version (Some v) md) x
                                = candidate_accepted g md x) by reflexivity.
      rewrite (first_accepted_ext _ Hsame).
      rewrite Hw2.
      destruct (first_accepted (candidate_accepted g md) rest) as [[v' l']|].
      * rewrite searching_searching. reflexivity.
      * destruct rest as [|v' rest']; [reflexivity|].
        rewrite searching_searching. reflexivity.
Qed.

Lemma first_accepted_found (accepted : string -> bool) (skipped : list string) v rest :
  Forall (fun x => accepted x = false) skipped -> accepted v = true ->
  first_accepted accepted (skipped ++ v :: rest)%list = Some (v, v :: rest).
Proof.
  intros Hskipped Hv. induction Hskipped as [|x skipped Hx _ IH]; cbn.
  - rewrite Hv. reflexivity.
  - rewrite Hx. exact IH.
Qed.

Lemma first_accepted_exhausted (accepted : string -> bool) (l : list string) :
  Forall (fun x => accepted x = false) l -> first_accepted accepted l = None.
Proof.
  intros Hl. induction Hl as [|x l Hx _ IH]; cbn; [reflexivity|].
  rewrite Hx. exact IH.
Qed.

(** The claim C2 on one input: the release list is ["", "1.0.0"], the
    module is at 0.9.0 and the only incoming edge asks for ">=1.0.0". The
    graph validates the first candidate, the empty text (a module without a
    version is valid), but the search passes over it and returns 1.0.0. *)
Lemma getNewVersion_passes_over_empty_version :
  let w := {| heap := [sample_module "one" "0.9.0"];
              forgeCache :=
                Some {| cache_forgeApiUrl := Scenario.forgeUrl;
                        _releases := {[ "test-one" := [""; "1.0.0"] ]};
                        _forgeModuleData := ∅; cache_dependencies := ∅ |};
              dependencyGraph :=
                {| nodes := [("puppetfile", None); ("test-one", Some 0)];
                   edges := [ mkEdge "puppetfile.test-one" "puppetfile" "test-one"
                                {| targetModule := Some 0; sourceModule := None;
                                   source := Some Puppetfile;
                                   dependencyRange := Some (mkRange ">=1.0.0") |} ] |};
              warnings := [] |} in
  let r := {| targetModule := Some 0; sourceModule := None; source := Some Puppetfile;
              dependencyRange := Some (mkRange ">=1.0.0") |} in
  DependencyGraph.isValid (H := Scenario.testForge) (sample_module "one" "0.9.0")
    (dependencyGraph w) = Ok false
  /\ DependencyGraph.isValid (H := Scenario.testForge) (sample_module "one" "")
       (dependencyGraph w) = Ok true
  /\ fst (Requirement.getNewVersion (H := Scenario.testForge) 5 r w) = Ok "1.0.0"
  /\ fst (Requirement.getNewVersion (H := Scenario.testForge) 5 r w) <> Ok "".
Proof. vm_compute. repeat split; discriminate. Qed.

(** C2, as the code has it. Let the node of the target module be in the
    graph. If the graph validates the target, [getNewVersion] returns its
    version and changes nothing, the release list included. Otherwise, with
    a forge endpoint and the release list of the slug in the cache, the
    search removes the head of the list and makes it the version of the
    target until a candidate is accepted: the first version of the list that
    is not empty and that the graph validates is put back at the head of the
    list and returned; when no version of the list is accepted the list ends
    empty and [NoVersionFoundError] is thrown. *)
Theorem getNewVersion_searches_release_list `{Environment} :
  forall (fuel : nat) (w : World) (this : Requirement) (t : mref) (md : ModuleDeclaration),
    targetModule this = Some t ->
    heap w !! t = Some md ->
    DirectedGraph.hasNode (getSlug md) (dependencyGraph w) = true ->
    let g := dependencyGraph w in
    (DependencyGraph.isValid md g = Ok true ->
     Requirement.getNewVersion fuel this w = (Ok (nullish (version md) ""), w))
    /\ (forall v, candidate_accepted g md v = true <->
                  DependencyGraph.isValid (set_version (Some v) md) g = Ok true /\ v <> "")
    /\ (DependencyGraph.isValid md g = Ok false ->
        forall (url : string) (c : ForgeCache) (l : list string),
          _forgeApiUrl md = Some url -> url <> "" ->
          forgeCache w = Some c -> _releases c !! getSlug md = Some l ->
          length l < fuel ->
          (forall skipped v rest,
              l = (skipped ++ v :: rest)%list ->
              Forall (fun x => candidate_accepted g md x = false) skipped ->
              candidate_accepted g md v = true ->
              Requirement.getNewVersion fuel this w
              = (Ok v, searching w t md c (Some v) (v :: rest)))
          /\ (Forall (fun x => candidate_accepted g md x = false) l ->
              Requirement.getNewVersion fuel this w
              = (Err (NoVersionFoundError this),
                 match l with
                 | [] => w
                 | _ => searching w t md c (Some (List.last l "")) []
                 end))).
Proof.
  intros fuel w this t md Ht Hmd Hnode g. split; [|split].
  - intros Hvalid. unfold Requirement.getNewVersion. rewrite Ht.
    rewrite (bind_Ok (deref_Ok Hmd)). unfold bind at 1, get at 1.
    fold g. rewrite Hvalid. unfold bind at 1, lift at 1. cbn [negb].
    unfold bind at 1, ret at 1.
    rewrite (bind_Ok (deref_Ok Hmd)). reflexivity.
  - intros v. unfold candidate_accepted.
    assert (Hnode' : DirectedGraph.hasNode (getSlug (set_version (Some v) md)) g = true)
      by exact Hnode.
    rewrite (isValid_Ok Hnode'). cbn [truthy].
    destruct (String.eqb_spec v ""); split.
    + rewrite andb_false_r. discriminate.
    + intros [_ Hne]. contradiction.
    + rewrite andb_true_r. intros ->. split; [reflexivity|assumption].
    + rewrite andb_true_r. intros [E _]. injection E as E. exact E.
  - intros Hinvalid url c l Hu Hurl Hc Hl Hfuel.
    assert (Hrun : forall found w',
               Requirement.search fuel t w = (Ok found, w') ->
               Requirement.getNewVersion fuel this w
               = if found
                 then bind (deref t) (fun md' => ret (nullish (version md') "")) w'
                 else (Err (NoVersionFoundError this), w')).
    { intros found w' Hsearch. unfold Requirement.getNewVersion. rewrite Ht.
      rewrite (bind_Ok (deref_Ok Hmd)). unfold bind at 1, get at 1.
      fold g. rewrite Hinvalid. unfold bind at 1, lift at 1. cbn [negb].
      unfold bind at 1. unfold bind at 1. rewrite Hsearch.
      destruct found; reflexivity. }
    pose proof (search_releases (t := t) (g := g) Hurl Hfuel Hmd Hu eq_refl Hnode Hc Hl)
      as Hsearch.
    split.
    + intros skipped v rest -> Hskipped Hv.
      rewrite (first_accepted_found _ Hskipped Hv) in Hsearch.
      rewrite (Hrun _ _ Hsearch).
      assert (Hmd' : heap (searching w t md c (Some v) (v :: rest)) !! t
                     = Some (set_version (Some v) md)).
      { cbn. apply list_lookup_insert_eq. eapply lookup_lt_Some. exact Hmd. }
      rewrite (bind_Ok (deref_Ok Hmd')). reflexivity.
    + intros Hall. rewrite (first_accepted_exhausted Hall) in Hsearch.
      rewrite (Hrun _ _ Hsearch). reflexivity.
Qed.

(** The module [test-one] at 0.9.0 with an incoming edge ">=1.0.0" and the
    given release list in the cache. *)
Definition search_world (l : list string) : World :=
  {| heap := [sample_module "one" "0.9.0"];
     forgeCache :=
       Some {| cache_forgeApiUrl := Scenario.forgeUrl;
               _releases := {[ "test-one" := l ]};
               _forgeModuleData := ∅; cache_dependencies := ∅ |};
     dependencyGraph :=
       {| nodes := [("puppetfile", None); ("test-one", Some 0)];
          edges := [ mkEdge "puppetfile.test-one" "puppetfile" "test-one"
                       {| targetModule := Some 0; sourceModule := None;
                          source := Some Puppetfile;
                          dependencyRange := Some (mkRange ">=1.0.0") |} ] |};
     warnings := [] |}.

Lemma getNewVersion_searches_release_list_witness :
  let r := {| targetModule := Some 0; sourceModule := None; source := Some Puppetfile;
              dependencyRange := Some (mkRange ">=1.0.0") |} in
  fst (Requirement.getNewVersion (H := Scenario.testForge) 5 r
         (search_world ["0.9.5"; "1.0.0"; "0.8.0"])) = Ok "1.0.0"
  /\ fst (Requirement.getNewVersion (H := Scenario.testForge) 5 r
            (search_world ["0.9.5"; "0.8.0"])) = Err (NoVersionFoundError r).
Proof.
  intros r.
  pose proof (fun l => @getNewVersion_searches_release_list Scenario.testForge 5
                         (search_world l) r 0 (sample_module "one" "0.9.0")
                         eq_refl eq_refl eq_refl) as T.
  split.
  - destruct (T ["0.9.5"; "1.0.0"; "0.8.0"]) as (_ & _ & Hsearch).
    destruct (Hsearch eq_refl Scenario.forgeUrl _ ["0.9.5"; "1.0.0"; "0.8.0"]
                eq_refl ltac:(discriminate) eq_refl eq_refl ltac:(simpl; lia))
      as [Hfound _].
    rewrite (Hfound ["0.9.5"] "1.0.0" ["0.8.0"] eq_refl).
    + reflexivity.
    + repeat constructor.
    + reflexivity.
  - destruct (T ["0.9.5"; "0.8.0"]) as (_ & _ & Hsearch).
    destruct (Hsearch eq_refl Scenario.forgeUrl _ ["0.9.5"; "0.8.0"]
                eq_refl ltac:(discriminate) eq_refl eq_refl ltac:(simpl; lia))
      as [_ Hnone].
    rewrite Hnone; [reflexivity|]. repeat constructor.
Defined.

(** ** DependencyResolver.resolve: the ignore list *)

(** What [resolve] does with a dequeued requirement before the version
    search: the deprecation checks, the insertion into the graph and the
    read of the target module. *)
Definition before_search `{Environment} (this : DependencyResolver)
  (requirement : Requirement) (target : mref) : M ModuleDeclaration :=
  match sourceModule requirement with
  | Some s => DependencyResolver._checkDeprecationStatus this s
  | None => ret tt
  end ;;;
  DependencyResolver._checkDeprecationStatus this target ;;;
  DependencyResolver._addToGraph requirement ;;;
  deref target.

(** The resolver with another queue in its store. *)
Definition with_queue (queue : list Requirement) (this : DependencyResolver)
  : DependencyResolver :=
  {| _store := match _store this with
               | Some store => Some {| _requirements := queue;
                                       _puppetfile := _puppetfile store |}
               | None => None
               end;
     _sourcePuppetfile := _sourcePuppetfile this;
     _ignoreList := _ignoreList this; _hideList := _hideList this |}.

Lemma resolve_loop_search_fails `{Environment} :
  forall (fuel : nat) (this : DependencyResolver) (store : RequirementsStore)
         (requirement : Requirement) (rest : list Requirement) (target : mref)
         (md : ModuleDeclaration) (w w1 w2 : World) (e : Error),
    _requirements store = requirement :: rest ->
    RequirementBuilder.isValid requirement = Ok true ->
    targetModule requirement = Some target ->
    before_search this requirement target w = (Ok md, w1) ->
    Requirement.getNewVersion fuel requirement w1 = (Err e, w2) ->
    DependencyResolver.resolve_loop (S fuel) this store w
    = match e with
      | NoVersionFoundError r =>
          if some_equal (_ignoreList this) (getSlug md)
          then DependencyResolver.resolve_loop fuel this
                 {| _requirements := rest; _puppetfile := _puppetfile store |}
                 (add_warning (IgnoredNoVersionFound r) w2)
          else (Err e, w2)
      | _ => (Err e, w2)
      end.
Proof.
  intros fuel this store requirement rest target md w w1 w2 e
    Hqueue Hvalid Htarget Hbefore Hsearch.
  cbn [DependencyResolver.resolve_loop].
  unfold RequirementsStore.hasNextRequirement, RequirementsStore.getNextRequirement.
  rewrite Hqueue. cbn [length Nat.ltb Nat.leb].
  rewrite Hvalid. unfold bind at 1, lift at 1. rewrite Htarget.
  unfold before_search in Hbefore.
  apply bind_inv_Ok in Hbefore. destruct Hbefore as ([] & wa & Ha & Hbefore).
  apply bind_inv_Ok in Hbefore. destruct Hbefore as ([] & wb & Hb & Hbefore).
  apply bind_inv_Ok in Hbefore. destruct Hbefore as ([] & wc & Hc & Hbefore).
  rewrite (bind_Ok Ha), (bind_Ok Hb), (bind_Ok Hc), (bind_Ok Hbefore).
  unfold bind at 1, try_catch at 1. unfold bind at 1. rewrite Hsearch.
  destruct e; try reflexivity.
  destruct (some_equal (_ignoreList this) (getSlug md)); reflexivity.
Qed.

(** The loop reads the resolver through its ignore list only. *)
Lemma resolve_loop_ignoreList `{Environment} :
  forall (fuel : nat) (this this' : DependencyResolver) (store : RequirementsStore)
         (w : World),
    _ignoreList this = _ignoreList this' ->
    DependencyResolver.resolve_loop fuel this store w
    = DependencyResolver.resolve_loop fuel this' store w.
Proof.
  intros fuel this this' store w E. revert store w.
  induction fuel as [|fuel IH]; intros store w; [reflexivity|].
  cbn [DependencyResolver.resolve_loop].
  unfold DependencyResolver._checkDeprecationStatus. rewrite E.
  unfold bind, try_catch.
  repeat first
    [ apply IH
    | reflexivity
    | match goal with
      | |- (let (_, _) := ?X in _) = _ => destruct X as [[?|?] ?]
      | |- match ?X with _ => _ end = _ => destruct X
      | |- (if ?X then _ else _) = _ => destruct X
      | |- (match ?X with _ => _ end) _ = _ => destruct X
      | |- (if ?X then _ else _) _ = _ => destruct X
      end ].
Qed.

(** The dump reads the resolver through its hide list and source manifest. *)
Lemma dump_nodes_resolver :
  forall (this this' : DependencyResolver) (l : list (string * option mref))
         (p : PuppetFile) (w : World),
    _hideList this = _hideList this' ->
    _sourcePuppetfile this = _sourcePuppetfile this' ->
    DependencyResolver.dump_nodes this l p w = DependencyResolver.dump_nodes this' l p w.
Proof.
  intros this this' l p w Eh Es. revert p w.
  induction l as [|node rest IH]; intros p w; [reflexivity|].
  cbn [DependencyResolver.dump_nodes].
  assert (Enode : DependencyResolver.dump_node this node p w
                  = DependencyResolver.dump_node this' node p w).
  { unfold DependencyResolver.dump_node. rewrite Eh, Es. reflexivity. }
  unfold bind. rewrite Enode.
  destruct (DependencyResolver.dump_node this' node p w) as [[p'|e] w']; [apply IH|reflexivity].
Qed.

(** The forge for two conflicts: [test-a] needs [test-c] >=1.2.3, [test-b]
    needs [test-c] <1.2.3 and [test-d] <1.0.0; the forge has [test-c] at
    1.2.3 and [test-d] at 1.0.0 only. *)
Definition conflictForge : Environment :=
  Scenario.stub
    [ (Scenario.moduleUrl "test-a", Scenario.released ["1.0.0"]);
      (Scenario.moduleUrl "test-b", Scenario.released ["1.0.0"]);
      (Scenario.moduleUrl "test-c", Scenario.released ["1.2.3"]);
      (Scenario.moduleUrl "test-d", Scenario.released ["1.0.0"]) ]
    [ (Scenario.releaseUrl "test-a-1.0.0", [Scenario.needs "test/c" ">=1.2.3"]);
      (Scenario.releaseUrl "test-b-1.0.0",
       [Scenario.needs "test/c" "<1.2.3"; Scenario.needs "test/d" "<1.0.0"]);
      (Scenario.releaseUrl "test-c-1.2.3", []);
      (Scenario.releaseUrl "test-d-1.0.0", []) ].

Definition conflictManifest : string :=
  "forge 'http://localhost'" +:+ nl +:+ nl
  +:+ "mod 'test-a', '1.0.0'" +:+ nl
  +:+ "mod 'test-b', '1.0.0'" +:+ nl.

(** The claim C3 on one run: with [test-c] on the ignore list the
    [NoVersionFoundError] for [test-b => test-c] is logged as a warning, and
    [resolve] goes on, to fail on [test-b => test-d]. *)
Lemma resolve_fails_after_ignored_NoVersionFound :
  exists (ignored fatal : Requirement) (w : World),
    Scenario.run (H := conflictForge) 20 conflictManifest [] ["test-c"] Scenario.start
    = (Err (NoVersionFoundError fatal), w)
    /\ warnings w = [IgnoredNoVersionFound ignored]
    /\ Scenario.listing w [targetModule ignored; targetModule fatal]
       = [("test-c", Some "1.2.3"); ("test-d", Some "1.0.0")].
Proof.
  eexists _, _, _. split; [vm_compute; reflexivity|]. split; reflexivity.
Qed.

(** C3, as the code has it. Let [resolve] dequeue a valid requirement, and
    let the version search for it throw [NoVersionFoundError]. If the slug of
    the target is on the ignore list, a warning is logged and [resolve] goes
    on with the requirements queued behind it: its outcome is the outcome of
    [resolve] on the rest of the queue, and when the queue is empty the loop
    ends without an error. If the slug is not on the ignore list, [resolve]
    ends with the error. *)
Theorem resolve_NoVersionFound_and_ignore_list `{Environment} :
  forall (fuel : nat) (this : DependencyResolver) (store : RequirementsStore)
         (requirement : Requirement) (rest : list Requirement) (target : mref)
         (md : ModuleDeclaration) (w w1 w2 : World) (r : Requirement),
    _store this = Some store ->
    _requirements store = requirement :: rest ->
    RequirementBuilder.isValid requirement = Ok true ->
    targetModule requirement = Some target ->
    before_search this requirement target w = (Ok md, w1) ->
    Requirement.getNewVersion fuel requirement w1 = (Err (NoVersionFoundError r), w2) ->
    (some_equal (_ignoreList this) (getSlug md) = true ->
     DependencyResolver.resolve (S fuel) this w
     = DependencyResolver.resolve fuel (with_queue rest this)
         (add_warning (IgnoredNoVersionFound r) w2)
     /\ (rest = [] -> 0 < fuel ->
         DependencyResolver.resolve_loop (S fuel) this store w
         = (Ok tt, add_warning (IgnoredNoVersionFound r) w2)))
    /\ (some_equal (_ignoreList this) (getSlug md) = false ->
        DependencyResolver.resolve (S fuel) this w = (Err (NoVersionFoundError r), w2)).
Proof.
  intros fuel this store requirement rest target md w w1 w2 r
    Hstore Hqueue Hvalid Htarget Hbefore Hsearch.
  pose proof (resolve_loop_search_fails Hqueue Hvalid Htarget Hbefore Hsearch) as Hloop.
  cbv beta iota in Hloop.
  split.
  - intros Hignored. rewrite Hignored in Hloop.
    assert (Hgo : DependencyResolver.resolve (S fuel) this w
                  = DependencyResolver.resolve fuel (with_queue rest this)
                      (add_warning (IgnoredNoVersionFound r) w2)).
    { unfold DependencyResolver.resolve, with_queue. rewrite Hstore.
      cbn [_store _sourcePuppetfile].
      unfold bind, get. rewrite Hloop.
      rewrite (@resolve_loop_ignoreList _ fuel this
                 {| _store := Some {| _requirements := rest;
                                      _puppetfile := _puppetfile store |};
                    _sourcePuppetfile := _sourcePuppetfile this;
                    _ignoreList := _ignoreList this;
                    _hideList := _hideList this |} _ _ eq_refl).
      match goal with |- (let (_, _) := ?X in _) = _ => destruct X as [[[]|e] w'] end;
        [|reflexivity].
      apply dump_nodes_resolver; reflexivity. }
    split; [exact Hgo|].
    intros -> Hfuel. rewrite Hloop.
    destruct fuel as [|fuel]; [lia|]. reflexivity.
  - intros Hfatal. rewrite Hfatal in Hloop.
    unfold DependencyResolver.resolve. rewrite Hstore.
    unfold bind at 1. rewrite Hloop. reflexivity.
Qed.

(** [test-a] (in the graph, required by the manifest) and [test-c], which
    [test-a] requires below 1.0.0 although the forge has 1.2.3 only. *)
Definition ignore_world : World :=
  {| heap := [sample_module "a" "1.0.0"; sample_module "c" "1.2.3"];
     forgeCache := None;
     dependencyGraph :=
       {| nodes := [("puppetfile", None); ("test-a", Some 0)];
          edges := [ mkEdge "puppetfile.test-a" "puppetfile" "test-a"
                       {| targetModule := Some 0; sourceModule := None;
                          source := Some Puppetfile;
                          dependencyRange := Some (mkRange "=1.0.0") |} ] |};
     warnings := [] |}.

Definition ignore_requirement : Requirement :=
  {| targetModule := Some 1; sourceModule := Some 0; source := Some Dependency;
     dependencyRange := Some (mkRange "<1.0.0") |}.

Definition ignore_resolver (ignoreList : list string) : DependencyResolver :=
  {| _store := Some {| _requirements := [ignore_requirement]; _puppetfile := None |};
     _sourcePuppetfile := None; _ignoreList := ignoreList; _hideList := [] |}.

Lemma resolve_NoVersionFound_and_ignore_list_witness :
  exists w2,
    DependencyResolver.resolve_loop (H := conflictForge) 6 (ignore_resolver ["test-c"])
      {| _requirements := [ignore_requirement]; _puppetfile := None |} ignore_world
    = (Ok tt, add_warning (IgnoredNoVersionFound ignore_requirement) w2)
    /\ DependencyResolver.resolve (H := conflictForge) 6 (ignore_resolver []) ignore_world
       = (Err (NoVersionFoundError ignore_requirement), w2).
Proof.
  eexists. split.
  - eapply (@resolve_NoVersionFound_and_ignore_list conflictForge 5
              (ignore_resolver ["test-c"]) _ ignore_requirement [] 1
              (sample_module "c" "1.2.3") ignore_world);
      try reflexivity; try (simpl; lia).
  - eapply (@resolve_NoVersionFound_and_ignore_list conflictForge 5
              (ignore_resolver []) _ ignore_requirement [] 1
              (sample_module "c" "1.2.3") ignore_world);
      try reflexivity.
Defined.

(** ** DependencyResolver.resolve: a top-level module that is lost *)

(** The forge for a manifest that names [test-x] twice: [test-w] needs
    [test-z] below 2.0.0, and [test-x] and [test-z] have the releases 2.0.0
    and 1.0.0. *)
Definition duplicateForge : Environment :=
  Scenario.stub
    [ (Scenario.moduleUrl "test-w", Scenario.released ["1.0.0"]);
      (Scenario.moduleUrl "test-x", Scenario.released ["2.0.0"; "1.0.0"]);
      (Scenario.moduleUrl "test-y", Scenario.released ["1.0.0"]);
      (Scenario.moduleUrl "test-z", Scenario.released ["2.0.0"; "1.0.0"]) ]
    [ (Scenario.releaseUrl "test-w-1.0.0", [Scenario.needs "test/z" "<2.0.0"]);
      (Scenario.releaseUrl "test-x-1.0.0", []);
      (Scenario.releaseUrl "test-x-2.0.0", []);
      (Scenario.releaseUrl "test-y-1.0.0", []);
      (Scenario.releaseUrl "test-z-1.0.0", []);
      (Scenario.releaseUrl "test-z-2.0.0", []) ].

Definition duplicateManifest : string :=
  "forge 'http://localhost'" +:+ nl +:+ nl
  +:+ "mod 'test-w', '1.0.0'" +:+ nl
  +:+ "mod 'test-x', '1.0.0'" +:+ nl
  +:+ "mod 'test-x', '2.0.0'" +:+ nl
  +:+ "mod 'test-y', '1.0.0'" +:+ nl.

(** C5 (the code departs from the claim). The manifest lists [test-w],
    [test-x] (twice) and [test-y] at the top level, nothing is hidden and
    [resolve] succeeds, but the output has [test-w] alone at the top level
    and [test-z] as a dependent module: the second entry for [test-x]
    changes its version, which makes [deleteSourceRequirements] drop the
    pending manifest requirement for [test-y] and requeues the manifest edge
    of [test-x] as a requirement without a source module; the version change
    of [test-z] then drops that requeued requirement as well. *)
Theorem resolve_loses_top_level_modules :
  exists (manifest result : PuppetFile) (w0 w : World),
    PuppetFile.fromText (H := duplicateForge) duplicateManifest new_PuppetFile Scenario.start
    = (Ok manifest, w0)
    /\ Scenario.listing w0 (modules manifest)
       = [ ("test-w", Some "1.0.0"); ("test-x", Some "1.0.0");
           ("test-x", Some "2.0.0"); ("test-y", Some "1.0.0") ]
    /\ Scenario.run (H := duplicateForge) 20 duplicateManifest [] [] Scenario.start
       = (Ok result, w)
    /\ Scenario.listing w (modules result) = [ ("test-w", Some "1.0.0") ]
    /\ Scenario.listing w (dependentModules result) = [ ("test-z", Some "1.0.0") ].
Proof.
  eexists _, _, _, _.
  split; [vm_compute; reflexivity|]. split; [reflexivity|].
  split; [vm_compute; reflexivity|]. split; reflexivity.
Qed.

(** ** DependencyResolver.resolve: the ranges of the edges of the graph *)

(** *** What a step may change *)

(** From the heap [h] to the heap [h']: every object is still there with its
    author and name, and with its version unless the object (its reference
    and slug) is among the [changed]. *)
Definition heap_evolves (changed : mref -> string -> Prop)
  (h h' : list ModuleDeclaration) : Prop :=
  forall m md, h !! m = Some md ->
    exists md', h' !! m = Some md'
                /\ author md' = author md /\ name md' = name md
                /\ (~ changed m (getSlug md) -> version md' = version md).

(** A step that leaves the graph and the log alone. *)
Definition frame (changed : mref -> string -> Prop) (w w' : World) : Prop :=
  dependencyGraph w' = dependencyGraph w
  /\ warnings w' = warnings w
  /\ heap_evolves changed (heap w) (heap w').

(** A step that changes neither the graph, nor the log, nor a version. *)
Definition quiet : World -> World -> Prop := frame (fun _ _ => False).

(** Every run of [c], whatever its outcome, relates the states by [R]. *)
Definition preserves {A} (R : World -> World -> Prop) (c : M A) : Prop :=
  forall w r w', c w = (r, w') -> R w w'.

Lemma heap_evolves_refl changed h : heap_evolves changed h h.
Proof. intros m md Hm. exists md. auto. Qed.

Lemma getSlug_eq md md' :
  author md' = author md -> name md' = name md -> getSlug md' = getSlug md.
Proof. unfold getSlug. intros -> ->. reflexivity. Qed.

Lemma heap_evolves_trans changed h1 h2 h3 :
  heap_evolves changed h1 h2 -> heap_evolves changed h2 h3 -> heap_evolves changed h1 h3.
Proof.
  intros H12 H23 m md Hm.
  destruct (H12 m md Hm) as (md2 & Hm2 & Ha2 & Hn2 & Hv2).
  destruct (H23 m md2 Hm2) as (md3 & Hm3 & Ha3 & Hn3 & Hv3).
  exists md3. repeat split; try congruence.
  intros Hc. rewrite Hv3, Hv2; auto.
  rewrite (getSlug_eq Ha2 Hn2). exact Hc.
Qed.

Lemma heap_evolves_weaken (changed changed' : mref -> string -> Prop) h h' :
  (forall m s, changed m s -> changed' m s) ->
  heap_evolves changed h h' -> heap_evolves changed' h h'.
Proof.
  intros Hsub Hev m md Hm. destruct (Hev m md Hm) as (md' & ? & ? & ? & Hv).
  exists md'. repeat split; auto.
Qed.

Lemma frame_refl changed w : frame changed w w.
Proof. repeat split. apply heap_evolves_refl. Qed.

Lemma frame_trans changed w1 w2 w3 :
  frame changed w1 w2 -> frame changed w2 w3 -> frame changed w1 w3.
Proof.
  intros (Hg1 & Hw1 & Hh1) (Hg2 & Hw2 & Hh2). repeat split; try congruence.
  eapply heap_evolves_trans; eauto.
Qed.

Lemma frame_weaken (changed changed' : mref -> string -> Prop) w w' :
  (forall m s, changed m s -> changed' m s) -> frame changed w w' -> frame changed' w w'.
Proof.
  intros Hsub (Hg & Hw & Hh). repeat split; auto.
  eapply heap_evolves_weaken; eauto.
Qed.

Lemma quiet_frame changed w w' : quiet w w' -> frame changed w w'.
Proof. apply frame_weaken. intros m s []. Qed.

(** The combinators of the monad preserve a reflexive and transitive
    relation that their parts preserve. *)
Section Preserves.

Variable R : World -> World -> Prop.
Hypothesis R_refl : forall w, R w w.
Hypothesis R_trans : forall w1 w2 w3, R w1 w2 -> R w2 w3 -> R w1 w3.

Lemma preserves_ret {A} (a : A) : preserves R (ret a).
Proof. intros w r w' E. inversion E. apply R_refl. Qed.

Lemma preserves_throw {A} (e : Error) : preserves R (throw (A := A) e).
Proof. intros w r w' E. inversion E. apply R_refl. Qed.

Lemma preserves_get : preserves R get.
Proof. intros w r w' E. inversion E. apply R_refl. Qed.

Lemma preserves_lift {A} (x : Result A) : preserves R (lift x).
Proof. intros w r w' E. inversion E. apply R_refl. Qed.

Lemma preserves_deref m : preserves R (deref m).
Proof.
  intros w r w' E. unfold deref in E.
  destruct (heap w !! m); inversion E; apply R_refl.
Qed.

Lemma preserves_bind {A B} (c : M A) (k : A -> M B) :
  preserves R c -> (forall a, preserves R (k a)) -> preserves R (bind c k).
Proof.
  intros Hc Hk w r w' E. unfold bind in E.
  destruct (c w) as [[a|e] w1] eqn:Ec.
  - eapply R_trans; [eapply Hc; eauto | eapply Hk; eauto].
  - inversion E; subst. eapply Hc; eauto.
Qed.

Lemma preserves_try_catch {A} (c : M A) (h : Error -> M A) :
  preserves R c -> (forall e, preserves R (h e)) -> preserves R (try_catch c h).
Proof.
  intros Hc Hh w r w' E. unfold try_catch in E.
  destruct (c w) as [[a|e] w1] eqn:Ec.
  - inversion E; subst. eapply Hc; eauto.
  - eapply R_trans; [eapply Hc; eauto | eapply Hh; eauto].
Qed.

Lemma preserves_for_each {A} (l : list A) (f : A -> M unit) :
  (forall x, preserves R (f x)) -> preserves R (for_each l f).
Proof.
  intros Hf. induction l as [|x rest IH]; cbn [for_each].
  - apply preserves_ret.
  - apply preserves_bind; auto.
Qed.

Lemma preserves_filterM {A} (p : A -> M bool) (l : list A) :
  (forall x, preserves R (p x)) -> preserves R (filterM p l).
Proof.
  intros Hp. induction l as [|x rest IH]; cbn [filterM].
  - apply preserves_ret.
  - apply preserves_bind; [auto|]. intros keep.
    apply preserves_bind; [auto|]. intros rest'. apply preserves_ret.
Qed.

Lemma preserves_optional_slug o : preserves R (optional_slug o).
Proof.
  destruct o; cbn [optional_slug]; [|apply preserves_ret].
  apply preserves_bind; [apply preserves_deref|]. intros md. apply preserves_ret.
Qed.

Lemma preserves_new_Range `{Environment} text : preserves R (new_Range text).
Proof.
  unfold new_Range. destruct (semver_valid_range text);
    [apply preserves_ret | apply preserves_throw].
Qed.

End Preserves.

Lemma quiet_refl w : quiet w w.
Proof. apply frame_refl. Qed.

Lemma quiet_trans w1 w2 w3 : quiet w1 w2 -> quiet w2 w3 -> quiet w1 w3.
Proof. apply frame_trans. Qed.

Lemma preserves_modify (R : World -> World -> Prop) (f : World -> World) :
  (forall w, R w (f w)) -> preserves R (modify f).
Proof. intros Hf w r w' E. inversion E. apply Hf. Qed.

Lemma quiet_set_forgeCache c : preserves quiet (modify (set_forgeCache c)).
Proof. apply preserves_modify. intros w. repeat split. apply heap_evolves_refl. Qed.

Lemma quiet_alloc md : preserves quiet (alloc md).
Proof.
  intros w r w' E. inversion E. repeat split. cbn.
  intros m d Hm. exists d. repeat split. apply lookup_app_l_Some. exact Hm.
Qed.

(** An assignment through a reference that keeps the author and the name,
    and the version unless the slug is [changed]. *)
Lemma frame_update (changed : mref -> string -> Prop) (m : mref)
  (f : ModuleDeclaration -> ModuleDeclaration) :
  (forall md, author (f md) = author md /\ name (f md) = name md
              /\ (~ changed m (getSlug md) -> version (f md) = version md)) ->
  preserves (frame changed) (update m f).
Proof.
  intros Hf w r w' E. unfold update, bind, deref, modify in E.
  destruct (heap w !! m) as [md|] eqn:Hm; inversion E; subst; [|apply frame_refl].
  repeat split. cbn. intros m' d Hm'.
  destruct (decide (m' = m)) as [->|Hne].
  - exists (f md). rewrite list_lookup_insert_eq by (eapply lookup_lt_Some; eauto).
    rewrite Hm in Hm'. injection Hm' as <-. destruct (Hf md) as (? & ? & ?). auto.
  - exists d. rewrite list_lookup_insert_ne by congruence. auto.
Qed.

Create HintDb quiet.

#[local] Hint Resolve quiet_set_forgeCache quiet_alloc : quiet.

Ltac preserve_step refl trans known :=
  first
    [ apply (preserves_ret refl)
    | apply (preserves_throw refl)
    | apply (preserves_get refl)
    | apply (preserves_lift refl)
    | apply (preserves_deref refl)
    | apply (preserves_optional_slug refl trans)
    | apply (preserves_new_Range refl)
    | known
    | apply (preserves_bind trans); [|intros ?]
    | apply (preserves_try_catch trans); [|intros ?]
    | apply (preserves_for_each refl trans); intros ?
    | apply (preserves_filterM refl trans); intros ?
    | match goal with
      | |- preserves _ (match ?x with _ => _ end) => destruct x
      | |- preserves _ (if ?x then _ else _) => destruct x
      | |- preserves _ (let (_, _) := ?x in _) => destruct x
      end ].

Ltac quiet_tac :=
  repeat preserve_step quiet_refl quiet_trans ltac:(solve [eauto with quiet]).

(** A step that changes nothing. *)
Definition unchanged (w w' : World) : Prop := w' = w.

Lemma unchanged_refl w : unchanged w w.
Proof. reflexivity. Qed.

Lemma unchanged_trans w1 w2 w3 : unchanged w1 w2 -> unchanged w2 w3 -> unchanged w1 w3.
Proof. unfold unchanged. congruence. Qed.

Create HintDb unchanged.

Ltac unchanged_tac :=
  repeat preserve_step unchanged_refl unchanged_trans ltac:(solve [eauto with unchanged]).

Lemma unchanged_getEdgeId r : preserves unchanged (RequirementBuilder.getEdgeId r).
Proof. unfold RequirementBuilder.getEdgeId. unchanged_tac. Qed.
#[local] Hint Resolve unchanged_getEdgeId : unchanged.

Lemma unchanged_withTargetModule `{Environment} declaration r :
  preserves unchanged (RequirementBuilder.withTargetModule declaration r).
Proof. unfold RequirementBuilder.withTargetModule. unchanged_tac. Qed.
#[local] Hint Resolve unchanged_withTargetModule : unchanged.

Lemma unchanged_deleteSourceRequirements slug store :
  preserves unchanged (RequirementsStore.deleteSourceRequirements slug store).
Proof. unfold RequirementsStore.deleteSourceRequirements. unchanged_tac. Qed.
#[local] Hint Resolve unchanged_deleteSourceRequirements : unchanged.

Lemma unchanged_readd_requirements `{Environment} target inEdges :
  forall store,
    preserves unchanged (DependencyResolver.readd_requirements target inEdges store).
Proof.
  induction inEdges as [|edge rest IH]; intros store;
    cbn [DependencyResolver.readd_requirements]; unchanged_tac.
Qed.
#[local] Hint Resolve unchanged_readd_requirements : unchanged.

Lemma unchanged_find_module predicate l :
  preserves unchanged (PuppetFile.find_module predicate l).
Proof.
  induction l as [|[m|] rest IH]; cbn [PuppetFile.find_module]; unchanged_tac.
Qed.
#[local] Hint Resolve unchanged_find_module : unchanged.

Lemma unchanged_dump_node this node p :
  preserves unchanged (DependencyResolver.dump_node this node p).
Proof.
  unfold DependencyResolver.dump_node, PuppetFile.hasModule. unchanged_tac.
Qed.
#[local] Hint Resolve unchanged_dump_node : unchanged.

Lemma unchanged_dump_nodes this l :
  forall p, preserves unchanged (DependencyResolver.dump_nodes this l p).
Proof.
  induction l as [|node rest IH]; intros p; cbn [DependencyResolver.dump_nodes];
    unchanged_tac.
Qed.

Lemma quiet_factory url : preserves quiet (ForgeCache.factory url).
Proof. unfold ForgeCache.factory. quiet_tac. Qed.
#[local] Hint Resolve quiet_factory : quiet.

Lemma quiet_store c : preserves quiet (ForgeCache.store c).
Proof. unfold ForgeCache.store. quiet_tac. Qed.
#[local] Hint Resolve quiet_store : quiet.

Lemma quiet_getModuleData `{Environment} url a n :
  preserves quiet (ForgeCache.getModuleData url a n).
Proof. unfold ForgeCache.getModuleData. quiet_tac. Qed.
#[local] Hint Resolve quiet_getModuleData : quiet.

Lemma quiet_getReleases `{Environment} url a n :
  preserves quiet (ForgeCache.getReleases url a n).
Proof. unfold ForgeCache.getReleases. quiet_tac. Qed.
#[local] Hint Resolve quiet_getReleases : quiet.

Lemma quiet_cache_getDeprecationStatus `{Environment} url a n :
  preserves quiet (ForgeCache.getDeprecationStatus url a n).
Proof. unfold ForgeCache.getDeprecationStatus. quiet_tac. Qed.
#[local] Hint Resolve quiet_cache_getDeprecationStatus : quiet.

Lemma quiet_cache_getDependencies `{Environment} url a n v :
  preserves quiet (ForgeCache.getDependencies url a n v).
Proof. unfold ForgeCache.getDependencies. quiet_tac. Qed.
#[local] Hint Resolve quiet_cache_getDependencies : quiet.

Lemma quiet_updateAvailableReleases url a n l :
  preserves quiet (ForgeCache.updateAvailableReleases url a n l).
Proof. unfold ForgeCache.updateAvailableReleases. quiet_tac. Qed.
#[local] Hint Resolve quiet_updateAvailableReleases : quiet.

Lemma quiet_getAvailableVersions `{Environment} md :
  preserves quiet (ModuleDeclaration.getAvailableVersions md).
Proof. unfold ModuleDeclaration.getAvailableVersions. quiet_tac. Qed.
#[local] Hint Resolve quiet_getAvailableVersions : quiet.

Lemma quiet_hasAvailableVersion `{Environment} md :
  preserves quiet (ModuleDeclaration.hasAvailableVersion md).
Proof. unfold ModuleDeclaration.hasAvailableVersion. quiet_tac. Qed.
#[local] Hint Resolve quiet_hasAvailableVersion : quiet.

Lemma quiet_getNextAvailableVersion `{Environment} md :
  preserves quiet (ModuleDeclaration.getNextAvailableVersion md).
Proof. unfold ModuleDeclaration.getNextAvailableVersion. quiet_tac. Qed.
#[local] Hint Resolve quiet_getNextAvailableVersion : quiet.

Lemma quiet_addAvailableVersion `{Environment} v md :
  preserves quiet (ModuleDeclaration.addAvailableVersion v md).
Proof. unfold ModuleDeclaration.addAvailableVersion. quiet_tac. Qed.
#[local] Hint Resolve quiet_addAvailableVersion : quiet.

Lemma quiet_getDeprecationStatus `{Environment} md :
  preserves quiet (ModuleDeclaration.getDeprecationStatus md).
Proof. unfold ModuleDeclaration.getDeprecationStatus. quiet_tac. Qed.
#[local] Hint Resolve quiet_getDeprecationStatus : quiet.

Lemma quiet_fetchGitMetadata `{Environment} md :
  preserves quiet (ModuleDeclaration.fetchGitMetadata md).
Proof. unfold ModuleDeclaration.fetchGitMetadata. quiet_tac. Qed.
#[local] Hint Resolve quiet_fetchGitMetadata : quiet.

Lemma quiet_fromText `{Environment} text md :
  preserves quiet (ModuleDeclaration.fromText text md).
Proof. unfold ModuleDeclaration.fromText. quiet_tac. Qed.
#[local] Hint Resolve quiet_fromText : quiet.

Lemma quiet_getVersion `{Environment} md :
  preserves quiet (ModuleDeclaration._getVersion md).
Proof. unfold ModuleDeclaration._getVersion. quiet_tac. Qed.
#[local] Hint Resolve quiet_getVersion : quiet.

Lemma quiet_withTargetModule `{Environment} declaration r :
  preserves quiet (RequirementBuilder.withTargetModule declaration r).
Proof. unfold RequirementBuilder.withTargetModule. quiet_tac. Qed.
#[local] Hint Resolve quiet_withTargetModule : quiet.

Lemma quiet_getEdgeId r : preserves quiet (RequirementBuilder.getEdgeId r).
Proof. unfold RequirementBuilder.getEdgeId. quiet_tac. Qed.
#[local] Hint Resolve quiet_getEdgeId : quiet.

#[local] Hint Extern 1 (preserves quiet (update _ _)) =>
  solve [apply frame_update; intros ?; repeat split] : quiet.

Lemma quiet_buildDependencies `{Environment} this raw :
  preserves quiet (ModuleDeclaration._buildDependencies this raw).
Proof.
  induction raw as [|dependency rest IH]; cbn [ModuleDeclaration._buildDependencies];
    quiet_tac.
Qed.
#[local] Hint Resolve quiet_buildDependencies : quiet.

Lemma quiet_getDependencies `{Environment} this :
  preserves quiet (ModuleDeclaration.getDependencies this).
Proof.
  unfold ModuleDeclaration.getDependencies. quiet_tac.
Qed.
#[local] Hint Resolve quiet_getDependencies : quiet.

Lemma quiet_deleteSourceRequirements slug store :
  preserves quiet (RequirementsStore.deleteSourceRequirements slug store).
Proof. unfold RequirementsStore.deleteSourceRequirements. quiet_tac. Qed.
#[local] Hint Resolve quiet_deleteSourceRequirements : quiet.

Lemma quiet_add_dependency `{Environment} target index dependency store :
  preserves quiet (DependencyResolver.add_dependency target index dependency store).
Proof.
  unfold DependencyResolver.add_dependency. quiet_tac.
Qed.
#[local] Hint Resolve quiet_add_dependency : quiet.

Lemma quiet_add_dependencies `{Environment} target dependencies :
  forall index store,
    preserves quiet (DependencyResolver.add_dependencies target index dependencies store).
Proof.
  induction dependencies as [|dependency rest IH]; intros index store;
    cbn [DependencyResolver.add_dependencies]; quiet_tac.
Qed.
#[local] Hint Resolve quiet_add_dependencies : quiet.

Lemma quiet_readd_requirements `{Environment} target inEdges :
  forall store,
    preserves quiet (DependencyResolver.readd_requirements target inEdges store).
Proof.
  induction inEdges as [|edge rest IH]; intros store;
    cbn [DependencyResolver.readd_requirements]; quiet_tac.
Qed.
#[local] Hint Resolve quiet_readd_requirements : quiet.

(** *** The log *)

(** The requirements whose [NoVersionFoundError] was demoted to a warning. *)
Fixpoint demoted (log : list Warning) : list Requirement :=
  match log with
  | [] => []
  | IgnoredNoVersionFound r :: rest => r :: demoted rest
  | IgnoredDeprecation _ _ :: rest => demoted rest
  end.

Lemma demoted_app l1 l2 : demoted (l1 ++ l2) = demoted l1 ++ demoted l2.
Proof.
  induction l1 as [|[r|s st] rest IH]; cbn; [reflexivity| |exact IH].
  rewrite IH. reflexivity.
Qed.

(** A step that changes neither the graph nor a version and demotes no
    [NoVersionFoundError]. *)
Definition calm (w w' : World) : Prop :=
  dependencyGraph w' = dependencyGraph w
  /\ heap_evolves (fun _ _ => False) (heap w) (heap w')
  /\ demoted (warnings w') = demoted (warnings w).

Lemma calm_refl w : calm w w.
Proof. repeat split. apply heap_evolves_refl. Qed.

Lemma calm_trans w1 w2 w3 : calm w1 w2 -> calm w2 w3 -> calm w1 w3.
Proof.
  intros (Hg1 & Hh1 & Hw1) (Hg2 & Hh2 & Hw2). repeat split; try congruence.
  eapply heap_evolves_trans; eauto.
Qed.

Lemma quiet_calm w w' : quiet w w' -> calm w w'.
Proof. intros (Hg & Hw & Hh). repeat split; auto. rewrite Hw. reflexivity. Qed.

Lemma preserves_weaken {A} (R R' : World -> World -> Prop) (c : M A) :
  (forall w w', R w w' -> R' w w') -> preserves R c -> preserves R' c.
Proof. intros Hsub Hc w r w' E. apply Hsub. eapply Hc; eauto. Qed.

Lemma calm_checkDeprecationStatus `{Environment} this module :
  preserves calm (DependencyResolver._checkDeprecationStatus this module).
Proof.
  unfold DependencyResolver._checkDeprecationStatus.
  repeat first
    [ apply (preserves_ret calm_refl)
    | apply (preserves_throw calm_refl)
    | apply (preserves_deref calm_refl)
    | apply (preserves_weaken quiet_calm); solve [eauto with quiet]
    | apply (preserves_bind calm_trans); [|intros ?]
    | match goal with
      | |- preserves _ (match ?x with _ => _ end) => destruct x
      | |- preserves _ (if ?x then _ else _) => destruct x
      end ].
  apply preserves_modify. intros w. repeat split; [apply heap_evolves_refl|].
  cbn. rewrite demoted_app. cbn. apply app_nil_r.
Qed.

(** *** The graph *)

Lemma on_graph_inv f w w' :
  DependencyResolver.on_graph f w = (Ok tt, w') ->
  exists g', f (dependencyGraph w) = Ok g' /\ w' = set_graph g' w.
Proof.
  unfold DependencyResolver.on_graph, bind, get, lift, modify.
  destruct (f (dependencyGraph w)) as [g'|e]; intros E; inversion E. eauto.
Qed.

Lemma hasNode_app key g n :
  DirectedGraph.hasNode key {| nodes := nodes g ++ [n]; edges := edges g |}
  = DirectedGraph.hasNode key g || String.eqb (fst n) key.
Proof.
  unfold DirectedGraph.hasNode. cbn. rewrite existsb_app. cbn.
  rewrite orb_false_r. reflexivity.
Qed.

Lemma addNode_inv key module g g' :
  DirectedGraph.addNode key module g = Ok g' ->
  edges g' = edges g
  /\ DirectedGraph.hasNode key g' = true
  /\ (forall k, DirectedGraph.hasNode k g = true -> DirectedGraph.hasNode k g' = true).
Proof.
  unfold DirectedGraph.addNode. destruct (DirectedGraph.hasNode key g); [discriminate|].
  intros E. injection E as <-. split; [reflexivity|]. split.
  - rewrite hasNode_app. cbn. rewrite String.eqb_refl. apply orb_true_r.
  - intros k Hk. rewrite hasNode_app, Hk. reflexivity.
Qed.

(** [ensure_node key module]: the node is added unless it is there. *)
Lemma ensure_node_inv key module w w' :
  (if negb (DirectedGraph.hasNode key (dependencyGraph w))
   then DependencyResolver.on_graph (DirectedGraph.addNode key module)
   else ret tt) w = (Ok tt, w') ->
  heap w' = heap w /\ warnings w' = warnings w
  /\ edges (dependencyGraph w') = edges (dependencyGraph w)
  /\ DirectedGraph.hasNode key (dependencyGraph w') = true
  /\ (forall k, DirectedGraph.hasNode k (dependencyGraph w) = true ->
                DirectedGraph.hasNode k (dependencyGraph w') = true).
Proof.
  destruct (DirectedGraph.hasNode key (dependencyGraph w)) eqn:Hk; cbn [negb]; intros E.
  - inversion E; subst. auto.
  - apply on_graph_inv in E. destruct E as (g' & Hadd & ->).
    apply addNode_inv in Hadd. destruct Hadd as (He & Hn & Hmono). cbn. auto.
Qed.

Lemma addDirectedEdgeWithKey_inv key s t attributes g g' :
  DirectedGraph.addDirectedEdgeWithKey key s t attributes g = Ok g' ->
  nodes g' = nodes g /\ edges g' = edges g ++ [mkEdge key s t attributes].
Proof.
  unfold DirectedGraph.addDirectedEdgeWithKey.
  repeat match goal with |- context [if ?b then _ else _] => destruct b end;
    try discriminate.
  intros E. injection E as <-. auto.
Qed.

(** The edge that [_addToGraph] adds, when it adds one: its attributes are
    the requirement and its target is the slug of the target module. *)
Lemma addToGraph_inv (requirement : Requirement) (t : mref) (md : ModuleDeclaration)
  (w w' : World) :
  targetModule requirement = Some t ->
  heap w !! t = Some md ->
  DependencyResolver._addToGraph requirement w = (Ok tt, w') ->
  heap w' = heap w /\ warnings w' = warnings w
  /\ DirectedGraph.hasNode (getSlug md) (dependencyGraph w') = true
  /\ (forall e, e ∈ edges (dependencyGraph w') ->
                e ∈ edges (dependencyGraph w)
                \/ (edge_attributes e = requirement /\ edge_target e = getSlug md)).
Proof.
  intros Ht Hmd E. unfold DependencyResolver._addToGraph in E.
  apply bind_inv_Ok in E. destruct E as (s & w1 & Hs & E).
  assert (w1 = w) as ->
      by exact (preserves_optional_slug unchanged_refl unchanged_trans Hs).
  unfold bind at 1, get at 1 in E.
  apply bind_inv_Ok in E. destruct E as ([] & w2 & Hsource & E).
  assert (Hw2 : heap w2 = heap w /\ warnings w2 = warnings w
                /\ edges (dependencyGraph w2) = edges (dependencyGraph w)).
  { destruct (source requirement) as [[|]|].
    - apply ensure_node_inv in Hsource. tauto.
    - apply ensure_node_inv in Hsource. tauto.
    - inversion Hsource; subst. auto. }
  destruct Hw2 as (Hh2 & Hl2 & He2).
  rewrite Ht in E. cbn [optional_slug] in E.
  assert (Hmd2 : heap w2 !! t = Some md) by (rewrite Hh2; exact Hmd).
  rewrite (bind_Ok (bind_Ok (k := fun md => ret (Some (getSlug md))) (deref_Ok Hmd2))) in E.
  unfold ret at 1 in E. unfold bind at 1, get at 1 in E. cbn [template] in E.
  apply bind_inv_Ok in E. destruct E as ([] & w3 & Htarget & E).
  apply ensure_node_inv in Htarget.
  destruct Htarget as (Hh3 & Hl3 & He3 & Hn3 & _).
  unfold bind at 1, get at 1 in E.
  destruct (DirectedGraph.hasEdge _ (dependencyGraph w3)); cbn [negb] in E.
  - inversion E; subst. repeat split; try congruence.
    intros e He. left. rewrite <- He2, <- He3. exact He.
  - apply bind_inv_Ok in E. destruct E as (edgeId & w4 & Hid & E).
    assert (w4 = w3) as -> by exact (unchanged_getEdgeId Hid).
    apply on_graph_inv in E. destruct E as (g' & Hadd & ->).
    apply addDirectedEdgeWithKey_inv in Hadd. destruct Hadd as (Hnodes & Hedges).
    cbn. repeat split; try congruence.
    + unfold DirectedGraph.hasNode in *. rewrite Hnodes. exact Hn3.
    + intros e He. rewrite Hedges in He. apply elem_of_app in He.
      destruct He as [He|He].
      * left. rewrite <- He2, <- He3. exact He.
      * right. apply list_elem_of_singleton in He. subst e. cbn.
        split; [|reflexivity].
        unfold RequirementBuilder.getEdgeAttributes. destruct requirement; reflexivity.
Qed.

(** *** The version search *)

Lemma isValid_ext `{Environment} (md md' : ModuleDeclaration) (g : Graph) :
  author md' = author md -> name md' = name md -> version md' = version md ->
  DependencyGraph.isValid md' g = DependencyGraph.isValid md g.
Proof.
  intros Ha Hn Hv. unfold DependencyGraph.isValid.
  rewrite (getSlug_eq Ha Hn), Hv. reflexivity.
Qed.

Lemma frame_set_version (t : mref) (v : option string) :
  preserves (frame (fun m _ => m = t)) (update t (set_version v)).
Proof.
  apply frame_update. intros md. repeat split. intros Hn. exfalso. apply Hn. reflexivity.
Qed.

Ltac frame_tac t :=
  repeat preserve_step (@frame_refl (fun m _ => m = t)) (@frame_trans (fun m _ => m = t))
    ltac:(first [ apply frame_set_version
                | apply (preserves_weaken (@quiet_frame (fun m _ => m = t)));
                  solve [eauto with quiet] ]).

Lemma search_frame `{Environment} (t : mref) (fuel : nat) :
  preserves (frame (fun m _ => m = t)) (Requirement.search fuel t).
Proof.
  induction fuel as [|fuel IH]; cbn [Requirement.search]; frame_tac t. exact IH.
Qed.

Lemma getNewVersion_frame `{Environment} (fuel : nat) (r : Requirement) (t : mref) :
  targetModule r = Some t ->
  preserves (frame (fun m _ => m = t)) (Requirement.getNewVersion fuel r).
Proof.
  intros Ht. unfold Requirement.getNewVersion. rewrite Ht. frame_tac t.
  apply search_frame.
Qed.

(** A search that finds a solution leaves the target at a version that the
    graph validates. *)
Lemma search_finds `{Environment} (t : mref) (fuel : nat) :
  forall w w',
    Requirement.search fuel t w = (Ok true, w') ->
    exists md', heap w' !! t = Some md'
                /\ DependencyGraph.isValid md' (dependencyGraph w') = Ok true.
Proof.
  induction fuel as [|fuel IH]; intros w w' E; cbn [Requirement.search] in E;
    [discriminate|].
  apply bind_inv_Ok in E. destruct E as (md & w0 & Hmd & E).
  apply bind_inv_Ok in E. destruct E as (more & w1 & Hmore & E).
  destruct more; [|inversion E].
  apply bind_inv_Ok in E. destruct E as (v & w2 & Hnext & E).
  apply bind_inv_Ok in E. destruct E as ([] & w3 & Hupdate & E).
  apply bind_inv_Ok in E. destruct E as (md3 & w4 & Hmd3 & E).
  apply deref_inv in Hmd3. destruct Hmd3 as [-> Hmd3].
  unfold bind at 1, get at 1 in E.
  apply bind_inv_Ok in E. destruct E as (valid & w5 & Hvalid & E).
  unfold lift in Hvalid. injection Hvalid as Hvalid <-.
  destruct (valid && truthy (version md3)) eqn:Hacc.
  - apply andb_prop in Hacc. destruct Hacc as [-> _].
    apply bind_inv_Ok in E. destruct E as ([] & w6 & Hadd & E).
    inversion E; subst.
    destruct (quiet_addAvailableVersion Hadd) as (Hg & _ & Hh).
    destruct (Hh t md3 Hmd3) as (md' & Hmd' & Ha & Hn & Hv).
    exists md'. split; [exact Hmd'|].
    rewrite Hg, (isValid_ext _ Ha Hn (Hv ltac:(tauto))). exact Hvalid.
  - eapply IH. exact E.
Qed.

Lemma getNewVersion_valid `{Environment} (fuel : nat) (r : Requirement) (t : mref) :
  forall w w' v,
    targetModule r = Some t ->
    Requirement.getNewVersion fuel r w = (Ok v, w') ->
    exists md', heap w' !! t = Some md'
                /\ DependencyGraph.isValid md' (dependencyGraph w') = Ok true.
Proof.
  intros w w' v Ht E. unfold Requirement.getNewVersion in E. rewrite Ht in E.
  apply bind_inv_Ok in E. destruct E as (md & w0 & Hmd & E).
  apply deref_inv in Hmd. destruct Hmd as [-> Hmd].
  unfold bind at 1, get at 1 in E.
  apply bind_inv_Ok in E. destruct E as (valid & w1 & Hvalid & E).
  unfold lift in Hvalid. injection Hvalid as Hvalid <-.
  apply bind_inv_Ok in E. destruct E as ([] & w2 & Hsearch & E).
  apply bind_inv_Ok in E. destruct E as (md' & w3 & Hmd' & E).
  apply deref_inv in Hmd'. destruct Hmd' as [-> Hmd'].
  inversion E; subst.
  destruct valid; cbn [negb] in Hsearch.
  - inversion Hsearch; subst. exists md. split; [exact Hmd|exact Hvalid].
  - apply bind_inv_Ok in Hsearch. destruct Hsearch as (found & w4 & Hfound & Hsearch).
    destruct found; [|inversion Hsearch].
    inversion Hsearch; subst.
    destruct (search_finds Hfound) as (md1 & Hmd1 & Hvalid1).
    exists md1. auto.
Qed.

(** *** The edges *)

(** The version [v] satisfies the range of the attributes of an edge, or
    there is no version to test. *)
Definition range_satisfied `{Environment} (v : option string) (attributes : Requirement)
  : Prop :=
  truthy v = false
  \/ exists s range, v = Some s /\ dependencyRange attributes = Some range
                     /\ semver_satisfies s (raw range) = true.

(** The edge leads to the node of its target module, whose version satisfies
    the range of the edge. *)
Definition edge_validated `{Environment} (w : World) (e : Edge) : Prop :=
  exists t md, targetModule (edge_attributes e) = Some t
               /\ heap w !! t = Some md
               /\ edge_target e = getSlug md
               /\ range_satisfied (version md) (edge_attributes e).

Definition edges_validated `{Environment} (w : World) : Prop :=
  forall e, e ∈ edges (dependencyGraph w) -> edge_validated w e.

Lemma edge_accepts_satisfied `{Environment} v attributes :
  DependencyGraph.edge_accepts v attributes = true <-> range_satisfied v attributes.
Proof.
  unfold DependencyGraph.edge_accepts, range_satisfied.
  destruct (truthy v) eqn:Hv; cbn [negb].
  - apply truthy_inv in Hv. destruct Hv as (s & -> & Hs). cbn [template]. split.
    + destruct (dependencyRange attributes) as [range|]; [|discriminate].
      intros Hsat. right. eauto.
    + intros [Hf | (s' & range & Es & -> & Hsat)]; [discriminate|].
      injection Es as <-. exact Hsat.
  - split; auto.
Qed.

(** A step that keeps the log, changes versions of [changed] objects only,
    and adds no edge. *)
Definition subsides (changed : mref -> string -> Prop) (w w' : World) : Prop :=
  warnings w' = warnings w
  /\ heap_evolves changed (heap w) (heap w')
  /\ (forall e, e ∈ edges (dependencyGraph w') -> e ∈ edges (dependencyGraph w)).

Lemma subsides_refl changed w : subsides changed w w.
Proof. repeat split; auto. apply heap_evolves_refl. Qed.

Lemma subsides_trans changed w1 w2 w3 :
  subsides changed w1 w2 -> subsides changed w2 w3 -> subsides changed w1 w3.
Proof.
  intros (Hl1 & Hh1 & He1) (Hl2 & Hh2 & He2). repeat split; try congruence; auto.
  eapply heap_evolves_trans; eauto.
Qed.

Lemma frame_subsides changed w w' : frame changed w w' -> subsides changed w w'.
Proof. intros (Hg & Hl & Hh). repeat split; auto. rewrite Hg. auto. Qed.

Lemma unchanged_subsides changed w w' : unchanged w w' -> subsides changed w w'.
Proof. intros ->. apply subsides_refl. Qed.

Lemma subsides_weaken (changed changed' : mref -> string -> Prop) w w' :
  (forall m s, changed m s -> changed' m s) ->
  subsides changed w w' -> subsides changed' w w'.
Proof.
  intros Hsub (Hl & Hh & He). repeat split; auto.
  eapply heap_evolves_weaken; eauto.
Qed.

(** Validated edges stay validated when the versions of their targets are
    not among the changed ones. *)
Lemma validated_subsides `{Environment} changed w w' :
  edges_validated w ->
  subsides changed w w' ->
  (forall e t md, e ∈ edges (dependencyGraph w') ->
                  targetModule (edge_attributes e) = Some t ->
                  heap w !! t = Some md -> ~ changed t (getSlug md)) ->
  edges_validated w'.
Proof.
  intros Hval (Hl & Hh & He) Hkeep e Hin.
  destruct (Hval e (He e Hin)) as (t & md & Ht & Hmd & Hslug & Hsat).
  destruct (Hh t md Hmd) as (md' & Hmd' & Ha & Hn & Hv).
  exists t, md'. repeat split; auto.
  - rewrite (getSlug_eq Ha Hn). exact Hslug.
  - rewrite Hv; [exact Hsat|]. eapply Hkeep; eauto.
Qed.

Lemma dropNode_inv key g g' :
  DirectedGraph.dropNode key g = Ok g' ->
  forall e, e ∈ edges g' -> e ∈ edges g /\ edge_target e <> key.
Proof.
  unfold DirectedGraph.dropNode. destruct (DirectedGraph.hasNode key g); [|discriminate].
  cbn [negb]. intros E e He. injection E as <-. cbn in He.
  apply list_elem_of_In, filter_In in He. destruct He as [He Hf].
  split; [apply list_elem_of_In; exact He|].
  apply andb_prop in Hf. destruct Hf as [_ Hf].
  intros Heq. rewrite Heq, String.eqb_refl in Hf. discriminate.
Qed.

Lemma subsides_dropNode changed key :
  preserves (subsides changed) (DependencyResolver.on_graph (DirectedGraph.dropNode key)).
Proof.
  intros w r w' E. unfold DependencyResolver.on_graph, bind, get, lift, modify in E.
  destruct (DirectedGraph.dropNode key (dependencyGraph w)) as [g'|e] eqn:Hdrop;
    inversion E; subst; [|apply subsides_refl].
  repeat split; [apply heap_evolves_refl|]. cbn. intros e He.
  destruct (dropNode_inv Hdrop He) as [Hin _]. exact Hin.
Qed.

Lemma subsides_drop_sole_dependency changed e :
  preserves (subsides changed) (DependencyResolver.drop_sole_dependency e).
Proof.
  unfold DependencyResolver.drop_sole_dependency.
  repeat preserve_step (@subsides_refl changed) (@subsides_trans changed)
    ltac:(apply subsides_dropNode).
Qed.

(** The requirements that [filterM] keeps satisfy the predicate, when the
    predicate changes nothing. *)
Lemma filterM_kept {A} (p : A -> M bool) :
  (forall x, preserves unchanged (p x)) ->
  forall l w l' w',
    filterM p l w = (Ok l', w') ->
    w' = w /\ forall x, x ∈ l' -> p x w = (Ok true, w).
Proof.
  intros Hp. induction l as [|x rest IH]; intros w l' w' E; cbn [filterM] in E.
  - inversion E; subst. split; [reflexivity|]. intros x Hx. inversion Hx.
  - apply bind_inv_Ok in E. destruct E as (keep & w1 & Hkeep & E).
    pose proof (Hp x _ _ _ Hkeep) as Hw1. unfold unchanged in Hw1. subst w1.
    apply bind_inv_Ok in E. destruct E as (rest' & w2 & Hrest & E).
    destruct (IH _ _ _ Hrest) as [-> Hall].
    inversion E; subst. split; [reflexivity|].
    intros y Hy. destruct keep.
    + apply elem_of_cons in Hy. destruct Hy as [->|Hy]; [exact Hkeep|auto].
    + auto.
Qed.

(** Assigning a version to objects of one slug. *)
Lemma for_each_set_version_frame (slug : string) (v : option string) :
  forall (l : list Requirement) (w : World) r w',
    (forall x t, x ∈ l -> targetModule x = Some t ->
                 exists md, heap w !! t = Some md /\ getSlug md = slug) ->
    for_each l (fun requirement =>
                  match targetModule requirement with
                  | Some t => update t (set_version v)
                  | None => ret tt
                  end) w = (r, w') ->
    frame (fun _ s => s = slug) w w'.
Proof.
  induction l as [|x rest IH]; intros w r w' Hall E; cbn [for_each] in E.
  - inversion E. apply frame_refl.
  - unfold bind in E.
    destruct (match targetModule x with
              | Some t => update t (set_version v)
              | None => ret tt
              end w) as [[[]|e] w1] eqn:Hx.
    + assert (Hstep : frame (fun _ s => s = slug) w w1).
      { destruct (targetModule x) as [t|] eqn:Ht.
        - destruct (Hall x t) as (md & Hmd & Hslug); [left|exact Ht|].
          unfold update in Hx. rewrite (bind_Ok (deref_Ok Hmd)) in Hx.
          inversion Hx; subst. repeat split. cbn. intros m d Hm.
          destruct (decide (m = t)) as [->|Hne].
          + exists (set_version v md).
            rewrite list_lookup_insert_eq by (eapply lookup_lt_Some; eauto).
            rewrite Hmd in Hm. injection Hm as <-. repeat split.
            intros Hn. exfalso. apply Hn. reflexivity.
          + exists d. rewrite list_lookup_insert_ne by congruence. auto.
        - inversion Hx. apply frame_refl. }
      eapply frame_trans; [exact Hstep|]. eapply IH; [|exact E].
      intros y t Hy Ht. destruct (Hall y t) as (md & Hmd & Hslug); [right; exact Hy|exact Ht|].
      destruct Hstep as (_ & _ & Hh). destruct (Hh t md Hmd) as (md' & Hmd' & Ha & Hn & _).
      exists md'. split; [exact Hmd'|]. rewrite (getSlug_eq Ha Hn). exact Hslug.
    + inversion E; subst.
      destruct (targetModule x) as [t|]; [|inversion Hx].
      unfold update, bind, deref in Hx.
      destruct (heap w !! t); inversion Hx; subst. apply frame_refl.
Qed.

Lemma updateTargetVersion_frame (slug v : string) (store : RequirementsStore) :
  forall w r w',
    RequirementsStore.updateTargetVersion slug v store w = (r, w') ->
    frame (fun _ s => s = slug) w w'.
Proof.
  intros w r w' E. unfold RequirementsStore.updateTargetVersion in E.
  match type of E with
  | bind (filterM ?p ?l) _ _ = _ =>
      assert (Hp : forall x, preserves unchanged (p x)) by (intros x; unchanged_tac);
      destruct (filterM p l w) as [[kept|e] w1] eqn:Hfilter
  end.
  - rewrite (bind_Ok Hfilter) in E.
    destruct (filterM_kept Hp Hfilter) as [-> Hkept].
    eapply for_each_set_version_frame; [|exact E].
    intros x t Hx Ht. specialize (Hkept x Hx). cbn beta in Hkept.
    rewrite Ht in Hkept. cbn [optional_slug] in Hkept.
    unfold bind, deref, ret in Hkept.
    destruct (heap w !! t) as [md|]; [|discriminate].
    exists md. split; [reflexivity|].
    injection Hkept as Hkept. apply bool_decide_eq_true in Hkept. congruence.
  - rewrite (bind_Err Hfilter) in E. inversion E; subst.
    assert (w' = w) as ->
        by exact (preserves_filterM unchanged_refl unchanged_trans Hp Hfilter).
    apply frame_refl.
Qed.

Lemma validated_evolves `{Environment} changed w w' :
  edges_validated w ->
  heap_evolves changed (heap w) (heap w') ->
  (forall e, e ∈ edges (dependencyGraph w') -> e ∈ edges (dependencyGraph w)) ->
  (forall e t md, e ∈ edges (dependencyGraph w') ->
                  targetModule (edge_attributes e) = Some t ->
                  heap w !! t = Some md -> ~ changed t (getSlug md)) ->
  edges_validated w'.
Proof.
  intros Hval Hh He Hkeep.
  apply (@validated_subsides _ changed w {| heap := heap w'; forgeCache := forgeCache w';
                                          dependencyGraph := dependencyGraph w';
                                          warnings := warnings w |}) in Hval.
  - intros e Hin. destruct (Hval e Hin) as (t & md & ? & ? & ? & ?). exists t, md. auto.
  - repeat split; auto.
  - exact Hkeep.
Qed.

Lemma isValid_accepts `{Environment} md g e :
  DependencyGraph.isValid md g = Ok true ->
  e ∈ edges g -> edge_target e = getSlug md ->
  DependencyGraph.edge_accepts (version md) (edge_attributes e) = true.
Proof.
  unfold DependencyGraph.isValid, DirectedGraph.everyInEdge, DirectedGraph.inEdges.
  destruct (DirectedGraph.hasNode (getSlug md) g); cbn [negb]; [|discriminate].
  intros E He Ht. injection E as E. rewrite forallb_forall in E. apply E.
  apply filter_In. split; [apply list_elem_of_In; exact He|].
  rewrite Ht. apply String.eqb_refl.
Qed.

(** [_checkVersion] keeps the edges validated, and logs nothing. *)
Lemma checkVersion_validated `{Environment} (t : mref) (oldVersion newVersion : string)
  (store store' : RequirementsStore) (w w' : World) :
  DependencyResolver._checkVersion t oldVersion newVersion store w = (Ok store', w') ->
  warnings w' = warnings w /\ (edges_validated w -> edges_validated w').
Proof.
  intros E. unfold DependencyResolver._checkVersion in E.
  destruct (String.eqb newVersion oldVersion).
  - assert (Hq : quiet w w').
    { revert E. generalize (Ok store').
      match goal with
      | |- forall r, ?c w = (r, w') -> _ => assert (P : preserves quiet c) by quiet_tac
      end.
      intros r E. exact (P _ _ _ E). }
    destruct Hq as (Hg & Hl & Hh). split; [exact Hl|]. intros Hval.
    eapply validated_evolves; eauto.
    rewrite Hg. auto.
  - apply bind_inv_Ok in E. destruct E as ([] & w1 & Hupdate & E).
    apply bind_inv_Ok in E. destruct E as (md1 & w1' & Hmd1 & E).
    apply deref_inv in Hmd1. destruct Hmd1 as [-> Hmd1].
    assert (Hmd : exists md, heap w !! t = Some md /\ getSlug md = getSlug md1
                             /\ w1 = set_heap (<[t := set_version (Some newVersion) md]>
                                                (heap w)) w).
    { unfold update, bind, deref, modify in Hupdate.
      destruct (heap w !! t) as [md|] eqn:Hmd; inversion Hupdate; subst.
      exists md. repeat split. cbn in Hmd1.
      rewrite list_lookup_insert_eq in Hmd1 by (eapply lookup_lt_Some; eauto).
      injection Hmd1 as <-. reflexivity. }
    destruct Hmd as (md & Hmd & Hslug & Hw1).
    set (slug := getSlug md1) in *.
    set (changed := fun (_ : mref) (s : string) => s = slug).
    assert (S1 : subsides changed w w1).
    { apply frame_subsides. rewrite Hw1. repeat split. cbn. intros m d Hm.
      destruct (decide (m = t)) as [->|Hne].
      - exists (set_version (Some newVersion) md).
        rewrite list_lookup_insert_eq by (eapply lookup_lt_Some; eauto).
        rewrite Hmd in Hm. injection Hm as <-. repeat split.
        intros Hn. exfalso. apply Hn. exact Hslug.
      - exists d. rewrite list_lookup_insert_ne by congruence. auto. }
    apply bind_inv_Ok in E. destruct E as ([] & w2 & Hversions & E).
    assert (S2 : subsides changed w1 w2)
      by (apply frame_subsides; eapply updateTargetVersion_frame; exact Hversions).
    unfold bind at 1, get at 1 in E.
    apply bind_inv_Ok in E. destruct E as (out & w2' & Hout & E).
    unfold lift in Hout. injection Hout as Hout <-.
    apply bind_inv_Ok in E. destruct E as ([] & w3 & Hdrops & E).
    assert (S3 : subsides changed w2 w3).
    { eapply (preserves_for_each (@subsides_refl changed) (@subsides_trans changed));
        [|exact Hdrops].
      intros e. apply subsides_drop_sole_dependency. }
    apply bind_inv_Ok in E. destruct E as (store1 & w4 & Hdelete & E).
    pose proof (unchanged_deleteSourceRequirements Hdelete) as Hw4.
    unfold unchanged in Hw4. subst w4.
    unfold bind at 1, get at 1 in E.
    apply bind_inv_Ok in E. destruct E as (ins & w3' & Hins & E).
    unfold lift in Hins. injection Hins as Hins <-.
    apply bind_inv_Ok in E. destruct E as (store2 & w5 & Hreadd & E).
    pose proof (unchanged_readd_requirements Hreadd) as Hw5.
    unfold unchanged in Hw5. subst w5.
    apply bind_inv_Ok in E. destruct E as ([] & w6 & Hdrop & E).
    inversion E; subst store' w6.
    assert (S4 : subsides changed w3 w') by (eapply subsides_dropNode; exact Hdrop).
    pose proof (subsides_trans S1 (subsides_trans S2 (subsides_trans S3 S4)))
      as (Hl & Hh & He).
    split; [exact Hl|]. intros Hval.
    eapply validated_evolves; eauto.
    intros e te mde Hin Hte Hmde Hchanged. unfold changed in Hchanged.
    apply on_graph_inv in Hdrop. destruct Hdrop as (g' & Hdrop & ->).
    destruct (dropNode_inv Hdrop Hin) as [Hin3 Hne].
    destruct S3 as (_ & _ & He3). destruct S2 as (_ & _ & He2). destruct S1 as (_ & _ & He1).
    destruct (Hval e (He1 e (He2 e (He3 e Hin3)))) as (te' & mde' & Hte' & Hmde' & Htarget & _).
    rewrite Hte in Hte'. injection Hte' as <-.
    rewrite Hmde in Hmde'. injection Hmde' as <-.
    apply Hne. rewrite Htarget. exact Hchanged.
Qed.

(** [_addToGraph] reads the slug of the target module, which is therefore an
    object of the heap. *)
Lemma addToGraph_target (requirement : Requirement) (t : mref) (w w' : World) :
  targetModule requirement = Some t ->
  DependencyResolver._addToGraph requirement w = (Ok tt, w') ->
  exists md, heap w !! t = Some md.
Proof.
  intros Ht E. unfold DependencyResolver._addToGraph in E.
  apply bind_inv_Ok in E. destruct E as (s & w1 & Hs & E).
  assert (w1 = w) as ->
      by exact (preserves_optional_slug unchanged_refl unchanged_trans Hs).
  unfold bind at 1, get at 1 in E.
  apply bind_inv_Ok in E. destruct E as ([] & w2 & Hsource & E).
  assert (Hh2 : heap w2 = heap w).
  { destruct (source requirement) as [[|]|].
    - apply ensure_node_inv in Hsource. tauto.
    - apply ensure_node_inv in Hsource. tauto.
    - inversion Hsource; subst. auto. }
  rewrite Ht in E. cbn [optional_slug] in E.
  apply bind_inv_Ok in E. destruct E as (slug & w3 & Hslug & _).
  apply bind_inv_Ok in Hslug. destruct Hslug as (md & w3' & Hmd & _).
  apply deref_inv in Hmd. destruct Hmd as [_ Hmd].
  exists md. rewrite <- Hh2. exact Hmd.
Qed.

(** The two ways in which the guarded search of [resolve] yields a value:
    a version was found, or a [NoVersionFoundError] was demoted to a warning. *)
Lemma attempt_inv `{Environment} (fuel : nat) (requirement : Requirement)
  (ignoreList : list string) (slug : string) (attempt : option string) (w w' : World) :
  try_catch (v <- Requirement.getNewVersion fuel requirement ;; ret (Some v))
    (fun e =>
       match e with
       | NoVersionFoundError r =>
           if some_equal ignoreList slug then
             modify (add_warning (IgnoredNoVersionFound r)) ;;; ret None
           else throw e
       | _ => throw e
       end) w = (Ok attempt, w') ->
  (exists v, attempt = Some v /\ Requirement.getNewVersion fuel requirement w = (Ok v, w'))
  \/ (exists r w1, attempt = None
                   /\ Requirement.getNewVersion fuel requirement w
                      = (Err (NoVersionFoundError r), w1)
                   /\ w' = add_warning (IgnoredNoVersionFound r) w1).
Proof.
  unfold try_catch, bind at 1.
  destruct (Requirement.getNewVersion fuel requirement w) as [[v|e] w1].
  - intros E. inversion E; subst. left. eauto.
  - destruct e; try discriminate.
    destruct (some_equal ignoreList slug); [|discriminate].
    intros E. inversion E; subst. right. eauto.
Qed.

Lemma demoted_add_warning r w :
  length (demoted (warnings (add_warning (IgnoredNoVersionFound r) w)))
  = S (length (demoted (warnings w))).
Proof. cbn. rewrite demoted_app, length_app. cbn. lia. Qed.

(** After a requirement was added to a graph whose edges were validated and
    a version of its target was found, the edges are validated again. *)
Lemma validated_after_search `{Environment} (fuel : nat) (requirement : Requirement)
  (t : mref) (v : string) (w w1 w2 : World) :
  targetModule requirement = Some t ->
  edges_validated w ->
  DependencyResolver._addToGraph requirement w = (Ok tt, w1) ->
  Requirement.getNewVersion fuel requirement w1 = (Ok v, w2) ->
  edges_validated w2 /\ warnings w2 = warnings w.
Proof.
  intros Ht Hval Hadd Hsearch.
  destruct (addToGraph_target Ht Hadd) as (md & Hmd).
  destruct (addToGraph_inv Ht Hmd Hadd) as (Hh1 & Hl1 & _ & He1).
  destruct (getNewVersion_frame Ht Hsearch) as (Hg2 & Hl2 & Hh2).
  destruct (getNewVersion_valid Ht Hsearch) as (md' & Hmd' & Hvalid).
  split; [|congruence].
  assert (Hmd1 : heap w1 !! t = Some md) by (rewrite Hh1; exact Hmd).
  destruct (Hh2 t md Hmd1) as (md'' & Hmd'' & Ha & Hn & _).
  rewrite Hmd' in Hmd''. injection Hmd'' as <-.
  pose proof (getSlug_eq Ha Hn) as Hslug.
  intros e He. rewrite Hg2 in He.
  assert (Haccepted : edge_target e = getSlug md' ->
                      range_satisfied (version md') (edge_attributes e)).
  { intros Htarget. apply edge_accepts_satisfied.
    apply (isValid_accepts Hvalid); [rewrite Hg2; exact He | exact Htarget]. }
  destruct (He1 e He) as [Hold | [Hattributes Htarget]].
  - destruct (Hval e Hold) as (te & mde & Hte & Hmde & Htarget & Hsat).
    destruct (decide (te = t)) as [->|Hne].
    + rewrite Hmd in Hmde. injection Hmde as <-.
      exists t, md'. rewrite Hslug. repeat split; auto.
      apply Haccepted. rewrite Hslug. exact Htarget.
    + rewrite <- Hh1 in Hmde.
      destruct (Hh2 te mde Hmde) as (mde' & Hmde' & Hae & Hne' & Hve).
      exists te, mde'. rewrite (getSlug_eq Hae Hne'), (Hve Hne). auto.
  - exists t, md'. rewrite Hattributes, Hslug. repeat split; auto.
    rewrite <- Hattributes. apply Haccepted. rewrite Hslug. exact Htarget.
Qed.

Lemma validated_calm `{Environment} w w' :
  calm w w' -> edges_validated w -> edges_validated w'.
Proof.
  intros (Hg & Hh & _) Hval. eapply validated_evolves; eauto.
  rewrite Hg. auto.
Qed.

(** The loop of [resolve]: the log of demoted errors only grows, and when it
    has not grown the edges that were validated before the loop are validated
    after it. *)
Lemma resolve_loop_validated `{Environment} (fuel : nat) (this : DependencyResolver) :
  forall store w w',
    DependencyResolver.resolve_loop fuel this store w = (Ok tt, w') ->
    length (demoted (warnings w)) <= length (demoted (warnings w'))
    /\ (demoted (warnings w') = demoted (warnings w) ->
        edges_validated w -> edges_validated w').
Proof.
  induction fuel as [|fuel IH]; intros store w w' E;
    cbn [DependencyResolver.resolve_loop] in E; [discriminate|].
  destruct (RequirementsStore.hasNextRequirement store);
    [|inversion E; subst; split; auto].
  destruct (RequirementsStore.getNextRequirement store) as [next store1].
  destruct next as [requirement|]; [|exact (IH _ _ _ E)].
  apply bind_inv_Ok in E. destruct E as (valid & w0 & Hvalid & E).
  unfold lift in Hvalid. inversion Hvalid; subst w0. clear Hvalid.
  destruct valid; [|exact (IH _ _ _ E)].
  destruct (targetModule requirement) as [t|] eqn:Ht; [|exact (IH _ _ _ E)].
  apply bind_inv_Ok in E. destruct E as ([] & w1 & Hsource & E).
  assert (C1 : calm w w1).
  { destruct (sourceModule requirement).
    - exact (calm_checkDeprecationStatus Hsource).
    - inversion Hsource; subst. apply calm_refl. }
  apply bind_inv_Ok in E. destruct E as ([] & w2 & Htarget & E).
  pose proof (calm_trans C1 (calm_checkDeprecationStatus Htarget)) as C2.
  apply bind_inv_Ok in E. destruct E as ([] & w3 & Hadd & E).
  apply bind_inv_Ok in E. destruct E as (md & w3' & Hmd & E).
  apply deref_inv in Hmd. destruct Hmd as [-> Hmd].
  apply bind_inv_Ok in E. destruct E as (attempt & w4 & Hattempt & E).
  destruct (addToGraph_target Ht Hadd) as (md2 & Hmd2).
  destruct (addToGraph_inv Ht Hmd2 Hadd) as (_ & Hl3 & _).
  destruct C2 as (Hg2 & Hh2 & Hd2).
  apply attempt_inv in Hattempt.
  destruct Hattempt as [(v & -> & Hsearch) | (r & w5 & -> & Hsearch & ->)].
  - apply bind_inv_Ok in E. destruct E as (store2 & w5 & Hcheck & E).
    destruct (IH _ _ _ E) as [Hle Hrest].
    destruct (checkVersion_validated Hcheck) as [Hl5 Hval5].
    destruct (getNewVersion_frame Ht Hsearch) as (_ & Hl4 & _).
    assert (Hd5 : demoted (warnings w5) = demoted (warnings w)) by congruence.
    rewrite Hd5 in *. split; [exact Hle|].
    intros Hd Hval. apply Hrest; [exact Hd|]. apply Hval5.
    assert (Hval2 : edges_validated w2)
      by (apply (@validated_calm _ w w2); [repeat split; auto | exact Hval]).
    exact (proj1 (validated_after_search Ht Hval2 Hadd Hsearch)).
  - destruct (IH _ _ _ E) as [Hle _].
    destruct (getNewVersion_frame Ht Hsearch) as (_ & Hl5 & _).
    rewrite demoted_add_warning, Hl5, Hl3, Hd2 in Hle.
    split; [lia|]. intros Hd. rewrite Hd in Hle. lia.
Qed.

(** ** DependencyResolver.resolve: the edges of the final graph *)



(** The resolver and the state of the basic test of
    [DependencyResolver.test.ts], once the manifest is parsed. *)
Definition basic_setup : Result DependencyResolver * World :=
  (puppetfile <- PuppetFile.fromText (H := Scenario.testForge) Scenario.basicManifest
                   new_PuppetFile ;;
   DependencyResolver.withPuppetFile (H := Scenario.testForge) puppetfile
     DependencyResolver.new) Scenario.start.

Definition basic_resolver : DependencyResolver :=
  match fst basic_setup with
  | Ok resolver => resolver
  | Err _ => DependencyResolver.new
  end.

Definition basic_world : World := snd basic_setup.

Definition basic_outcome : Result PuppetFile * World :=
  DependencyResolver.resolve (H := Scenario.testForge) 20 basic_resolver basic_world.


(** ** PuppetFile.fromText and PuppetFile.toText: the canonical form *)

(** *** Strings *)

(** Every character of [s] satisfies [p]. *)
Fixpoint all_chars (p : ascii -> bool) (s : string) : bool :=
  match s with
  | EmptyString => true
  | String c rest => p c && all_chars p rest
  end.

(** The characters that [escapeExpression] replaces. *)
Definition escaped (c : ascii) : bool :=
  is_char "&"%char c || is_char "<"%char c || is_char ">"%char c
  || is_char double_quote c || is_char "'"%char c || is_char "`"%char c
  || is_char "="%char c.

(** The characters of a value between quotes that the emitter writes as
    they are and that the parser reads back. *)
Definition plain_char (c : ascii) : bool :=
  negb (escaped c) && negb (is_line_terminator c) && negb (is_char "#"%char c).

(** The characters of an author: no ['-'], where the parser ends it. *)
Definition author_char (c : ascii) : bool := plain_char c && negb (is_char "-"%char c).

(** The characters of a [:git] or [:ref] value: the parser removes white
    space and splits at commas. *)
Definition word_char (c : ascii) : bool :=
  plain_char c && negb (is_space c) && negb (is_char ","%char c).

(** A non-empty string of characters of the class [p]. *)
Definition token (p : ascii -> bool) (s : string) : bool :=
  negb (String.eqb s "") && all_chars p s.

Definition not_terminator (c : ascii) : bool := negb (is_line_terminator c).
Definition not_hash (c : ascii) : bool := negb (is_char "#"%char c).
Definition not_quote (c : ascii) : bool := negb (is_char quote c).

Lemma append_assoc (a b c : string) : (a +:+ b) +:+ c = a +:+ (b +:+ c).
Proof.
  induction a as [|x a IH]; [reflexivity|].
  unfold String.append. fold String.append. f_equal. exact IH.
Qed.

Lemma append_nil_r (a : string) : a +:+ "" = a.
Proof.
  induction a as [|x a IH]; [reflexivity|].
  unfold String.append. fold String.append. f_equal. exact IH.
Qed.

Lemma append_nil_l (a : string) : "" +:+ a = a.
Proof. reflexivity. Qed.

Lemma append_cons (x : ascii) (a b : string) : String x a +:+ b = String x (a +:+ b).
Proof. reflexivity. Qed.

Lemma all_chars_app p a b : all_chars p (a +:+ b) = all_chars p a && all_chars p b.
Proof.
  induction a as [|x a IH]; [reflexivity|].
  rewrite append_cons. cbn [all_chars]. rewrite IH. apply andb_assoc.
Qed.

Lemma all_chars_weaken (p q : ascii -> bool) s :
  (forall c, p c = true -> q c = true) -> all_chars p s = true -> all_chars q s = true.
Proof.
  intros Hpq. induction s as [|x s IH]; [reflexivity|]. cbn [all_chars].
  intros E. apply andb_prop in E. destruct E as [Hx Hs].
  rewrite (Hpq _ Hx), (IH Hs). reflexivity.
Qed.

Lemma token_inv p s : token p s = true -> s <> "" /\ all_chars p s = true.
Proof.
  unfold token. intros E. apply andb_prop in E. destruct E as [Hne Hall].
  split; [|exact Hall]. intros ->. discriminate.
Qed.

Lemma plain_not_escaped c : plain_char c = true -> negb (escaped c) = true.
Proof. unfold plain_char. intros E. apply andb_prop in E. destruct E as [E _].
       apply andb_prop in E. tauto. Qed.

Lemma plain_not_terminator c : plain_char c = true -> not_terminator c = true.
Proof. unfold plain_char. intros E. apply andb_prop in E. destruct E as [E _].
       apply andb_prop in E. tauto. Qed.

Lemma plain_not_hash c : plain_char c = true -> not_hash c = true.
Proof. unfold plain_char. intros E. apply andb_prop in E. tauto. Qed.

Lemma plain_not_quote c : plain_char c = true -> not_quote c = true.
Proof.
  intros E. apply plain_not_escaped in E. unfold escaped in E. unfold not_quote, quote.
  destruct (is_char "'" c); [|reflexivity].
  rewrite !orb_true_r in E. cbn in E. rewrite ?orb_true_r in E. discriminate.
Qed.

Lemma author_plain c : author_char c = true -> plain_char c = true.
Proof. unfold author_char. intros E. apply andb_prop in E. tauto. Qed.

Lemma word_plain c : word_char c = true -> plain_char c = true.
Proof. unfold word_char. intros E. apply andb_prop in E. destruct E as [E _].
       apply andb_prop in E. tauto. Qed.

Lemma escapeExpression_plain s :
  all_chars (fun c => negb (escaped c)) s = true -> escapeExpression s = s.
Proof.
  induction s as [|x s IH]; [reflexivity|]. cbn [all_chars escapeExpression].
  intros E. apply andb_prop in E. destruct E as [Hx Hs]. rewrite (IH Hs).
  unfold escaped in Hx.
  repeat match goal with
         | |- context [if is_char ?a x then _ else _] =>
             destruct (is_char a x); [cbn in Hx; rewrite ?orb_true_r in Hx; discriminate|]
         end.
  reflexivity.
Qed.

Lemma split_lines_nonempty s : exists first others, split_lines s = first :: others.
Proof.
  induction s as [|c s (first & others & IH)]; [cbn; eauto|].
  destruct c as [[] [] [] [] [] [] [] []];
    try (cbn [split_lines]; rewrite IH; eauto);
    try (cbn [split_lines]; eauto).
  destruct s as [|c' s]; [cbn; eauto|].
  destruct c' as [[] [] [] [] [] [] [] []];
    try (cbn [split_lines] in *; rewrite IH; eauto);
    try (cbn [split_lines]; eauto).
Qed.

Lemma split_lines_cons c s :
  is_line_terminator c = false ->
  split_lines (String c s)
  = match split_lines s with
    | first :: others => String c first :: others
    | [] => [String c EmptyString]
    end.
Proof.
  destruct c as [[] [] [] [] [] [] [] []]; intros E;
    try (vm_compute in E; discriminate E); reflexivity.
Qed.

(** A line and what follows it. *)
Lemma split_lines_line a b :
  all_chars not_terminator a = true -> split_lines (a +:+ nl +:+ b) = a :: split_lines b.
Proof.
  induction a as [|c a IH]; intros E; [reflexivity|].
  cbn [all_chars] in E. apply andb_prop in E. destruct E as [Hc Ha].
  rewrite append_cons, split_lines_cons, (IH Ha); [reflexivity|].
  unfold not_terminator in Hc. destruct (is_line_terminator c); [discriminate|reflexivity].
Qed.

(** The last line. *)
Lemma split_lines_last a : all_chars not_terminator a = true -> split_lines a = [a].
Proof.
  induction a as [|c a IH]; intros E; [reflexivity|].
  cbn [all_chars] in E. apply andb_prop in E. destruct E as [Hc Ha].
  rewrite split_lines_cons, (IH Ha); [reflexivity|].
  unfold not_terminator in Hc. destruct (is_line_terminator c); [discriminate|reflexivity].
Qed.

Lemma strip_prefix_app p r : strip_prefix p (p +:+ r) = Some r.
Proof.
  induction p as [|c p IH]; [destruct r; reflexivity|].
  rewrite append_cons. cbn [strip_prefix]. rewrite Ascii.eqb_refl. exact IH.
Qed.

Lemma strip_prefix_chars q p s r :
  strip_prefix p s = Some r -> all_chars q s = true -> all_chars q p = true.
Proof.
  revert s. induction p as [|c p IH]; intros s E Hs; [reflexivity|].
  destruct s as [|d s]; [discriminate|]. cbn [strip_prefix] in E.
  destruct (Ascii.eqb_spec c d) as [->|]; [|discriminate].
  cbn [all_chars] in *. apply andb_prop in Hs. destruct Hs as [Hd Hs].
  rewrite Hd, (IH _ E Hs). reflexivity.
Qed.

Lemma includes_unfold p s :
  includes p s
  = match strip_prefix p s with
    | Some _ => true
    | None => match s with
              | EmptyString => false
              | String _ rest => includes p rest
              end
    end.
Proof. destruct s; reflexivity. Qed.

Lemma includes_prefix p r : includes p (p +:+ r) = true.
Proof. rewrite includes_unfold, strip_prefix_app. reflexivity. Qed.

(** A text cannot include a pattern one of whose characters it lacks. *)
Lemma includes_chars q p s :
  all_chars q p = false -> all_chars q s = true -> includes p s = false.
Proof.
  intros Hp. induction s as [|c s IH]; intros Hs; rewrite includes_unfold.
  - destruct (strip_prefix p "") eqn:E; [|reflexivity].
    rewrite (strip_prefix_chars E Hs) in Hp. discriminate.
  - destruct (strip_prefix p (String c s)) eqn:E.
    + rewrite (strip_prefix_chars E Hs) in Hp. discriminate.
    + cbn [all_chars] in Hs. apply andb_prop in Hs. apply IH. tauto.
Qed.

Lemma span_app p a c r :
  all_chars p a = true -> p c = false -> span p (a +:+ String c r) = (a, String c r).
Proof.
  intros Ha Hc. induction a as [|x a IH].
  - rewrite append_nil_l. cbn [span]. rewrite Hc. reflexivity.
  - cbn [all_chars] in Ha. apply andb_prop in Ha. destruct Ha as [Hx Ha].
    rewrite append_cons. cbn [span]. rewrite Hx, (IH Ha). reflexivity.
Qed.

Lemma span_all p a : all_chars p a = true -> span p a = (a, "").
Proof.
  induction a as [|x a IH]; intros Ha; [reflexivity|].
  cbn [all_chars] in Ha. apply andb_prop in Ha. destruct Ha as [Hx Ha].
  cbn [span]. rewrite Hx, (IH Ha). reflexivity.
Qed.

Lemma remove_all_app p a b : remove_all p (a +:+ b) = remove_all p a +:+ remove_all p b.
Proof.
  induction a as [|x a IH]; [reflexivity|].
  rewrite append_cons. cbn [remove_all]. destruct (p x); [exact IH|].
  rewrite append_cons, IH. reflexivity.
Qed.

Lemma remove_all_none p a : all_chars (fun c => negb (p c)) a = true -> remove_all p a = a.
Proof.
  induction a as [|x a IH]; intros Ha; [reflexivity|].
  cbn [all_chars] in Ha. apply andb_prop in Ha. destruct Ha as [Hx Ha].
  cbn [remove_all]. destruct (p x); [discriminate|]. rewrite (IH Ha). reflexivity.
Qed.

Lemma remove_all_every p a : all_chars p a = true -> remove_all p a = "".
Proof.
  induction a as [|x a IH]; intros Ha; [reflexivity|].
  cbn [all_chars] in Ha. apply andb_prop in Ha. destruct Ha as [Hx Ha].
  cbn [remove_all]. rewrite Hx. exact (IH Ha).
Qed.

Lemma split_on_none p a : all_chars (fun c => negb (p c)) a = true -> split_on p a = [a].
Proof.
  induction a as [|x a IH]; intros Ha; [reflexivity|].
  cbn [all_chars] in Ha. apply andb_prop in Ha. destruct Ha as [Hx Ha].
  cbn [split_on]. destruct (p x); [discriminate|]. rewrite (IH Ha). reflexivity.
Qed.

Lemma split_on_app p a c r :
  all_chars (fun c => negb (p c)) a = true -> p c = true ->
  split_on p (a +:+ String c r) = a :: split_on p r.
Proof.
  intros Ha Hc. induction a as [|x a IH].
  - rewrite append_nil_l. cbn [split_on]. rewrite Hc. reflexivity.
  - cbn [all_chars] in Ha. apply andb_prop in Ha. destruct Ha as [Hx Ha].
    rewrite append_cons. cbn [split_on]. destruct (p x); [discriminate|].
    rewrite (IH Ha). reflexivity.
Qed.

Lemma split_arrow_cons c s :
  is_char "="%char c = false ->
  split_arrow (String c s)
  = match split_arrow s with
    | first :: others => String c first :: others
    | [] => [String c EmptyString]
    end.
Proof.
  destruct c as [[] [] [] [] [] [] [] []]; intros E;
    try (vm_compute in E; discriminate E); reflexivity.
Qed.

Lemma split_arrow_none a :
  all_chars (fun c => negb (is_char "="%char c)) a = true -> split_arrow a = [a].
Proof.
  induction a as [|x a IH]; intros Ha; [reflexivity|].
  cbn [all_chars] in Ha. apply andb_prop in Ha. destruct Ha as [Hx Ha].
  rewrite split_arrow_cons, (IH Ha); [reflexivity|].
  destruct (is_char "=" x); [discriminate|reflexivity].
Qed.

(** *** The declaration of a module *)

(** The line of a forge module or of a dependent module. *)
Definition forge_line (a n v : string) : string :=
  "mod '" +:+ a +:+ "-" +:+ n +:+ "', '" +:+ v +:+ "'".

(** The parameters of a repository module, as the parser has joined the
    lines that hold them. *)
Definition git_parameters (g : string) (r : option string) : string :=
  ",    :git => '" +:+ g +:+ "'"
  +:+ match r with
      | Some r => ",    :ref => '" +:+ r +:+ "'"
      | None => ""
      end.

(** The lines of a repository module, joined. *)
Definition git_declaration (a n g : string) (r : option string) : string :=
  "mod '" +:+ a +:+ "-" +:+ n +:+ "'" +:+ git_parameters g r.

Lemma match_author_dash (a tail n : string) (v : option string) (after : string) :
  all_chars (fun c => negb (is_char "-"%char c)) a = true ->
  match_name_and_version tail = Some (n, v, after) ->
  forall so_far, so_far +:+ a <> "" ->
    match_author so_far (a +:+ String "-"%char tail)
    = Some (mkModuleMatch (so_far +:+ a) n v after).
Proof.
  intros Ha Htail. induction a as [|x a IH]; intros so_far Hne.
  - rewrite append_nil_l, append_nil_r in *. cbn [match_author].
    rewrite Htail. cbn [is_char]. rewrite Ascii.eqb_refl. cbn [orb andb].
    destruct (String.eqb_spec so_far ""); [contradiction|reflexivity].
  - cbn [all_chars] in Ha. apply andb_prop in Ha. destruct Ha as [Hx Ha].
    rewrite append_cons. cbn [match_author].
    destruct (is_char "-" x); [discriminate|].
    rewrite (IH Ha (so_far +:+ String x "")).
    + rewrite append_assoc. reflexivity.
    + rewrite append_assoc. destruct so_far; discriminate.
Qed.

Lemma match_module_unfold before s :
  match_module before true s
  = match match_module_here s with
    | Some m => Some (before, m)
    | None =>
        match s with
        | EmptyString => None
        | String c rest =>
            match_module (before +:+ String c EmptyString) (is_line_terminator c) rest
        end
    end.
Proof. destruct s; reflexivity. Qed.

Lemma author_no_dash a :
  all_chars author_char a = true ->
  all_chars (fun c => negb (is_char "-"%char c)) a = true.
Proof.
  apply all_chars_weaken. unfold author_char. intros c E. apply andb_prop in E. tauto.
Qed.

Lemma plain_no_quote s : all_chars plain_char s = true -> all_chars not_quote s = true.
Proof. apply all_chars_weaken. exact plain_not_quote. Qed.

Lemma span_is_space_quote s :
  snd (span is_space (String " "%char (String "'"%char s))) = String "'"%char s.
Proof. reflexivity. Qed.

Lemma match_version_group_quoted v :
  token plain_char v = true ->
  match_version_group (", '" +:+ v +:+ "'") = (Some v, "").
Proof.
  intros Hv. apply token_inv in Hv. destruct Hv as [Hvne Hv].
  unfold match_version_group.
  change (", '" +:+ v +:+ "'")
    with (String ","%char (String " "%char (String "'"%char (v +:+ String "'"%char "")))).
  cbv beta iota. rewrite span_is_space_quote. cbv beta iota.
  rewrite (span_app (p := fun c => negb (is_char quote c)));
    [|exact (plain_no_quote Hv)|reflexivity].
  destruct v as [|d v]; [contradiction|]. reflexivity.
Qed.

Lemma match_name_and_version_quote n tail :
  token plain_char n = true ->
  match_name_and_version (n +:+ String "'"%char tail)
  = (let '(v, s2) := match_version_group tail in Some (n, v, s2)).
Proof.
  intros Hn. apply token_inv in Hn. destruct Hn as [Hnne Hn].
  unfold match_name_and_version.
  rewrite (span_app (p := fun c => negb (is_char quote c)));
    [|exact (plain_no_quote Hn)|reflexivity].
  destruct n as [|c n]; [contradiction|]. reflexivity.
Qed.

Lemma match_module_here_dash a n tail v after :
  token author_char a = true -> token plain_char n = true ->
  match_version_group tail = (v, after) ->
  match_module "" true ("mod '" +:+ a +:+ "-" +:+ n +:+ "'" +:+ tail)
  = Some ("", mkModuleMatch a n v after).
Proof.
  intros Ha Hn Htail. apply token_inv in Ha. destruct Ha as [Hane Ha].
  rewrite match_module_unfold. unfold match_module_here.
  rewrite strip_prefix_app.
  change ("-" +:+ n +:+ "'" +:+ tail) with (String "-"%char (n +:+ String "'"%char tail)).
  rewrite (@match_author_dash a _ n v after); [reflexivity| | | ].
  - apply author_no_dash. exact Ha.
  - rewrite (match_name_and_version_quote _ Hn), Htail. reflexivity.
  - rewrite append_nil_l. exact Hane.
Qed.

(** The expression of a module at the start of a forge line *)
Lemma match_module_forge_line a n v :
  token author_char a = true -> token plain_char n = true -> token plain_char v = true ->
  match_module "" true (forge_line a n v) = Some ("", mkModuleMatch a n (Some v) "").
Proof.
  intros Ha Hn Hv. unfold forge_line.
  change ("', '" +:+ v +:+ "'") with ("'" +:+ ", '" +:+ v +:+ "'").
  apply match_module_here_dash; auto. apply match_version_group_quoted. exact Hv.
Qed.

(** The expression of a module at the start of the joined lines of a
    repository module *)
Lemma match_module_git_declaration a n g r :
  token author_char a = true -> token plain_char n = true ->
  match_module "" true (git_declaration a n g r)
  = Some ("", mkModuleMatch a n None (git_parameters g r)).
Proof.
  intros Ha Hn. unfold git_declaration.
  apply match_module_here_dash; auto.
Qed.

Lemma word_no_space s :
  all_chars word_char s = true -> all_chars (fun c => negb (is_space c)) s = true.
Proof.
  apply all_chars_weaken. unfold word_char. intros c E.
  apply andb_prop in E. destruct E as [E _]. apply andb_prop in E. tauto.
Qed.

Lemma word_no_comma s :
  all_chars word_char s = true ->
  all_chars (fun c => negb (is_char ","%char c)) s = true.
Proof.
  apply all_chars_weaken. unfold word_char. intros c E. apply andb_prop in E. tauto.
Qed.

Lemma word_no_quote s :
  all_chars word_char s = true ->
  all_chars (fun c => negb (is_char quote c)) s = true.
Proof.
  apply all_chars_weaken. intros c E. apply plain_not_quote, word_plain, E.
Qed.

Lemma word_no_equals s :
  all_chars word_char s = true ->
  all_chars (fun c => negb (is_char "="%char c)) s = true.
Proof.
  apply all_chars_weaken. intros c E. apply word_plain, plain_not_escaped in E.
  unfold escaped in E. destruct (is_char "=" c); [|reflexivity].
  rewrite !orb_true_r in E. discriminate.
Qed.

Lemma split_on_sep p c r : p c = true -> split_on p (String c r) = "" :: split_on p r.
Proof. intros E. cbn [split_on]. rewrite E. reflexivity. Qed.

(** One parameter of a repository module, between two commas *)
Lemma parse_parameter key value :
  all_chars word_char value = true ->
  all_chars (fun c => negb (is_char "="%char c)) key = true ->
  all_chars (fun c => negb (is_char quote c)) key = true ->
  split_arrow (remove_all (is_char quote) (key +:+ "=>'" +:+ value +:+ "'"))
  = [key; value].
Proof.
  intros Hvalue Hkey Hquote.
  rewrite !remove_all_app, (remove_all_none (word_no_quote Hvalue)),
    (remove_all_none Hquote).
  change (remove_all (is_char quote) "=>'") with "=>".
  change (remove_all (is_char quote) "'") with "".
  rewrite append_nil_r.
  induction key as [|c key IH].
  - rewrite append_nil_l.
    change ("=>" +:+ value) with (String "="%char (String ">"%char value)).
    cbn [split_arrow]. rewrite (split_arrow_none (word_no_equals Hvalue)). reflexivity.
  - cbn [all_chars] in Hkey, Hquote.
    apply andb_prop in Hkey. destruct Hkey as [Hc Hkey].
    apply andb_prop in Hquote. destruct Hquote as [_ Hquote].
    rewrite append_cons, split_arrow_cons, (IH Hkey Hquote); [reflexivity|].
    destruct (is_char "=" c); [discriminate|reflexivity].
Qed.

(** The parameters of a repository module *)
Lemma parse_parameters_git g r :
  all_chars word_char g = true ->
  match r with Some r => all_chars word_char r = true | None => True end ->
  parse_parameters (git_parameters g r)
  = ("", None) :: (":git", Some g)
    :: match r with Some r => [(":ref", Some r)] | None => [] end.
Proof.
  intros Hg Hr. unfold parse_parameters, git_parameters.
  rewrite !remove_all_app, (remove_all_none (p := is_space) (word_no_space Hg)).
  change (remove_all is_space ",    :git => '") with (String ","%char ":git=>'").
  change (remove_all is_space "'") with "'".
  rewrite append_cons, (split_on_sep (p := is_char ","%char)); [|reflexivity].
  cbn [List.map]. change (split_arrow (remove_all (is_char quote) "")) with [""].
  cbv beta iota. f_equal.
  destruct r as [r|].
  - rewrite !remove_all_app, (remove_all_none (p := is_space) (word_no_space Hr)).
    change (remove_all is_space ",    :ref => '") with (String ","%char ":ref=>'").
    change (remove_all is_space "'") with "'".
    replace (":git=>'" +:+ g +:+ "'" +:+ ",:ref=>'" +:+ r +:+ "'")
      with ((":git=>'" +:+ g +:+ "'") +:+ String ","%char (":ref=>'" +:+ r +:+ "'"))
      by (rewrite !append_assoc; reflexivity).
    rewrite (split_on_app (p := is_char ","%char)); [| |reflexivity].
    + rewrite (split_on_none (p := is_char ","%char)).
      * cbn [List.map].
        change (":git=>'" +:+ g +:+ "'") with (":git" +:+ "=>'" +:+ g +:+ "'").
        change (":ref=>'" +:+ r +:+ "'") with (":ref" +:+ "=>'" +:+ r +:+ "'").
        rewrite !parse_parameter; auto.
      * rewrite !all_chars_app, (word_no_comma Hr). reflexivity.
    + rewrite !all_chars_app, (word_no_comma Hg). reflexivity.
  - change (remove_all is_space "") with "". rewrite append_nil_r.
    rewrite (split_on_none (p := is_char ","%char)).
    + cbn [List.map].
      change (":git=>'" +:+ g +:+ "'") with (":git" +:+ "=>'" +:+ g +:+ "'").
      rewrite !parse_parameter; auto.
    + rewrite !all_chars_app, (word_no_comma Hg). reflexivity.
Qed.

(** *** Modules in canonical form *)

Definition starts_with_space (s : string) : bool :=
  match s with
  | String c _ => is_space c
  | EmptyString => false
  end.

(** A comment that the parser reads back from its line: one line, which
    does not start with white space and which the parser does not take for
    the line of the dependency identifier [id]. *)
Definition comment_ok (id c : string) : bool :=
  all_chars not_terminator c && negb (starts_with_space c)
  && negb (includes id ("# " +:+ c)).

Definition comments_of (md : ModuleDeclaration) : list string :=
  match comments md with
  | Some l => l
  | None => []
  end.

(** A module of the section of the dependencies: author, name and version
    are tokens. *)
Definition dependent_ok (id : string) (md : ModuleDeclaration) : bool :=
  token author_char (author md) && token plain_char (name md)
  && token plain_char (nullish (version md) "")
  && forallb (comment_ok id) (comments_of md).

(** A forge module *)
Definition forge_ok (id : string) (md : ModuleDeclaration) : bool :=
  forgeModule md && dependent_ok id md.

(** A repository module: the repository is a token without white space,
    and so is the reference if there is one; the parser fetches the
    metadata of the repository, which has to succeed. *)
Definition git_ok `{Environment} (id : string) (md : ModuleDeclaration) : bool :=
  negb (forgeModule md)
  && token author_char (author md) && token plain_char (name md)
  && token word_char (nullish (git md) "")
  && match ref md with
     | Some r => token word_char r
     | None => true
     end
  && forallb (comment_ok id) (comments_of md)
  && match git_fetch_metadata (nullish (git md) "") (ref md) with
     | inr _ => true
     | inl _ => false
     end.

(** The dependency identifier: a line of its own with a ['#'], written as
    it is and not included in the headings of the sections. *)
Definition identifier_ok (id : string) : bool :=
  all_chars (fun c => negb (escaped c)) id && all_chars not_terminator id
  && negb (all_chars not_hash id)
  && negb (includes id "# Git modules") && negb (includes id "# Forge modules").

(** What the parser makes of a forge line. *)
Definition parsed_forge (f a n v : string) (cs : list string) : ModuleDeclaration :=
  {| name := n; author := a; forgeModule := true; version := Some v; git := None;
     ref := None; comments := Some cs; _availableVersions := [];
     _forgeApiUrl := Some f; _gitMetadata := None; _dependencies := None |}.

Lemma fromText_forge_line `{Environment} (f a n v : string) (w : World) :
  token author_char a = true -> token plain_char n = true -> token plain_char v = true ->
  ModuleDeclaration.fromText (forge_line a n v)
    (ModuleDeclaration.withForgeApiUrl f new_ModuleDeclaration) w
  = (Ok (set_version (Some v)
           {| name := n; author := a; forgeModule := true; version := None; git := None;
              ref := None; comments := None; _availableVersions := [];
              _forgeApiUrl := Some f; _gitMetadata := None; _dependencies := None |}), w).
Proof.
  intros Ha Hn Hv. unfold ModuleDeclaration.fromText.
  rewrite (match_module_forge_line Ha Hn Hv). reflexivity.
Qed.

Lemma fromText_git_declaration `{Environment} (f a n g : string) (r : option string)
  (metadata : GitMetadata) :
  token author_char a = true -> token plain_char n = true -> token word_char g = true ->
  match r with Some r => token word_char r = true | None => True end ->
  git_fetch_metadata g r = inr metadata ->
  exists md',
    (forall w, ModuleDeclaration.fromText (git_declaration a n g r)
                 (ModuleDeclaration.withForgeApiUrl f new_ModuleDeclaration) w
               = (Ok md', w))
    /\ forgeModule md' = false /\ name md' = n /\ author md' = a
    /\ git md' = Some g /\ ref md' = r.
Proof.
  intros Ha Hn Hg Hr Hfetch. unfold ModuleDeclaration.fromText.
  rewrite (match_module_git_declaration g r Ha Hn).
  cbv beta iota zeta. cbn [after_match group_name group_author group_version].
  rewrite append_nil_l.
  apply token_inv in Hg. destruct Hg as [Hgne Hg].
  rewrite (parse_parameters_git (r := r) Hg);
    [|destruct r; [apply token_inv in Hr; tauto|exact I]].
  assert (Hfetch' : forall r', (if truthy r then r else None) = r' -> r' = r).
  { intros r' <-. destruct r as [r|]; [|reflexivity].
    apply token_inv in Hr. destruct Hr as [Hrne _].
    cbn [truthy]. destruct (String.eqb_spec r ""); [contradiction|reflexivity]. }
  rewrite <- (Hfetch' _ eq_refl) in Hfetch.
  destruct r as [r|]; cbn [parameter String.eqb Ascii.eqb Bool.eqb];
    cbv beta iota; unfold bind, ModuleDeclaration.fetchGitMetadata;
    cbn [git ref version forgeModule name author template truthy
         ModuleDeclaration.withForgeApiUrl new_ModuleDeclaration];
    (destruct (String.eqb_spec g ""); [contradiction|]); cbn [negb];
    cbn [truthy] in Hfetch; cbv beta iota in Hfetch; rewrite Hfetch;
    (eexists; split; [intros w; reflexivity|]; repeat split).
Qed.

(** *** The lines of the parser *)

Lemma span_is_space_hash s :
  snd (span is_space (String "#"%char s)) = String "#"%char s.
Proof. reflexivity. Qed.

Lemma span_is_space_space s :
  snd (span is_space (String " "%char s)) = snd (span is_space s).
Proof.
  cbn [span]. change (is_space " ") with true. cbv beta iota.
  destruct (span is_space s). reflexivity.
Qed.

Lemma span_not_leading p s :
  match s with String c _ => p c | EmptyString => false end = false ->
  span p s = ("", s).
Proof. destruct s as [|c s]; [reflexivity|]. cbn [span]. intros ->. reflexivity. Qed.

(** The comment line expression on the line that the emitter writes for
    the comment [c] *)
Lemma match_comment_line c :
  all_chars not_terminator c = true -> starts_with_space c = false ->
  match_comment ("# " +:+ c) = Some c.
Proof.
  intros Hc Hs. unfold match_comment.
  change ("# " +:+ c) with (String "#"%char (String " "%char c)).
  rewrite span_is_space_hash. cbv beta iota.
  rewrite span_is_space_space, (span_not_leading (p := is_space) (s := c) Hs). cbv beta iota zeta.
  cbn [snd]. rewrite (remove_all_every (p := fun c => negb (is_line_terminator c)) Hc).
  reflexivity.
Qed.

(** What the call of [addToModules] leaves of the file and of the heap, when
    it adds the module [o]. *)
Definition flushed_file (dep : bool) (o : option ModuleDeclaration) (pf : PuppetFile)
  (w : World) : PuppetFile :=
  match o with
  | None => pf
  | Some _ =>
      if dep then PuppetFile.push_dependentModule (Some (length (heap w))) pf
      else PuppetFile.push_module (Some (length (heap w))) pf
  end.

Definition flushed_world (o : option ModuleDeclaration) (w : World) : World :=
  match o with
  | None => w
  | Some md' => set_heap (heap w ++ [md']) w
  end.

Section Parser.

Context `{Environment}.
Variables (f id : string).
Hypothesis Hid : identifier_ok id = true.

Abbreviation mk := PuppetFile.mkParserState.

(** The declaration [d] that is pending, if [i], with the comments [cur]
    becomes the module [o] when [addToModules] is called. *)
Definition flushes (d : string) (i : bool) (cur : list string)
  (o : option ModuleDeclaration) : Prop :=
  forall dep rd pf w,
    forge pf = f ->
    PuppetFile.addToModules (mk d i dep cur rd pf) w
    = (Ok (mk d i dep cur rd (flushed_file dep o pf w)), flushed_world o w).

Lemma flushes_nothing d cur : flushes d false cur None.
Proof. intros dep rd pf w _. reflexivity. Qed.

Lemma flushes_forge_line a n v cur :
  token author_char a = true -> token plain_char n = true -> token plain_char v = true ->
  flushes (forge_line a n v) true cur (Some (parsed_forge f a n v cur)).
Proof.
  intros Ha Hn Hv dep rd pf w Hf. unfold PuppetFile.addToModules.
  cbn [PuppetFile.inDeclaration PuppetFile.currentDeclaration PuppetFile.parsed
       PuppetFile.currentComment PuppetFile.inDependencies PuppetFile.readingComment].
  change (String.eqb (forge_line a n v) "") with false. cbn [negb andb].
  unfold bind. rewrite Hf, (fromText_forge_line f w Ha Hn Hv).
  unfold alloc. destruct dep; reflexivity.
Qed.

Lemma flushes_git_declaration a n g r metadata cur :
  token author_char a = true -> token plain_char n = true -> token word_char g = true ->
  match r with Some r => token word_char r = true | None => True end ->
  git_fetch_metadata g r = inr metadata ->
  exists md',
    flushes (git_declaration a n g r) true cur (Some md')
    /\ forgeModule md' = false /\ name md' = n /\ author md' = a
    /\ git md' = Some g /\ ref md' = r /\ comments md' = Some cur.
Proof.
  intros Ha Hn Hg Hr Hfetch.
  destruct (fromText_git_declaration f Ha Hn Hg Hr Hfetch)
    as (md' & E & Hfm & Hname & Hauthor & Hgit & Href).
  exists (ModuleDeclaration.withComments cur md'). split; [|repeat split; assumption].
  intros dep rd pf w Hf. unfold PuppetFile.addToModules.
  cbn [PuppetFile.inDeclaration PuppetFile.currentDeclaration PuppetFile.parsed
       PuppetFile.currentComment PuppetFile.inDependencies PuppetFile.readingComment].
  change (String.eqb (git_declaration a n g r) "") with false. cbn [negb andb].
  unfold bind. rewrite Hf, E. unfold alloc. destruct dep; reflexivity.
Qed.

Lemma identifier_inv :
  escapeExpression id = id /\ all_chars not_terminator id = true
  /\ all_chars not_hash id = false
  /\ includes id "# Git modules" = false /\ includes id "# Forge modules" = false.
Proof.
  unfold identifier_ok in Hid.
  repeat match type of Hid with
         | _ && _ = true => apply andb_prop in Hid; destruct Hid as [Hid ?]
         end.
  repeat match goal with
         | E : negb ?b = true |- _ => apply negb_true_iff in E
         end.
  repeat split; auto. apply escapeExpression_plain. exact Hid.
Qed.

Lemma identifier_not_included line :
  all_chars not_hash line = true -> includes id line = false.
Proof.
  destruct identifier_inv as (_ & _ & Hhash & _). apply includes_chars. exact Hhash.
Qed.

Lemma identifier_included : includes id id = true.
Proof. rewrite <- (append_nil_r id) at 2. apply includes_prefix. Qed.

Lemma flushed_file_identifier dep o pf w :
  _dependencyIdentifier (flushed_file dep o pf w) = _dependencyIdentifier pf.
Proof. destruct o, dep; reflexivity. Qed.

Lemma flushed_file_forge dep o pf w : forge (flushed_file dep o pf w) = forge pf.
Proof. destruct o, dep; reflexivity. Qed.

Lemma flushed_file_preamble dep o pf w : preamble (flushed_file dep o pf w) = preamble pf.
Proof. destruct o, dep; reflexivity. Qed.

(** A line that starts with [mod] *)
Lemma parse_line_mod line r d i dep cur rd pf o w :
  strip_prefix "mod" line = Some r -> includes id line = false ->
  _dependencyIdentifier pf = id -> forge pf = f -> flushes d i cur o ->
  PuppetFile.parse_line line (mk d i dep cur rd pf) w
  = (Ok (mk line true dep rd [] (flushed_file dep o pf w)), flushed_world o w).
Proof.
  intros Hmod Hinc Hpf Hf Hflush. unfold PuppetFile.parse_line.
  cbn [PuppetFile.parsed]. rewrite Hpf, Hinc, Hmod.
  rewrite bool_decide_eq_true_2 by eauto. cbn [orb].
  unfold bind. rewrite (Hflush dep rd pf w Hf). reflexivity.
Qed.

(** The line of the dependency identifier *)
Lemma parse_line_identifier d i dep cur rd pf o w :
  _dependencyIdentifier pf = id -> forge pf = f -> flushes d i cur o ->
  PuppetFile.parse_line id (mk d i dep cur rd pf) w
  = (Ok (mk "" false true rd [] (flushed_file dep o pf w)), flushed_world o w).
Proof.
  intros Hpf Hf Hflush. unfold PuppetFile.parse_line.
  cbn [PuppetFile.parsed]. rewrite Hpf, identifier_included, orb_true_r.
  unfold bind. rewrite (Hflush dep rd pf w Hf). reflexivity.
Qed.

(** A comment line *)
Lemma parse_line_comment line c d i dep cur rd pf w :
  strip_prefix "mod" line = None -> includes id line = false ->
  match_comment line = Some c -> _dependencyIdentifier pf = id ->
  PuppetFile.parse_line line (mk d i dep cur rd pf) w
  = (Ok (mk d i dep cur (rd ++ [c]) pf), w).
Proof.
  intros Hmod Hinc Hcomment Hpf. unfold PuppetFile.parse_line.
  cbn [PuppetFile.parsed]. rewrite Hpf, Hinc, Hmod, Hcomment.
  rewrite bool_decide_eq_false_2 by (intros [? ?]; discriminate). reflexivity.
Qed.

(** A blank line *)
Lemma parse_line_blank line d i dep cur rd pf w :
  strip_prefix "mod" line = None -> all_chars not_hash line = true ->
  match_comment line = None -> is_blank line = true -> _dependencyIdentifier pf = id ->
  PuppetFile.parse_line line (mk d i dep cur rd pf) w = (Ok (mk d i dep cur [] pf), w).
Proof.
  intros Hmod Hhash Hcomment Hblank Hpf. unfold PuppetFile.parse_line.
  cbn [PuppetFile.parsed]. rewrite Hpf, (identifier_not_included Hhash), Hmod, Hcomment, Hblank.
  rewrite bool_decide_eq_false_2 by (intros [? ?]; discriminate). reflexivity.
Qed.

(** A line that continues a declaration *)
Lemma parse_line_continuation line d dep cur rd pf w :
  strip_prefix "mod" line = None -> all_chars not_hash line = true ->
  match_comment line = None -> is_blank line = false -> _dependencyIdentifier pf = id ->
  PuppetFile.parse_line line (mk d true dep cur rd pf) w
  = (Ok (mk (d +:+ line) true dep cur rd pf), w).
Proof.
  intros Hmod Hhash Hcomment Hblank Hpf. unfold PuppetFile.parse_line.
  cbn [PuppetFile.parsed]. rewrite Hpf, (identifier_not_included Hhash), Hmod, Hcomment, Hblank.
  rewrite bool_decide_eq_false_2 by (intros [? ?]; discriminate). reflexivity.
Qed.

(** The line of the forge *)
Lemma parse_line_forge url d dep cur rd pf w :
  token plain_char url = true -> _dependencyIdentifier pf = id ->
  PuppetFile.parse_line ("forge '" +:+ url +:+ "'") (mk d false dep cur rd pf) w
  = (Ok (mk d false dep cur rd (PuppetFile.set_forge url pf)), w).
Proof.
  intros Hurl Hpf. apply token_inv in Hurl. destruct Hurl as [Hne Hurl].
  unfold PuppetFile.parse_line. cbn [PuppetFile.parsed]. rewrite Hpf.
  rewrite identifier_not_included.
  - change (strip_prefix "mod" ("forge '" +:+ url +:+ "'")) with (@None string).
    rewrite bool_decide_eq_false_2 by (intros [? ?]; discriminate).
    change (match_comment ("forge '" +:+ url +:+ "'")) with (@None string).
    change (is_blank ("forge '" +:+ url +:+ "'")) with false.
    cbn [orb PuppetFile.inDeclaration].
    assert (Hforge : match_forge ("forge '" +:+ url +:+ "'") = Some url).
    { change ("forge '" +:+ url +:+ "'") with (String "f"%char ("orge '" +:+ url +:+ "'")).
      cbn [match_forge].
      change (String "f"%char ("orge '" +:+ url +:+ "'")) with ("forge '" +:+ url +:+ "'").
      rewrite strip_prefix_app.
      change (url +:+ "'") with (url +:+ String "'"%char "").
      rewrite (span_app (p := fun c => negb (is_char quote c)));
        [|exact (plain_no_quote Hurl)|reflexivity].
      destruct url; [contradiction|reflexivity]. }
    rewrite Hforge. reflexivity.
  - rewrite !all_chars_app, (all_chars_weaken plain_not_hash Hurl). reflexivity.
Qed.

(** A line and the lines that follow it *)
Lemma parse_lines_line line rest st w :
  all_chars not_terminator line = true ->
  PuppetFile.parse_lines (split_lines (line +:+ nl +:+ rest)) st w
  = match PuppetFile.parse_line line st w with
    | (Ok st', w') => PuppetFile.parse_lines (split_lines rest) st' w'
    | (Err e, w') => (Err e, w')
    end.
Proof. intros Hline. rewrite (split_lines_line _ Hline). reflexivity. Qed.

Lemma parse_lines_last line st w :
  all_chars not_terminator line = true ->
  PuppetFile.parse_lines (split_lines line) st w = PuppetFile.parse_line line st w.
Proof.
  intros Hline. rewrite (split_lines_last Hline). cbn [PuppetFile.parse_lines].
  unfold bind. destruct (PuppetFile.parse_line line st w) as [[st'|e] w']; reflexivity.
Qed.

(** *** The blocks of the emitter *)

(** The comment lines of a module, before the text [rest]. *)
Definition comment_block (cs : list string) (rest : string) : string :=
  fold_right (fun c out => ("# " +:+ c) +:+ nl +:+ out) rest cs.

Lemma render_comments_block md rest :
  PuppetFile.render_comments (comments md) +:+ rest = comment_block (comments_of md) rest.
Proof.
  unfold comments_of, PuppetFile.render_comments.
  destruct (comments md) as [cs|]; [|reflexivity].
  induction cs as [|c cs IH]; [reflexivity|].
  cbn [fold_right comment_block]. rewrite !append_assoc. do 3 f_equal. exact IH.
Qed.

Lemma comment_ok_inv c :
  comment_ok id c = true ->
  all_chars not_terminator c = true /\ starts_with_space c = false
  /\ includes id ("# " +:+ c) = false.
Proof.
  unfold comment_ok. intros E. apply andb_prop in E. destruct E as [E Hinc].
  apply andb_prop in E. destruct E as [Hc Hs].
  apply negb_true_iff in Hinc, Hs. auto.
Qed.

Lemma parse_comment_block cs rest d i dep cur pf w :
  forallb (comment_ok id) cs = true -> _dependencyIdentifier pf = id ->
  forall rd,
    PuppetFile.parse_lines (split_lines (comment_block cs rest)) (mk d i dep cur rd pf) w
    = PuppetFile.parse_lines (split_lines rest) (mk d i dep cur (rd ++ cs) pf) w.
Proof.
  intros Hcs Hpf. induction cs as [|c cs IH]; intros rd.
  - rewrite app_nil_r. reflexivity.
  - cbn [forallb] in Hcs. apply andb_prop in Hcs. destruct Hcs as [Hc Hcs].
    apply comment_ok_inv in Hc. destruct Hc as (Hterm & Hspace & Hinc).
    cbn [comment_block fold_right]. fold (comment_block cs rest).
    rewrite parse_lines_line by (rewrite all_chars_app, Hterm; reflexivity).
    rewrite (@parse_line_comment _ c); auto using match_comment_line.
    rewrite (IH Hcs). rewrite <- app_assoc. reflexivity.
Qed.

Lemma dependent_ok_inv md :
  dependent_ok id md = true ->
  token author_char (author md) = true /\ token plain_char (name md) = true
  /\ (exists v, version md = Some v /\ token plain_char v = true)
  /\ forallb (comment_ok id) (comments_of md) = true.
Proof.
  unfold dependent_ok. intros E.
  repeat match type of E with
         | _ && _ = true => apply andb_prop in E; destruct E as [E ?]
         end.
  repeat split; auto.
  destruct (version md) as [v|]; [eauto|discriminate].
Qed.

Lemma plain_escape s : all_chars plain_char s = true -> escapeExpression s = s.
Proof.
  intros E. apply escapeExpression_plain. revert E. apply all_chars_weaken.
  exact plain_not_escaped.
Qed.

Lemma token_escape p s :
  (forall c, p c = true -> plain_char c = true) ->
  token p s = true -> escapeExpression s = s.
Proof.
  intros Hp E. apply token_inv in E. destruct E as [_ E].
  apply plain_escape. revert E. apply all_chars_weaken. exact Hp.
Qed.

Lemma token_chars p q s :
  (forall c, p c = true -> q c = true) -> token p s = true -> all_chars q s = true.
Proof. intros Hpq E. apply token_inv in E. destruct E as [_ E].
       revert E. apply all_chars_weaken. exact Hpq. Qed.

Lemma author_not_terminator c : author_char c = true -> not_terminator c = true.
Proof. intros E. apply plain_not_terminator, author_plain, E. Qed.

Lemma author_not_hash c : author_char c = true -> not_hash c = true.
Proof. intros E. apply plain_not_hash, author_plain, E. Qed.

Lemma word_not_terminator c : word_char c = true -> not_terminator c = true.
Proof. intros E. apply plain_not_terminator, word_plain, E. Qed.

Lemma word_not_hash c : word_char c = true -> not_hash c = true.
Proof. intros E. apply plain_not_hash, word_plain, E. Qed.

(** The characters of a line that is put together from fixed texts and
    tokens. *)
Ltac line_chars :=
  rewrite ?all_chars_app;
  repeat match goal with
         | E : token author_char ?s = true |- context [all_chars not_terminator ?s] =>
             rewrite (token_chars author_not_terminator E)
         | E : token author_char ?s = true |- context [all_chars not_hash ?s] =>
             rewrite (token_chars author_not_hash E)
         | E : token plain_char ?s = true |- context [all_chars not_terminator ?s] =>
             rewrite (token_chars plain_not_terminator E)
         | E : token plain_char ?s = true |- context [all_chars not_hash ?s] =>
             rewrite (token_chars plain_not_hash E)
         | E : token word_char ?s = true |- context [all_chars not_terminator ?s] =>
             rewrite (token_chars word_not_terminator E)
         | E : token word_char ?s = true |- context [all_chars not_hash ?s] =>
             rewrite (token_chars word_not_hash E)
         end;
  reflexivity.

(** The text of a block of a forge module *)
Lemma render_forgeModule_text md v last rest :
  token author_char (author md) = true -> token plain_char (name md) = true ->
  version md = Some v -> token plain_char v = true ->
  PuppetFile.render_forgeModule md last +:+ rest
  = comment_block (comments_of md)
      (forge_line (author md) (name md) v +:+ nl +:+ (if last then rest else nl +:+ rest)).
Proof.
  intros Ha Hn Hversion Hv. unfold PuppetFile.render_forgeModule.
  rewrite Hversion. cbn [nullish].
  rewrite (token_escape author_plain Ha), (token_escape (fun c E => E) Hn),
    (token_escape (fun c E => E) Hv).
  rewrite append_assoc, render_comments_block. f_equal.
  unfold forge_line. rewrite !append_assoc. destruct last; reflexivity.
Qed.

(** The text of a block of a dependent module that is not the last *)
Lemma render_dependentModule_text md v last rest :
  token author_char (author md) = true -> token plain_char (name md) = true ->
  version md = Some v -> token plain_char v = true ->
  PuppetFile.render_dependentModule md last +:+ rest
  = comment_block (comments_of md)
      (forge_line (author md) (name md) v
       +:+ (if last then rest else nl +:+ nl +:+ rest)).
Proof.
  intros Ha Hn Hversion Hv. unfold PuppetFile.render_dependentModule.
  rewrite Hversion. cbn [nullish].
  rewrite (token_escape author_plain Ha), (token_escape (fun c E => E) Hn),
    (token_escape (fun c E => E) Hv).
  rewrite append_assoc, render_comments_block. f_equal.
  unfold forge_line. rewrite !append_assoc. destruct last; reflexivity.
Qed.

Lemma forge_line_mod a n v :
  strip_prefix "mod" (forge_line a n v)
  = Some (" '" +:+ a +:+ "-" +:+ n +:+ "', '" +:+ v +:+ "'").
Proof. reflexivity. Qed.

Lemma parse_blank_line rest d i dep cur rd pf w :
  _dependencyIdentifier pf = id ->
  PuppetFile.parse_lines (split_lines (nl +:+ rest)) (mk d i dep cur rd pf) w
  = PuppetFile.parse_lines (split_lines rest) (mk d i dep cur [] pf) w.
Proof.
  intros Hpf. change (nl +:+ rest) with ("" +:+ nl +:+ rest).
  rewrite parse_lines_line by reflexivity.
  rewrite parse_line_blank by (reflexivity || exact Hpf). reflexivity.
Qed.

(** The block of a forge module *)
Lemma parse_forge_block md last rest d i dep cur o pf w :
  dependent_ok id md = true -> flushes d i cur o ->
  forge pf = f -> _dependencyIdentifier pf = id ->
  PuppetFile.parse_lines (split_lines (PuppetFile.render_forgeModule md last +:+ rest))
    (mk d i dep cur [] pf) w
  = PuppetFile.parse_lines (split_lines rest)
      (mk (forge_line (author md) (name md) (nullish (version md) "")) true dep
          (comments_of md) [] (flushed_file dep o pf w))
      (flushed_world o w).
Proof.
  intros Hok Hflush Hf Hpf.
  apply dependent_ok_inv in Hok. destruct Hok as (Ha & Hn & (v & Hversion & Hv) & Hcs).
  rewrite (render_forgeModule_text last rest Ha Hn Hversion Hv), Hversion. cbn [nullish].
  rewrite parse_comment_block by assumption. cbn [app].
  rewrite parse_lines_line by (unfold forge_line; line_chars).
  erewrite parse_line_mod;
    [|apply forge_line_mod| |exact Hpf|exact Hf|exact Hflush].
  - destruct last; [reflexivity|].
    apply parse_blank_line. rewrite flushed_file_identifier. exact Hpf.
  - apply identifier_not_included. unfold forge_line. line_chars.
Qed.

Lemma parse_no_line d i dep cur pf w :
  _dependencyIdentifier pf = id ->
  PuppetFile.parse_lines (split_lines "") (mk d i dep cur [] pf) w
  = (Ok (mk d i dep cur [] pf), w).
Proof.
  intros Hpf. change (split_lines "") with [""]. cbn [PuppetFile.parse_lines].
  unfold bind. rewrite parse_line_blank by (reflexivity || exact Hpf). reflexivity.
Qed.

(** The block of a dependent module; the last one ends the text. *)
Lemma parse_dependent_block md last rest d i dep cur o pf w :
  (last = true -> rest = "") ->
  dependent_ok id md = true -> flushes d i cur o ->
  forge pf = f -> _dependencyIdentifier pf = id ->
  PuppetFile.parse_lines
    (split_lines (PuppetFile.render_dependentModule md last +:+ rest))
    (mk d i dep cur [] pf) w
  = PuppetFile.parse_lines (split_lines rest)
      (mk (forge_line (author md) (name md) (nullish (version md) "")) true dep
          (comments_of md) [] (flushed_file dep o pf w))
      (flushed_world o w).
Proof.
  intros Hlast Hok Hflush Hf Hpf.
  apply dependent_ok_inv in Hok. destruct Hok as (Ha & Hn & (v & Hversion & Hv) & Hcs).
  rewrite (render_dependentModule_text last rest Ha Hn Hversion Hv), Hversion.
  cbn [nullish]. rewrite parse_comment_block by assumption. cbn [app].
  assert (Hinc : includes id (forge_line (author md) (name md) v) = false)
    by (apply identifier_not_included; unfold forge_line; line_chars).
  assert (Hterm : all_chars not_terminator (forge_line (author md) (name md) v) = true)
    by (unfold forge_line; line_chars).
  destruct last.
  - rewrite (Hlast eq_refl), append_nil_r, (parse_lines_last _ _ Hterm).
    erewrite parse_line_mod;
      [|apply forge_line_mod|exact Hinc|exact Hpf|exact Hf|exact Hflush].
    rewrite parse_no_line; [reflexivity|].
    rewrite flushed_file_identifier. exact Hpf.
  - rewrite (parse_lines_line _ _ _ Hterm).
    erewrite parse_line_mod;
      [|apply forge_line_mod|exact Hinc|exact Hpf|exact Hf|exact Hflush].
    apply parse_blank_line. rewrite flushed_file_identifier. exact Hpf.
Qed.

Lemma git_ok_inv md :
  git_ok id md = true ->
  forgeModule md = false
  /\ token author_char (author md) = true /\ token plain_char (name md) = true
  /\ (exists g, git md = Some g /\ token word_char g = true
                /\ exists metadata, git_fetch_metadata g (ref md) = inr metadata)
  /\ match ref md with Some r => token word_char r = true | None => True end
  /\ forallb (comment_ok id) (comments_of md) = true.
Proof.
  unfold git_ok. intros E.
  repeat match type of E with
         | _ && _ = true => apply andb_prop in E; destruct E as [E ?]
         end.
  apply negb_true_iff in E. repeat split; auto.
  - destruct (git md) as [g|]; [|discriminate]. cbn [nullish] in *.
    exists g. repeat split; auto.
    destruct (git_fetch_metadata g (ref md)) as [|metadata]; [discriminate|eauto].
  - destruct (ref md); auto.
Qed.

(** The lines of a repository module after its first line *)
Definition git_lines (g : string) (r : option string) (rest : string) : string :=
  match r with
  | Some r =>
      ("    :git => '" +:+ g +:+ "',") +:+ nl
      +:+ ("    :ref => '" +:+ r +:+ "'") +:+ nl +:+ rest
  | None => ("    :git => '" +:+ g +:+ "'") +:+ nl +:+ rest
  end.

(** The text of a block of a repository module *)
Lemma render_gitModule_text md g last rest :
  token author_char (author md) = true -> token plain_char (name md) = true ->
  git md = Some g -> token word_char g = true ->
  match ref md with Some r => token word_char r = true | None => True end ->
  PuppetFile.render_gitModule md last +:+ rest
  = comment_block (comments_of md)
      (("mod '" +:+ author md +:+ "-" +:+ name md +:+ "',") +:+ nl
       +:+ git_lines g (ref md) (if last then rest else "    " +:+ nl +:+ rest)).
Proof.
  intros Ha Hn Hgit Hg Hr. unfold PuppetFile.render_gitModule, git_lines.
  rewrite Hgit. cbn [nullish].
  rewrite (token_escape author_plain Ha), (token_escape (fun c E => E) Hn),
    (token_escape word_plain Hg).
  rewrite append_assoc, render_comments_block. f_equal.
  destruct (ref md) as [r|]; cbn [truthy nullish].
  - rewrite (token_escape word_plain Hr).
    apply token_inv in Hr. destruct Hr as [Hrne _].
    destruct (String.eqb_spec r ""); [contradiction|]. cbn [negb].
    rewrite !append_assoc. destruct last; reflexivity.
  - rewrite !append_assoc. destruct last; reflexivity.
Qed.

Lemma git_declaration_lines a n g r :
  match r with
  | Some r =>
      (("mod '" +:+ a +:+ "-" +:+ n +:+ "',") +:+ ("    :git => '" +:+ g +:+ "',"))
      +:+ ("    :ref => '" +:+ r +:+ "'")
  | None => ("mod '" +:+ a +:+ "-" +:+ n +:+ "',") +:+ ("    :git => '" +:+ g +:+ "'")
  end = git_declaration a n g r.
Proof.
  unfold git_declaration, git_parameters.
  destruct r as [r|]; rewrite !append_assoc; [reflexivity|].
  rewrite append_nil_r. reflexivity.
Qed.

(** The block of a repository module *)
Lemma parse_git_block md last rest d i dep cur o pf w :
  git_ok id md = true -> flushes d i cur o ->
  forge pf = f -> _dependencyIdentifier pf = id ->
  PuppetFile.parse_lines (split_lines (PuppetFile.render_gitModule md last +:+ rest))
    (mk d i dep cur [] pf) w
  = PuppetFile.parse_lines (split_lines rest)
      (mk (git_declaration (author md) (name md) (nullish (git md) "") (ref md)) true dep
          (comments_of md) [] (flushed_file dep o pf w))
      (flushed_world o w).
Proof.
  intros Hok Hflush Hf Hpf.
  apply git_ok_inv in Hok.
  destruct Hok as (_ & Ha & Hn & (g & Hgit & Hg & _) & Hr & Hcs).
  rewrite (render_gitModule_text last rest Ha Hn Hgit Hg Hr), Hgit. cbn [nullish].
  rewrite parse_comment_block by assumption. cbn [app].
  rewrite parse_lines_line by line_chars.
  erewrite parse_line_mod; [|reflexivity| |exact Hpf|exact Hf|exact Hflush];
    [|apply identifier_not_included; line_chars].
  assert (Hpf' : _dependencyIdentifier (flushed_file dep o pf w) = id)
    by (rewrite flushed_file_identifier; exact Hpf).
  rewrite <- (git_declaration_lines (author md) (name md) g (ref md)).
  assert (Hend : forall decl,
             PuppetFile.parse_lines
               (split_lines (if last then rest else "    " +:+ nl +:+ rest))
               (mk decl true dep (comments_of md) [] (flushed_file dep o pf w))
               (flushed_world o w)
             = PuppetFile.parse_lines (split_lines rest)
                 (mk decl true dep (comments_of md) [] (flushed_file dep o pf w))
                 (flushed_world o w)).
  { intros decl. destruct last; [reflexivity|].
    rewrite parse_lines_line by reflexivity.
    rewrite parse_line_blank by (reflexivity || exact Hpf'). reflexivity. }
  unfold git_lines. destruct (ref md) as [r|].
  - rewrite parse_lines_line by line_chars.
    rewrite parse_line_continuation by (reflexivity || exact Hpf' || line_chars).
    rewrite parse_lines_line by line_chars.
    rewrite parse_line_continuation by (reflexivity || exact Hpf' || line_chars).
    apply Hend.
  - rewrite parse_lines_line by line_chars.
    rewrite parse_line_continuation by (reflexivity || exact Hpf' || line_chars).
    apply Hend.
Qed.

(** *** The modules that the parser has added *)

(** The references [l] lead to the modules [ms]. *)
Definition reads (w : World) (l : list (option mref)) (ms : list ModuleDeclaration)
  : Prop :=
  Forall2 (fun o md => exists m, o = Some m /\ heap w !! m = Some md) l ms.

Lemma read_modules_reads w l ms :
  reads w l ms -> PuppetFile.read_modules l w = (Ok ms, w).
Proof.
  induction 1 as [|o md l ms (m & -> & Hm) _ IH]; [reflexivity|].
  cbn [PuppetFile.read_modules]. rewrite (bind_Ok (deref_Ok Hm)), (bind_Ok IH).
  reflexivity.
Qed.

Lemma reads_extend w l ms x :
  reads w l ms -> reads (set_heap (heap w ++ [x]) w) l ms.
Proof.
  intros Hl. eapply Forall2_impl; [exact Hl|].
  intros o md (m & -> & Hm). exists m. split; [reflexivity|].
  cbn. apply lookup_app_l_Some. exact Hm.
Qed.

Lemma reads_push w l ms x :
  reads w l ms ->
  reads (set_heap (heap w ++ [x]) w) (l ++ [Some (length (heap w))]) (ms ++ [x]).
Proof.
  intros Hl. apply Forall2_app; [apply reads_extend; exact Hl|].
  constructor; [|constructor]. eexists. split; [reflexivity|]. cbn.
  apply list_lookup_middle. reflexivity.
Qed.

Definition pending_list (o : option ModuleDeclaration) : list ModuleDeclaration :=
  match o with
  | Some md => [md]
  | None => []
  end.

(** The file that the parser is filling: its forge, its identifier, and the
    modules of its two lists. *)
Definition Loaded (tops deps : list ModuleDeclaration) (pf : PuppetFile) (w : World)
  : Prop :=
  forge pf = f /\ preamble pf = "" /\ _dependencyIdentifier pf = id
  /\ reads w (modules pf) tops /\ reads w (dependentModules pf) deps.

(** The same, from the side of the list that is being filled. *)
Definition LoadedAt (dep : bool) (these others : list ModuleDeclaration)
  (pf : PuppetFile) (w : World) : Prop :=
  if dep then Loaded others these pf w else Loaded these others pf w.

Lemma LoadedAt_flush dep these others o pf w :
  LoadedAt dep these others pf w ->
  LoadedAt dep (these ++ pending_list o) others (flushed_file dep o pf w)
    (flushed_world o w).
Proof.
  destruct o as [md|]; [|cbn; rewrite app_nil_r; auto].
  destruct dep; intros (Hf & Hp & Hi & Htops & Hdeps); repeat split; auto; cbn.
  - apply reads_extend. exact Htops.
  - apply reads_push. exact Hdeps.
  - apply reads_push. exact Htops.
  - apply reads_extend. exact Hdeps.
Qed.

Lemma LoadedAt_forge dep these others pf w :
  LoadedAt dep these others pf w -> forge pf = f /\ _dependencyIdentifier pf = id.
Proof. destruct dep; intros (? & ? & ? & _); auto. Qed.

(** *** The sections of the emitter *)

Section Blocks.

Variable dep : bool.
Variable render : ModuleDeclaration -> bool -> string.
Variable ok : ModuleDeclaration -> Prop.
Variable R : ModuleDeclaration -> ModuleDeclaration -> Prop.
Variable final : string.

(** The block of a module leaves its declaration pending, to become a
    module that [R] relates to the one that was emitted. *)
Hypothesis block :
  forall md, ok md ->
    exists d' md',
      flushes d' true (comments_of md) (Some md') /\ R md md'
      /\ forall last rest, (last = true -> rest = final) ->
           forall d i cur o pf w,
             flushes d i cur o -> forge pf = f -> _dependencyIdentifier pf = id ->
             PuppetFile.parse_lines (split_lines (render md last +:+ rest))
               (mk d i dep cur [] pf) w
             = PuppetFile.parse_lines (split_lines rest)
                 (mk d' true dep (comments_of md) [] (flushed_file dep o pf w))
                 (flushed_world o w).

Lemma parse_section l :
  Forall ok l ->
  forall d i cur o pf w these others,
    flushes d i cur o -> LoadedAt dep these others pf w ->
    exists d' i' cur' o' pf' w' these' added,
      PuppetFile.parse_lines (split_lines (PuppetFile.render_each render l +:+ final))
        (mk d i dep cur [] pf) w
      = PuppetFile.parse_lines (split_lines final) (mk d' i' dep cur' [] pf') w'
      /\ flushes d' i' cur' o' /\ LoadedAt dep these' others pf' w'
      /\ Forall2 R l added
      /\ these' ++ pending_list o' = these ++ pending_list o ++ added.
Proof.
  induction 1 as [|x l Hx Hl IH]; intros d i cur o pf w these others Hflush Hloaded.
  - exists d, i, cur, o, pf, w, these, []. rewrite app_nil_r. repeat split; auto.
  - destruct (block Hx) as (d1 & md1 & Hflush1 & HR1 & Hblock).
    destruct (LoadedAt_forge Hloaded) as [Hf Hpf].
    pose proof (LoadedAt_flush o Hloaded) as Hloaded1.
    destruct l as [|y l].
    + exists d1, true, (comments_of x), (Some md1), (flushed_file dep o pf w),
        (flushed_world o w), (these ++ pending_list o), [md1].
      cbn [PuppetFile.render_each].
      rewrite (Hblock true final (fun _ => eq_refl) _ _ _ _ _ _ Hflush Hf Hpf).
      repeat split; auto. rewrite <- app_assoc. reflexivity.
    + destruct (IH d1 true (comments_of x) (Some md1) _ _ _ _ Hflush1 Hloaded1)
        as (d' & i' & cur' & o' & pf' & w' & these' & added & E & Hflush' & Hloaded'
            & HR & Hlist).
      exists d', i', cur', o', pf', w', these', (md1 :: added).
      change (PuppetFile.render_each render (x :: y :: l))
        with (render x false +:+ PuppetFile.render_each render (y :: l)).
      rewrite append_assoc.
      rewrite (Hblock false _ (fun E => False_ind _ (diff_false_true E))
                 _ _ _ _ _ _ Hflush Hf Hpf).
      rewrite E. repeat split; auto.
      rewrite Hlist, <- !app_assoc. reflexivity.
Qed.

End Blocks.

(** The module that the parser adds is printed as the module that was
    emitted, in the list where it belongs and at the same place. *)
Definition same_git (md md' : ModuleDeclaration) : Prop :=
  forgeModule md' = false /\ name md' = name md
  /\ forall last, PuppetFile.render_gitModule md' last = PuppetFile.render_gitModule md last.

Definition same_forge (md md' : ModuleDeclaration) : Prop :=
  forgeModule md' = true /\ name md' = name md
  /\ forall last,
       PuppetFile.render_forgeModule md' last = PuppetFile.render_forgeModule md last.

Definition same_dependent (md md' : ModuleDeclaration) : Prop :=
  name md' = name md
  /\ forall last,
       PuppetFile.render_dependentModule md' last
       = PuppetFile.render_dependentModule md last.

Lemma render_comments_of md :
  PuppetFile.render_comments (Some (comments_of md))
  = PuppetFile.render_comments (comments md).
Proof. unfold comments_of. destruct (comments md); reflexivity. Qed.

Lemma git_block dep final md :
  git_ok id md = true ->
  exists d' md',
    flushes d' true (comments_of md) (Some md') /\ same_git md md'
    /\ forall last rest, (last = true -> rest = final) ->
         forall d i cur o pf w,
           flushes d i cur o -> forge pf = f -> _dependencyIdentifier pf = id ->
           PuppetFile.parse_lines
             (split_lines (PuppetFile.render_gitModule md last +:+ rest))
             (mk d i dep cur [] pf) w
           = PuppetFile.parse_lines (split_lines rest)
               (mk d' true dep (comments_of md) [] (flushed_file dep o pf w))
               (flushed_world o w).
Proof.
  intros Hok. pose proof (git_ok_inv Hok) as Hinv.
  destruct Hinv as (_ & Ha & Hn & (g & Hgit & Hg & metadata & Hfetch) & Hr & _).
  destruct (flushes_git_declaration (comments_of md) Ha Hn Hg Hr Hfetch)
    as (md' & Hflush & Hfm & Hname & Hauthor & Hgit' & Href & Hcomments).
  exists (git_declaration (author md) (name md) g (ref md)), md'.
  split; [exact Hflush|]. split.
  - repeat split; auto. intros last. unfold PuppetFile.render_gitModule.
    rewrite Hname, Hauthor, Hgit', Href, Hcomments, Hgit, render_comments_of. reflexivity.
  - intros last rest _ d i cur o pf w Hflush0 Hf Hpf.
    rewrite (parse_git_block last rest dep w Hok Hflush0 Hf Hpf), Hgit. reflexivity.
Qed.

Lemma parsed_forge_same md v :
  version md = Some v ->
  forall last,
    PuppetFile.render_forgeModule
      (parsed_forge f (author md) (name md) v (comments_of md)) last
    = PuppetFile.render_forgeModule md last
    /\ PuppetFile.render_dependentModule
         (parsed_forge f (author md) (name md) v (comments_of md)) last
       = PuppetFile.render_dependentModule md last.
Proof.
  intros Hversion last.
  unfold PuppetFile.render_forgeModule, PuppetFile.render_dependentModule.
  cbn [parsed_forge author name version comments]. rewrite Hversion, render_comments_of.
  split; reflexivity.
Qed.

Lemma forge_block final md :
  forge_ok id md = true ->
  exists d' md',
    flushes d' true (comments_of md) (Some md') /\ same_forge md md'
    /\ forall last rest, (last = true -> rest = final) ->
         forall d i cur o pf w,
           flushes d i cur o -> forge pf = f -> _dependencyIdentifier pf = id ->
           PuppetFile.parse_lines
             (split_lines (PuppetFile.render_forgeModule md last +:+ rest))
             (mk d i false cur [] pf) w
           = PuppetFile.parse_lines (split_lines rest)
               (mk d' true false (comments_of md) [] (flushed_file false o pf w))
               (flushed_world o w).
Proof.
  unfold forge_ok. intros Hok. apply andb_prop in Hok. destruct Hok as [_ Hok].
  pose proof (dependent_ok_inv Hok) as (Ha & Hn & (v & Hversion & Hv) & _).
  exists (forge_line (author md) (name md) v),
    (parsed_forge f (author md) (name md) v (comments_of md)).
  split; [apply flushes_forge_line; assumption|]. split.
  - repeat split. intros last. apply (parsed_forge_same Hversion).
  - intros last rest _ d i cur o pf w Hflush0 Hf Hpf.
    rewrite (parse_forge_block last rest false w Hok Hflush0 Hf Hpf), Hversion.
    reflexivity.
Qed.

Lemma dependent_block md :
  dependent_ok id md = true ->
  exists d' md',
    flushes d' true (comments_of md) (Some md') /\ same_dependent md md'
    /\ forall last rest, (last = true -> rest = "") ->
         forall d i cur o pf w,
           flushes d i cur o -> forge pf = f -> _dependencyIdentifier pf = id ->
           PuppetFile.parse_lines
             (split_lines (PuppetFile.render_dependentModule md last +:+ rest))
             (mk d i true cur [] pf) w
           = PuppetFile.parse_lines (split_lines rest)
               (mk d' true true (comments_of md) [] (flushed_file true o pf w))
               (flushed_world o w).
Proof.
  intros Hok.
  pose proof (dependent_ok_inv Hok) as (Ha & Hn & (v & Hversion & Hv) & _).
  exists (forge_line (author md) (name md) v),
    (parsed_forge f (author md) (name md) v (comments_of md)).
  split; [apply flushes_forge_line; assumption|]. split.
  - repeat split. intros last. apply (parsed_forge_same Hversion).
  - intros last rest Hlast d i cur o pf w Hflush0 Hf Hpf.
    rewrite (parse_dependent_block true w Hlast Hok Hflush0 Hf Hpf), Hversion.
    reflexivity.
Qed.

(** *** The text of the emitter *)

(** The text of a file without preamble whose modules are [gits], [forges]
    and [deps], in this order. *)
Definition canonical_text (gits forges deps : list ModuleDeclaration) : string :=
  ("forge '" +:+ f +:+ "'") +:+ nl +:+ nl
  +:+ "# Git modules" +:+ nl +:+ nl
  +:+ PuppetFile.render_each PuppetFile.render_gitModule gits
  +:+ nl +:+ "# Forge modules" +:+ nl +:+ nl
  +:+ PuppetFile.render_each PuppetFile.render_forgeModule forges
  +:+ nl +:+ id +:+ nl +:+ nl
  +:+ PuppetFile.render_each PuppetFile.render_dependentModule deps +:+ "".

Lemma forallb_Forall_ok (p : ModuleDeclaration -> bool) l :
  forallb p l = true -> Forall (fun md => p md = true) l.
Proof. intros E. apply List.Forall_forall. apply forallb_forall. exact E. Qed.

(** The parser on the text of the emitter *)
Lemma fromText_canonical_text gits forges deps pf0 w :
  token plain_char f = true ->
  forallb (git_ok id) gits = true -> forallb (forge_ok id) forges = true ->
  forallb (dependent_ok id) deps = true ->
  _dependencyIdentifier pf0 = id -> preamble pf0 = "" ->
  modules pf0 = [] -> dependentModules pf0 = [] ->
  exists p' w' gits' forges' deps',
    PuppetFile.fromText (canonical_text gits forges deps) pf0 w = (Ok p', w')
    /\ Loaded (gits' ++ forges') deps' p' w'
    /\ Forall2 same_git gits gits' /\ Forall2 same_forge forges forges'
    /\ Forall2 same_dependent deps deps'.
Proof.
  intros Hf Hgits Hforges Hdeps Hpf0 Hpreamble Hmodules Hdependents.
  destruct identifier_inv as (_ & Hterm & _ & Hheading1 & Hheading2).
  unfold PuppetFile.fromText, canonical_text.
  (* the line of the forge and the heading of the repository modules *)
  unfold bind at 1.
  rewrite parse_lines_line
    by (rewrite !all_chars_app, (token_chars plain_not_terminator Hf); reflexivity).
  rewrite (parse_line_forge _ _ _ _ _ Hf Hpf0).
  rewrite parse_blank_line by exact Hpf0.
  rewrite parse_lines_line by reflexivity.
  erewrite parse_line_comment; [|reflexivity|exact Hheading1|reflexivity|exact Hpf0].
  rewrite parse_blank_line by exact Hpf0.
  assert (Hloaded0 : LoadedAt false [] [] (PuppetFile.set_forge f pf0) w).
  { repeat split; cbn; auto; [rewrite Hmodules|rewrite Hdependents]; constructor. }
  (* the repository modules *)
  match goal with
  | |- context [PuppetFile.render_each PuppetFile.render_gitModule gits +:+ ?final] =>
      destruct (parse_section (R := same_git) (@git_block false final)
                  (forallb_Forall_ok Hgits) (flushes_nothing "" []) Hloaded0)
        as (d1 & i1 & cur1 & o1 & pf1 & w1 & these1 & gits' & E1 & Hflush1 & Hloaded1
        & Hsame1 & Hlist1)
  end.
  rewrite E1. clear E1.
  destruct (LoadedAt_forge Hloaded1) as [Hf1 Hpf1].
  rewrite parse_blank_line by exact Hpf1.
  rewrite parse_lines_line by reflexivity.
  erewrite parse_line_comment; [|reflexivity|exact Hheading2|reflexivity|exact Hpf1].
  rewrite parse_blank_line by exact Hpf1.
  (* the forge modules *)
  match goal with
  | |- context [PuppetFile.render_each PuppetFile.render_forgeModule forges +:+ ?final] =>
      destruct (parse_section (R := same_forge) (@forge_block final)
                  (forallb_Forall_ok Hforges) Hflush1 Hloaded1)
        as (d2 & i2 & cur2 & o2 & pf2 & w2 & these2 & forges' & E2 & Hflush2 & Hloaded2
        & Hsame2 & Hlist2)
  end.
  rewrite E2. clear E2.
  destruct (LoadedAt_forge Hloaded2) as [Hf2 Hpf2].
  (* the dependency identifier *)
  rewrite parse_blank_line by exact Hpf2.
  rewrite parse_lines_line by exact Hterm.
  rewrite (parse_line_identifier false [] w2 Hpf2 Hf2 Hflush2).
  pose proof (LoadedAt_flush o2 Hloaded2) as Hloaded3.
  destruct (LoadedAt_forge Hloaded3) as [Hf3 Hpf3].
  rewrite parse_blank_line by exact Hpf3.
  (* the dependent modules *)
  destruct (parse_section (R := same_dependent) dependent_block
              (forallb_Forall_ok Hdeps) (flushes_nothing "" []) Hloaded3)
    as (d4 & i4 & cur4 & o4 & pf4 & w4 & these4 & deps' & E4 & Hflush4 & Hloaded4
        & Hsame4 & Hlist4).
  rewrite E4. clear E4.
  destruct (LoadedAt_forge Hloaded4) as [Hf4 Hpf4].
  rewrite (parse_no_line _ _ _ _ _ Hpf4).
  unfold bind. rewrite (Hflush4 true [] pf4 w4 Hf4).
  pose proof (LoadedAt_flush o4 Hloaded4) as Hloaded5.
  exists (flushed_file true o4 pf4 w4), (flushed_world o4 w4), gits', forges', deps'.
  split; [reflexivity|].
  cbn [app pending_list] in Hlist1, Hlist4.
  rewrite app_assoc, Hlist1 in Hlist2.
  rewrite Hlist4, Hlist2 in Hloaded5.
  repeat split; auto; apply Hloaded5.
Qed.

End Parser.

(** *** The emitter on the modules of the parser *)

Lemma insert_by_name_Forall2 (R : ModuleDeclaration -> ModuleDeclaration -> Prop) :
  (forall x x', R x x' -> name x' = name x) ->
  forall x x' s s',
    R x x' -> Forall2 R s s' -> Forall2 R (insert_by_name x s) (insert_by_name x' s').
Proof.
  intros Hname x x' s s' Hx Hs.
  induction Hs as [|y y' s s' Hy Hs IH]; cbn [insert_by_name].
  - repeat constructor. exact Hx.
  - unfold name_leb. rewrite (Hname _ _ Hx), (Hname _ _ Hy).
    destruct (String.compare (name y) (name x)); repeat constructor; auto.
Qed.

Lemma sortByModuleName_Forall2 (R : ModuleDeclaration -> ModuleDeclaration -> Prop) :
  (forall x x', R x x' -> name x' = name x) ->
  forall l l', Forall2 R l l' -> Forall2 R (sortByModuleName l) (sortByModuleName l').
Proof.
  intros Hname l l' Hl. unfold sortByModuleName.
  assert (Hacc : Forall2 R [] []) by constructor. revert Hacc.
  generalize (@nil ModuleDeclaration) at 1 3. generalize (@nil ModuleDeclaration).
  induction Hl as [|x x' l l' Hx Hl IH]; intros acc' acc Hacc; cbn [fold_left]; [exact Hacc|].
  apply IH. apply insert_by_name_Forall2; assumption.
Qed.

Lemma render_each_Forall2 (R : ModuleDeclaration -> ModuleDeclaration -> Prop)
  (item : ModuleDeclaration -> bool -> string) :
  (forall x x', R x x' -> forall last, item x' last = item x last) ->
  forall l l', Forall2 R l l' ->
    PuppetFile.render_each item l' = PuppetFile.render_each item l.
Proof.
  intros Hitem l l' Hl. induction Hl as [|x x' l l' Hx Hl IH]; [reflexivity|].
  destruct Hl as [|y y' l l' Hy Hl].
  - cbn [PuppetFile.render_each]. apply Hitem. exact Hx.
  - change (PuppetFile.render_each item (x' :: y' :: l'))
      with (item x' false +:+ PuppetFile.render_each item (y' :: l')).
    change (PuppetFile.render_each item (x :: y :: l))
      with (item x false +:+ PuppetFile.render_each item (y :: l)).
    rewrite IH, (Hitem _ _ Hx). reflexivity.
Qed.

Lemma filter_all {A} (p : A -> bool) l :
  Forall (fun x => p x = true) l -> List.filter p l = l.
Proof.
  induction 1 as [|x l Hx _ IH]; [reflexivity|]. cbn [List.filter].
  rewrite Hx, IH. reflexivity.
Qed.

Lemma filter_none {A} (p : A -> bool) l :
  Forall (fun x => p x = false) l -> List.filter p l = [].
Proof.
  induction 1 as [|x l Hx _ IH]; [reflexivity|]. cbn [List.filter].
  rewrite Hx, IH. reflexivity.
Qed.

(** The top-level modules are those of the repositories, then those of the
    forge. *)
Lemma filter_modules (gits forges : list ModuleDeclaration) :
  Forall (fun md => forgeModule md = false) gits ->
  Forall (fun md => forgeModule md = true) forges ->
  List.filter (fun v => negb (forgeModule v)) (gits ++ forges) = gits
  /\ List.filter forgeModule (gits ++ forges) = forges.
Proof.
  intros Hgits Hforges. rewrite !List.filter_app. split.
  - rewrite filter_all, filter_none, app_nil_r; [reflexivity| |].
    + eapply Forall_impl; [exact Hforges|]. cbn. intros md ->. reflexivity.
    + eapply Forall_impl; [exact Hgits|]. cbn. intros md ->. reflexivity.
  - rewrite filter_none, filter_all; [reflexivity|exact Hforges|exact Hgits].
Qed.

(** [toText] on a file without preamble *)
Lemma toText_canonical_text (f id : string) (p : PuppetFile) (w : World)
  (gits forges deps : list ModuleDeclaration) :
  forge p = f -> preamble p = "" -> _dependencyIdentifier p = id ->
  token plain_char f = true -> escapeExpression id = id ->
  PuppetFile.read_modules (modules p) w = (Ok (gits ++ forges), w) ->
  PuppetFile.read_modules (dependentModules p) w = (Ok deps, w) ->
  Forall (fun md => forgeModule md = false) gits ->
  Forall (fun md => forgeModule md = true) forges ->
  PuppetFile.toText p w
  = (Ok (canonical_text f id (sortByModuleName gits) (sortByModuleName forges)
           (sortByModuleName deps)), w).
Proof.
  intros Hf Hpreamble Hid Htoken Hescape Hmodules Hdependents Hgits Hforges.
  unfold PuppetFile.toText.
  rewrite (bind_Ok Hmodules), (bind_Ok Hdependents).
  destruct (filter_modules Hgits Hforges) as [-> ->].
  rewrite Hf, Hpreamble, Hid, Hescape, (token_escape (fun c E => E) Htoken).
  unfold ret, canonical_text. cbn [String.eqb]. rewrite append_nil_l, append_nil_r.
  rewrite !append_assoc. reflexivity.
Qed.

Lemma Forall2_Forall_r {A B} (R : A -> B -> Prop) (P : B -> Prop) l l' :
  (forall x x', R x x' -> P x') -> Forall2 R l l' -> Forall P l'.
Proof. intros HR Hl. induction Hl; constructor; eauto. Qed.


(** A file with a preamble, and a file whose forge has a character that
    the emitter escapes: [fromText] on the text that [toText] gives for the
    file, and [toText] again, give another text. The preamble is not read
    back, and the escaped character is escaped once more. *)
Definition emitted_world : World :=
  {| heap := [ {| name := "default"; author := "test"; forgeModule := true;
                  version := Some "1.2.3"; git := None; ref := None; comments := None;
                  _availableVersions := []; _forgeApiUrl := Some "http://localhost";
                  _gitMetadata := None; _dependencies := None |} ];
     forgeCache := None; dependencyGraph := DirectedGraph.empty; warnings := [] |}.

Definition emitted_file (forgeUrl preambleText : string) : PuppetFile :=
  {| modules := [Some 0]; dependentModules := []; forge := forgeUrl;
     preamble := preambleText; _dependencyIdentifier := "## dependencies" |}.

Definition emitted_sections : string :=
  "# Git modules" +:+ nl +:+ nl +:+ nl
  +:+ "# Forge modules" +:+ nl +:+ nl
  +:+ "mod 'test-default', '1.2.3'" +:+ nl +:+ nl
  +:+ "## dependencies" +:+ nl +:+ nl.

(** [toText] on the file, then [fromText] and [toText] on the text *)
Definition emit_parse_emit `{Environment} (p : PuppetFile) (w : World)
  : Result (string * string) :=
  fst ((x <- PuppetFile.toText p ;;
        p' <- PuppetFile.fromText x new_PuppetFile ;;
        y <- PuppetFile.toText p' ;;
        ret (x, y)) w).


(** An environment in which the repositories can be cloned. *)
Definition repositoryForge : Environment :=
  {| semver_valid_range := SemverFragment.valid_range;
     semver_satisfies := SemverFragment.satisfies;
     http_get_module := fun _ => None;
     http_get_release := fun _ => None;
     git_fetch_metadata := fun _ _ =>
       inr {| meta_version := Some "0.1.2"; meta_dependencies := None |} |}.

(** The modules of the emitter test of [PuppetFile.test.ts]. *)
Definition canonical_module (forgeModule : bool) (n : string) (v : option string)
  (g r : option string) (cs : option (list string)) : ModuleDeclaration :=
  {| name := n; author := "test"; forgeModule := forgeModule; version := v; git := g;
     ref := r; comments := cs; _availableVersions := [];
     _forgeApiUrl := Some "http://localhost"; _gitMetadata := None;
     _dependencies := None |}.

Definition canonical_gits : list ModuleDeclaration :=
  [canonical_module false "git" None (Some "/tmp/repository") (Some "test") None].

Definition canonical_forges : list ModuleDeclaration :=
  [canonical_module true "default" (Some "1.2.3") None None None;
   canonical_module true "default2" (Some "1.2.3") None None
     (Some ["Some comment"; "before the module"])].

Definition canonical_deps : list ModuleDeclaration :=
  [canonical_module true "dependency" (Some "1.2.4") None None None].

Definition canonical_world : World :=
  {| heap := canonical_gits ++ canonical_forges ++ canonical_deps;
     forgeCache := None; dependencyGraph := DirectedGraph.empty; warnings := [] |}.

Definition canonical_file : PuppetFile :=
  {| modules := [Some 0; Some 1; Some 2]; dependentModules := [Some 3];
     forge := "http://localhost"; preamble := "";
     _dependencyIdentifier := "## dependencies" |}.

Definition canonical_sample : string :=
  "forge 'http://localhost'" +:+ nl +:+ nl
  +:+ "# Git modules" +:+ nl +:+ nl
  +:+ "mod 'test-git'," +:+ nl
  +:+ "    :git => '/tmp/repository'," +:+ nl
  +:+ "    :ref => 'test'" +:+ nl +:+ nl
  +:+ "# Forge modules" +:+ nl +:+ nl
  +:+ "mod 'test-default', '1.2.3'" +:+ nl +:+ nl
  +:+ "# Some comment" +:+ nl
  +:+ "# before the module" +:+ nl
  +:+ "mod 'test-default2', '1.2.3'" +:+ nl +:+ nl
  +:+ "## dependencies" +:+ nl +:+ nl
  +:+ "mod 'test-dependency', '1.2.4'".


(* ===================================================================== *)
(** * Further properties *)
(* ===================================================================== *)

(** ** RequirementsStore.deleteSourceRequirements *)

Lemma sublist_List_filter {A} (p : A -> bool) (l : list A) : sublist (List.filter p l) l.
Proof.
  induction l as [|x l IH]; [constructor|]. cbn [List.filter].
  destruct (p x); [apply sublist_skip|apply sublist_cons]; exact IH.
Qed.

(** X1. [deleteSourceRequirements] keeps, in their order, exactly the queued
    requirements that have a source module whose slug is not the given one:
    the requirements of that source go, and so does every requirement
    without a source module. The state is left as it is. *)
Theorem deleteSourceRequirements_keeps_other_sources (w : World) (sourceSlug : string)
  (this : RequirementsStore) :
  (forall value s, value ∈ _requirements this -> sourceModule value = Some s ->
                   is_Some (heap w !! s)) ->
  exists kept,
    RequirementsStore.deleteSourceRequirements sourceSlug this w
    = (Ok {| _requirements := kept; _puppetfile := _puppetfile this |}, w)
    /\ sublist kept (_requirements this)
    /\ forall value,
         value ∈ kept <->
         value ∈ _requirements this
         /\ exists s md, sourceModule value = Some s /\ heap w !! s = Some md
                         /\ getSlug md <> sourceSlug.
Proof.
  intros Hheap. eexists. split; [apply deleteSourceRequirements_filter; exact Hheap|].
  split; [apply sublist_List_filter|].
  intros value. rewrite list_elem_of_In, filter_In, <- list_elem_of_In.
  unfold kept_by_delete. split.
  - intros [Hin Hkept]. split; [exact Hin|].
    destruct (sourceModule value) as [s|]; [|discriminate].
    destruct (heap w !! s) as [md|] eqn:Hmd; [|discriminate].
    exists s, md. split; [reflexivity|]. split; [exact Hmd|].
    apply negb_true_iff in Hkept. apply String.eqb_neq. exact Hkept.
  - intros [Hin (s & md & -> & -> & Hne)]. split; [exact Hin|].
    apply negb_true_iff, String.eqb_neq. exact Hne.
Qed.

(** Two modules and a queue: a requirement of the manifest and two of
    dependencies. *)
Definition queue_world : World :=
  {| heap := [ {| name := "a"; author := "test"; forgeModule := true;
                  version := Some "1.0.0"; git := None; ref := None; comments := None;
                  _availableVersions := []; _forgeApiUrl := Some "http://localhost";
                  _gitMetadata := None; _dependencies := None |};
               {| name := "b"; author := "test"; forgeModule := true;
                  version := Some "2.0.0"; git := None; ref := None; comments := None;
                  _availableVersions := []; _forgeApiUrl := Some "http://localhost";
                  _gitMetadata := None; _dependencies := None |} ];
     forgeCache := None; dependencyGraph := DirectedGraph.empty; warnings := [] |}.

Definition queue_store : RequirementsStore :=
  {| _requirements :=
       [ {| targetModule := Some 1; sourceModule := None; source := Some Puppetfile;
            dependencyRange := Some (mkRange "=2.0.0") |};
         {| targetModule := Some 1; sourceModule := Some 0; source := Some Dependency;
            dependencyRange := Some (mkRange ">=1.0.0") |};
         {| targetModule := Some 0; sourceModule := Some 1; source := Some Dependency;
            dependencyRange := Some (mkRange ">=1.0.0") |} ];
     _puppetfile := None |}.

Lemma queue_store_heap value m :
  value ∈ _requirements queue_store ->
  sourceModule value = Some m \/ targetModule value = Some m ->
  is_Some (heap queue_world !! m).
Proof.
  intros Hvalue Hm.
  repeat (apply elem_of_cons in Hvalue; destruct Hvalue as [->|Hvalue]);
    try (apply elem_of_nil in Hvalue; contradiction);
    cbn in Hm; destruct Hm as [Hm|Hm]; try discriminate; injection Hm as <-; cbn; eauto.
Qed.

Lemma deleteSourceRequirements_keeps_other_sources_witness :
  exists kept,
    RequirementsStore.deleteSourceRequirements "test-b" queue_store queue_world
    = (Ok {| _requirements := kept; _puppetfile := None |}, queue_world)
    /\ kept = [ {| targetModule := Some 1; sourceModule := Some 0;
                   source := Some Dependency;
                   dependencyRange := Some (mkRange ">=1.0.0") |} ].
Proof.
  destruct (@deleteSourceRequirements_keeps_other_sources queue_world "test-b" queue_store)
    as (kept & E & _).
  - intros value s Hvalue Hs. apply (queue_store_heap Hvalue). left. exact Hs.
  - exists kept. split; [exact E|]. vm_compute in E. congruence.
Defined.

(** ** RequirementsStore.updateTargetVersion *)

Lemma for_each_set_version (v : string) (l : list Requirement) :
  forall w,
    (forall value t, value ∈ l -> targetModule value = Some t -> is_Some (heap w !! t)) ->
    exists h',
      for_each l (fun requirement =>
                    match targetModule requirement with
                    | Some t => update t (set_version (Some v))
                    | None => ret tt
                    end) w = (Ok tt, set_heap h' w)
      /\ length h' = length (heap w)
      /\ forall m md, heap w !! m = Some md ->
           h' !! m
           = Some (if existsb (fun value => bool_decide (targetModule value = Some m)) l
                   then set_version (Some v) md else md).
Proof.
  induction l as [|r rest IH]; intros w Hheap.
  - exists (heap w). split; [destruct w; reflexivity|]. split; [reflexivity|].
    intros m md Hm. exact Hm.
  - cbn [for_each existsb].
    assert (Hrest : forall w1,
               (forall m, is_Some (heap w !! m) -> is_Some (heap w1 !! m)) ->
               forall value t, value ∈ rest -> targetModule value = Some t ->
                               is_Some (heap w1 !! t)).
    { intros w1 Hw1 value t Hvalue Ht. apply Hw1.
      apply (Hheap value t); [right; exact Hvalue|exact Ht]. }
    destruct (targetModule r) as [t|] eqn:Ht.
    + destruct (Hheap r t) as [mdt Hmdt]; [left|exact Ht|].
      rewrite (bind_Ok (update_Ok _ Hmdt)).
      destruct (IH (set_heap (<[t := set_version (Some v) mdt]> (heap w)) w))
        as (h' & E & Hlen & Hlookup).
      { apply Hrest. intros m [md Hm]. cbn.
        destruct (decide (m = t)) as [->|Hne].
        - rewrite list_lookup_insert_eq by (eapply lookup_lt_Some; eauto). eauto.
        - rewrite list_lookup_insert_ne by congruence. eauto. }
      exists h'. split; [exact E|]. cbn in Hlen. rewrite length_insert in Hlen.
      split; [exact Hlen|].
      intros m md Hm. cbn in Hlookup.
      destruct (decide (t = m)) as [->|Hne].
      * rewrite (Hlookup m (set_version (Some v) md)).
        -- rewrite bool_decide_eq_true_2 by reflexivity. cbn [orb].
           destruct (existsb _ rest); reflexivity.
        -- rewrite list_lookup_insert_eq by (eapply lookup_lt_Some; eauto).
           congruence.
      * rewrite (Hlookup m md) by (rewrite list_lookup_insert_ne by congruence; exact Hm).
        rewrite (bool_decide_eq_false_2 (Some t = Some m)) by congruence. reflexivity.
    + unfold bind at 1, ret at 1.
      destruct (IH w) as (h' & E & Hlen & Hlookup); [apply Hrest; auto|].
      exists h'. split; [exact E|]. split; [exact Hlen|].
      intros m md Hm. rewrite (Hlookup m md Hm).
      rewrite (bool_decide_eq_false_2 (None = Some m)) by discriminate. reflexivity.
Qed.

(** The queued requirements whose target module has the given slug. *)
Definition targets_slug (w : World) (slug : string) (value : Requirement) : bool :=
  match targetModule value with
  | Some t => match heap w !! t with
              | Some md => String.eqb (getSlug md) slug
              | None => false
              end
  | None => false
  end.

Lemma filterM_targets_slug (w : World) (slug : string) (l : list Requirement) :
  (forall value t, value ∈ l -> targetModule value = Some t -> is_Some (heap w !! t)) ->
  filterM (fun value =>
             t <- optional_slug (targetModule value) ;;
             ret (bool_decide (t = Some slug))) l w
  = (Ok (List.filter (targets_slug w slug) l), w).
Proof.
  induction l as [|value rest IH]; intros Hheap; [reflexivity|].
  cbn [filterM List.filter].
  assert (Hp : (t <- optional_slug (targetModule value) ;;
                ret (bool_decide (t = Some slug))) w
               = (Ok (targets_slug w slug value), w)).
  { unfold targets_slug. destruct (targetModule value) as [t|] eqn:Ht; cbn [optional_slug].
    - destruct (Hheap value t) as [md Hmd]; [left|exact Ht|].
      rewrite (bind_Ok (bind_Ok (k := fun md => ret (Some (getSlug md))) (deref_Ok Hmd))).
      rewrite Hmd. unfold ret. f_equal. f_equal.
      destruct (String.eqb_spec (getSlug md) slug) as [->|Hne].
      + apply bool_decide_eq_true_2. reflexivity.
      + apply bool_decide_eq_false_2. congruence.
    - reflexivity. }
  rewrite (bind_Ok Hp).
  rewrite (bind_Ok (IH (fun v t Hv => Hheap v t (list_elem_of_further _ _ _ Hv)))).
  unfold ret. destruct (targets_slug w slug value); reflexivity.
Qed.

(** The requirements with the slug are found through the heap, and their
    targets are assigned the version. *)
Lemma updateTargetVersion_run (slug v : string) (this : RequirementsStore) (w : World) :
  (forall value t, value ∈ _requirements this -> targetModule value = Some t ->
                   is_Some (heap w !! t)) ->
  exists h',
    RequirementsStore.updateTargetVersion slug v this w = (Ok tt, set_heap h' w)
    /\ length h' = length (heap w)
    /\ forall m md, heap w !! m = Some md ->
         h' !! m
         = Some (if existsb (fun value => bool_decide (targetModule value = Some m))
                      (List.filter (targets_slug w slug) (_requirements this))
                 then set_version (Some v) md else md).
Proof.
  intros Hheap. unfold RequirementsStore.updateTargetVersion.
  rewrite (bind_Ok (filterM_targets_slug slug Hheap)).
  apply for_each_set_version.
  intros value t Hvalue. apply list_elem_of_In, filter_In in Hvalue.
  apply Hheap, list_elem_of_In, Hvalue.
Qed.

(** X2. [updateTargetVersion] assigns the version to every module that is
    the target of a queued requirement and has the given slug, and to no
    other module; the queue, the graph and the cache are left alone. The
    modules are shared: whoever holds such a module sees the new version. *)
Theorem updateTargetVersion_sets_versions (slug v : string) (this : RequirementsStore)
  (w : World) :
  (forall value t, value ∈ _requirements this -> targetModule value = Some t ->
                   is_Some (heap w !! t)) ->
  exists h',
    RequirementsStore.updateTargetVersion slug v this w = (Ok tt, set_heap h' w)
    /\ length h' = length (heap w)
    /\ forall m md, heap w !! m = Some md ->
         exists md', h' !! m = Some md'
           /\ ((exists value, value ∈ _requirements this /\ targetModule value = Some m)
               /\ getSlug md = slug -> md' = set_version (Some v) md)
           /\ (~ ((exists value, value ∈ _requirements this /\ targetModule value = Some m)
                  /\ getSlug md = slug) -> md' = md).
Proof.
  intros Hheap.
  destruct (updateTargetVersion_run slug v Hheap) as (h' & E & Hlen & Hlookup).
  exists h'. split; [exact E|]. split; [exact Hlen|].
  intros m md Hm. eexists. split; [apply (Hlookup m md Hm)|].
  destruct (existsb _ _) eqn:Hex.
  - split; [reflexivity|]. intros Hnot. exfalso. apply Hnot.
    apply existsb_exists in Hex. destruct Hex as (value & Hvalue & Ht).
    apply bool_decide_eq_true_1 in Ht. apply filter_In in Hvalue.
    destruct Hvalue as [Hvalue Hslug]. split.
    + exists value. split; [apply list_elem_of_In; exact Hvalue|exact Ht].
    + unfold targets_slug in Hslug. rewrite Ht, Hm in Hslug.
      apply String.eqb_eq. exact Hslug.
  - split; [|reflexivity]. intros [(value & Hvalue & Ht) Hslug]. exfalso.
    apply not_true_iff_false in Hex. apply Hex, existsb_exists.
    exists value. split.
    + apply filter_In. split; [apply list_elem_of_In; exact Hvalue|].
      unfold targets_slug. rewrite Ht, Hm. apply String.eqb_eq. exact Hslug.
    + apply bool_decide_eq_true_2. exact Ht.
Qed.

Lemma updateTargetVersion_sets_versions_witness :
  exists h',
    RequirementsStore.updateTargetVersion "test-b" "1.5.0" queue_store queue_world
    = (Ok tt, set_heap h' queue_world)
    /\ List.map version h' = [Some "1.0.0"; Some "1.5.0"].
Proof.
  destruct (@updateTargetVersion_sets_versions "test-b" "1.5.0" queue_store queue_world)
    as (h' & E & _).
  - intros value t Hvalue Ht. apply (queue_store_heap Hvalue). right. exact Ht.
  - exists h'. split; [exact E|]. vm_compute in E. injection E as <-. reflexivity.
Defined.

(** ** ForgeCache *)

Lemma factory_inv url w c w' :
  ForgeCache.factory url w = (Ok c, w') ->
  forgeCache w' = Some c
  /\ (forgeCache w = Some c /\ w' = w
      \/ forgeCache w = None /\ cache_forgeApiUrl c = url
         /\ w' = set_forgeCache (Some c) w).
Proof.
  unfold ForgeCache.factory, bind, get.
  destruct (forgeCache w) as [c0|] eqn:Hc; intros E; inversion E; subst.
  - auto.
  - cbn. split; [reflexivity|]. right. auto.
Qed.

Lemma getModuleData_inv `{Environment} url a n w data w' :
  ForgeCache.getModuleData url a n w = (Ok data, w') ->
  exists c', forgeCache w' = Some c'
             /\ _forgeModuleData c' !! (a +:+ "-" +:+ n) = Some data.
Proof.
  unfold ForgeCache.getModuleData. intros E.
  apply bind_inv_Ok in E. destruct E as (c & w1 & Hfactory & E).
  apply factory_inv in Hfactory. destruct Hfactory as [Hc _].
  destruct (_forgeModuleData c !! (a +:+ "-" +:+ n)) as [cached|] eqn:Hcached.
  - inversion E; subst. eauto.
  - destruct (http_get_module _) as [fetched|]; [|discriminate].
    inversion E; subst. eexists. split; [reflexivity|].
    cbn. apply lookup_insert_eq.
Qed.

Lemma getModuleData_cached `{Environment} url a n w c data :
  forgeCache w = Some c -> _forgeModuleData c !! (a +:+ "-" +:+ n) = Some data ->
  ForgeCache.getModuleData url a n w = (Ok data, w).
Proof.
  intros Hc Hdata. unfold ForgeCache.getModuleData.
  rewrite (bind_Ok (factory_Some url Hc)), Hdata. reflexivity.
Qed.

(** X3. The release list of a module is fetched once: after a call of
    [getReleases] that returned, every further call for the module, through
    whatever forge URL, returns the same list and changes nothing. *)
Theorem getReleases_caches `{Environment} (url a n : string) (w w' : World)
  (l : list string) :
  ForgeCache.getReleases url a n w = (Ok l, w') ->
  forall url', ForgeCache.getReleases url' a n w' = (Ok l, w').
Proof.
  unfold ForgeCache.getReleases at 1. intros E url'.
  apply bind_inv_Ok in E. destruct E as (c & w1 & Hfactory & E).
  apply factory_inv in Hfactory. destruct Hfactory as [Hc _].
  destruct (_releases c !! (a +:+ "-" +:+ n)) as [cached|] eqn:Hcached.
  - inversion E; subst. apply (getReleases_cached _ Hc Hcached).
  - apply bind_inv_Ok in E. destruct E as (data & w2 & Hdata & E).
    apply bind_inv_Ok in E. destruct E as (c2 & w3 & Hfactory2 & E).
    apply bind_inv_Ok in E. destruct E as ([] & w4 & Hstore & E).
    inversion E; subst. inversion Hstore; subst.
    eapply getReleases_cached; [reflexivity|]. cbn. apply lookup_insert_eq.
Qed.

(** A forge that knows the module [test-a] with two releases. *)
Definition cacheForge : Environment :=
  Scenario.stub
    [ (Scenario.moduleUrl "test-a", Scenario.released ["2.0.0"; "1.0.0"]) ]
    [ (Scenario.releaseUrl "test-a-2.0.0", [Scenario.needs "test/b" ">= 1.0.0"]) ].

Lemma getReleases_caches_witness :
  exists w',
    ForgeCache.getReleases (H := cacheForge) Scenario.forgeUrl "test" "a" Scenario.start
    = (Ok ["2.0.0"; "1.0.0"], w')
    /\ ForgeCache.getReleases (H := cacheForge) "http://elsewhere" "test" "a" w'
       = (Ok ["2.0.0"; "1.0.0"], w').
Proof.
  eexists. split; [vm_compute; reflexivity|].
  apply (@getReleases_caches cacheForge Scenario.forgeUrl "test" "a" Scenario.start).
  vm_compute. reflexivity.
Defined.

(** X4. The cache is a singleton that keeps the forge URL it was created
    with: once it exists, the URL that a caller passes plays no part, and the
    module data, the releases and the dependencies are requested from the
    URL of the cache. *)
Theorem forge_url_of_the_cache_wins `{Environment} (w : World) (c : ForgeCache)
  (url a n : string) (v : option string) :
  forgeCache w = Some c ->
  ForgeCache.getModuleData url a n w = ForgeCache.getModuleData (cache_forgeApiUrl c) a n w
  /\ ForgeCache.getReleases url a n w = ForgeCache.getReleases (cache_forgeApiUrl c) a n w
  /\ ForgeCache.getDependencies url a n v w
     = ForgeCache.getDependencies (cache_forgeApiUrl c) a n v w
  /\ (_forgeModuleData c !! (a +:+ "-" +:+ n) = None ->
      http_get_module (cache_forgeApiUrl c +:+ "/v3/modules/" +:+ a +:+ "-" +:+ n) = None ->
      ForgeCache.getModuleData url a n w
      = (Err (RequestError
                (cache_forgeApiUrl c +:+ "/v3/modules/" +:+ a +:+ "-" +:+ n)), w)).
Proof.
  intros Hc.
  assert (Hdata : forall url', ForgeCache.getModuleData url' a n w
                               = ForgeCache.getModuleData (cache_forgeApiUrl c) a n w).
  { intros url'. unfold ForgeCache.getModuleData.
    rewrite !(bind_Ok (factory_Some _ Hc)). reflexivity. }
  split; [apply Hdata|]. split; [|split].
  - unfold ForgeCache.getReleases. rewrite !(bind_Ok (factory_Some _ Hc)).
    destruct (_releases c !! (a +:+ "-" +:+ n)); [reflexivity|].
    destruct (ForgeCache.getModuleData (cache_forgeApiUrl c) a n w)
      as [[data|e] w1] eqn:E.
    + rewrite (bind_Ok E), (bind_Ok (Hdata url)).
      destruct (getModuleData_inv E) as (c1 & Hc1 & _).
      rewrite !(bind_Ok (factory_Some _ Hc1)). reflexivity.
    + rewrite (bind_Err E), (bind_Err (Hdata url)). reflexivity.
  - unfold ForgeCache.getDependencies. rewrite !(bind_Ok (factory_Some _ Hc)).
    reflexivity.
  - intros Hnone Hrequest. unfold ForgeCache.getModuleData.
    rewrite (bind_Ok (factory_Some _ Hc)), Hnone, Hrequest. reflexivity.
Qed.

(** The cache that the first call creates, for the forge [http://first]. *)
Definition first_cache : ForgeCache :=
  {| cache_forgeApiUrl := "http://first"; _releases := ∅; _forgeModuleData := ∅;
     cache_dependencies := ∅ |}.

Lemma forge_url_of_the_cache_wins_witness :
  ForgeCache.factory "http://first" Scenario.start
  = (Ok first_cache, set_forgeCache (Some first_cache) Scenario.start)
  /\ ForgeCache.getModuleData (H := cacheForge) Scenario.forgeUrl "test" "a"
       (set_forgeCache (Some first_cache) Scenario.start)
     = (Err (RequestError "http://first/v3/modules/test-a"),
        set_forgeCache (Some first_cache) Scenario.start).
Proof.
  split; [reflexivity|].
  refine (proj2 (proj2 (proj2
            (@forge_url_of_the_cache_wins cacheForge
               (set_forgeCache (Some first_cache) Scenario.start) first_cache
               Scenario.forgeUrl "test" "a" None eq_refl))) _ _); reflexivity.
Defined.

(** X5. The dependencies of a release are fetched once: after a call of
    [getDependencies] that returned, every further call for the same module
    and version returns the same list and changes nothing. *)
Theorem getDependencies_caches `{Environment} (url a n : string) (v : option string)
  (w w' : World) (l : list ForgeDependency) :
  ForgeCache.getDependencies url a n v w = (Ok l, w') ->
  forall url', ForgeCache.getDependencies url' a n v w' = (Ok l, w').
Proof.
  unfold ForgeCache.getDependencies at 1. intros E url'.
  apply bind_inv_Ok in E. destruct E as (c & w1 & Hfactory & E).
  apply factory_inv in Hfactory. destruct Hfactory as [Hc _].
  destruct (cache_dependencies c !! _) as [cached|] eqn:Hcached.
  - inversion E; subst. unfold ForgeCache.getDependencies.
    rewrite (bind_Ok (factory_Some _ Hc)), Hcached. reflexivity.
  - destruct (http_get_release _) as [fetched|]; [|discriminate].
    inversion E; subst. unfold ForgeCache.getDependencies.
    match goal with
    | |- context [set_forgeCache (Some ?c') w1] =>
        rewrite (bind_Ok (factory_Some (w := set_forgeCache (Some c') w1)
                            (c := c') url' eq_refl))
    end.
    cbn [cache_dependencies]. rewrite lookup_insert_eq. reflexivity.
Qed.

Lemma getDependencies_caches_witness :
  exists w',
    ForgeCache.getDependencies (H := cacheForge) Scenario.forgeUrl "test" "a"
      (Some "2.0.0") Scenario.start
    = (Ok [Scenario.needs "test/b" ">= 1.0.0"], w')
    /\ ForgeCache.getDependencies (H := cacheForge) Scenario.forgeUrl "test" "a"
         (Some "2.0.0") w'
       = (Ok [Scenario.needs "test/b" ">= 1.0.0"], w').
Proof.
  eexists. split; [vm_compute; reflexivity|].
  apply (@getDependencies_caches cacheForge Scenario.forgeUrl "test" "a" (Some "2.0.0")
           Scenario.start).
  vm_compute. reflexivity.
Defined.

(** ** ModuleDeclaration: the list of available versions *)

(** X6. [getNextAvailableVersion] takes the first version off the cached
    release list of the module and returns it; [addAvailableVersion] with
    that version puts it back: the two calls leave the state as it was. *)
Theorem getNextAvailableVersion_addAvailableVersion `{Environment} (w : World)
  (md : ModuleDeclaration) (c : ForgeCache) (url v : string) (rest : list string) :
  url <> "" -> _forgeApiUrl md = Some url ->
  forgeCache w = Some c -> _releases c !! getSlug md = Some (v :: rest) ->
  exists w1 c1,
    ModuleDeclaration.getNextAvailableVersion md w = (Ok (Some v), w1)
    /\ forgeCache w1 = Some c1 /\ _releases c1 !! getSlug md = Some rest
    /\ ModuleDeclaration.addAvailableVersion v md w1 = (Ok tt, w).
Proof.
  intros Hurl Hu Hc Hl.
  eexists _, _. split; [apply (getNextAvailableVersion_cached Hurl Hu Hc Hl)|].
  split; [reflexivity|]. split; [cbn; apply lookup_insert_eq|].
  erewrite (addAvailableVersion_cached Hurl Hu); [|reflexivity|cbn; apply lookup_insert_eq].
  cbn. rewrite insert_insert_eq, (insert_id _ _ _ Hl).
  destruct w, c. cbn in *. rewrite Hc. reflexivity.
Qed.

(** A cache that holds the releases of [test-a], and the module. *)
Definition released_cache : ForgeCache :=
  {| cache_forgeApiUrl := Scenario.forgeUrl;
     _releases := {[ "test-a" := ["2.0.0"; "1.0.0"] ]};
     _forgeModuleData := ∅; cache_dependencies := ∅ |}.

Definition released_world : World :=
  set_forgeCache (Some released_cache) Scenario.start.

Definition released_module : ModuleDeclaration :=
  {| name := "a"; author := "test"; forgeModule := true; version := None;
     git := None; ref := None; comments := None; _availableVersions := [];
     _forgeApiUrl := Some Scenario.forgeUrl; _gitMetadata := None;
     _dependencies := None |}.

Lemma getNextAvailableVersion_addAvailableVersion_witness :
  exists w1,
    ModuleDeclaration.getNextAvailableVersion (H := cacheForge) released_module
      released_world = (Ok (Some "2.0.0"), w1)
    /\ ModuleDeclaration.addAvailableVersion (H := cacheForge) "2.0.0" released_module w1
       = (Ok tt, released_world).
Proof.
  destruct (@getNextAvailableVersion_addAvailableVersion cacheForge released_world
              released_module released_cache Scenario.forgeUrl "2.0.0" ["1.0.0"])
    as (w1 & c1 & Enext & _ & _ & Eadd).
  - discriminate.
  - reflexivity.
  - reflexivity.
  - vm_compute. reflexivity.
  - exists w1. split; assumption.
Defined.

(** ** DependencyResolver._checkDeprecationStatus *)

(** The status that the cache builds from the data of a deprecated module. *)
Definition deprecation_of (data : ForgeModuleData) : DeprecationStatus :=
  {| deprecatedAt := template (deprecated_at data);
     deprecatedFor := nullish (deprecated_for data) "";
     supersededBy := match superseded_by data with
                     | Some s => Some s
                     | None => Some ""
                     end |}.


(** The deprecated module of the test forge. *)
Definition deprecated_world : World :=
  {| heap := [ {| name := "deprecated"; author := "test"; forgeModule := true;
                  version := Some "1.2.3"; git := None; ref := None; comments := None;
                  _availableVersions := []; _forgeApiUrl := Some Scenario.forgeUrl;
                  _gitMetadata := None; _dependencies := None |} ];
     forgeCache := None; dependencyGraph := DirectedGraph.empty; warnings := [] |}.

Definition deprecated_status : DeprecationStatus :=
  {| deprecatedAt := "2023-06-12T12:14:00.000Z"; deprecatedFor := "some reason";
     supersededBy := Some "other-module" |}.

Definition deprecated_data : ForgeModuleData :=
  {| releases := Some ["1.2.3"]; deprecated_at := Some "2023-06-12T12:14:00.000Z";
     deprecated_for := Some "some reason"; superseded_by := Some "other-module" |}.

(** The state after the request for the data of the module. *)
Definition deprecated_requested : World :=
  set_forgeCache
    (Some {| cache_forgeApiUrl := Scenario.forgeUrl; _releases := ∅;
             _forgeModuleData := {[ "test-deprecated" := deprecated_data ]};
             cache_dependencies := ∅ |})
    deprecated_world.


(** ** Requirement.getNewVersion: what a successful search leaves behind *)

(** X8. When [getNewVersion] returns, the value is the version that the
    target module now has, the graph validates the target at that version,
    and the search has changed neither the graph, nor the log, nor the
    author, name or version of any other module. *)
Theorem getNewVersion_returns_validated_version `{Environment} (fuel : nat)
  (r : Requirement) (t : mref) (v : string) (w w' : World) :
  targetModule r = Some t ->
  Requirement.getNewVersion fuel r w = (Ok v, w') ->
  dependencyGraph w' = dependencyGraph w
  /\ warnings w' = warnings w
  /\ (exists md', heap w' !! t = Some md'
                  /\ v = nullish (version md') ""
                  /\ DependencyGraph.isValid md' (dependencyGraph w') = Ok true)
  /\ (forall m md, m <> t -> heap w !! m = Some md ->
        exists md', heap w' !! m = Some md'
                    /\ author md' = author md /\ name md' = name md
                    /\ version md' = version md).
Proof.
  intros Ht E.
  destruct (getNewVersion_frame Ht E) as (Hg & Hl & Hh).
  destruct (getNewVersion_valid Ht E) as (md' & Hmd' & Hvalid).
  split; [exact Hg|]. split; [exact Hl|]. split.
  - exists md'. split; [exact Hmd'|]. split; [|exact Hvalid].
    unfold Requirement.getNewVersion in E. rewrite Ht in E.
    apply bind_inv_Ok in E. destruct E as (md & w0 & _ & E).
    unfold bind at 1, get at 1 in E.
    apply bind_inv_Ok in E. destruct E as (valid & w1 & _ & E).
    apply bind_inv_Ok in E. destruct E as ([] & w2 & _ & E).
    apply bind_inv_Ok in E. destruct E as (md2 & w3 & Hmd2 & E).
    apply deref_inv in Hmd2. destruct Hmd2 as [-> Hmd2].
    inversion E; subst. rewrite Hmd' in Hmd2. injection Hmd2 as <-. reflexivity.
  - intros m md Hne Hm. destruct (Hh m md Hm) as (md1 & Hm1 & Ha & Hn & Hv).
    exists md1. auto.
Qed.

(** The module [test-a] at 2.0.0, which the manifest requires below 2.0.0,
    and a second module. *)
Definition mismatch_requirement : Requirement :=
  {| targetModule := Some 0; sourceModule := None; source := Some Puppetfile;
     dependencyRange := Some (mkRange "<2.0.0") |}.

Definition mismatch_world : World :=
  {| heap := [ set_version (Some "2.0.0") released_module;
               {| name := "b"; author := "test"; forgeModule := true;
                  version := Some "2.0.0"; git := None; ref := None; comments := None;
                  _availableVersions := []; _forgeApiUrl := Some Scenario.forgeUrl;
                  _gitMetadata := None; _dependencies := None |} ];
     forgeCache := Some released_cache;
     dependencyGraph :=
       {| nodes := [("puppetfile", None); ("test-a", Some 0)];
          edges := [mkEdge "puppetfile.test-a" "puppetfile" "test-a" mismatch_requirement] |};
     warnings := [] |}.

Lemma getNewVersion_returns_validated_version_witness :
  exists w',
    Requirement.getNewVersion (H := cacheForge) 3 mismatch_requirement mismatch_world
    = (Ok "1.0.0", w')
    /\ dependencyGraph w' = dependencyGraph mismatch_world
    /\ option_map version (heap w' !! 1) = Some (Some "2.0.0").
Proof.
  destruct (Requirement.getNewVersion (H := cacheForge) 3 mismatch_requirement
              mismatch_world) as [r w'] eqn:E.
  assert (Hr : r = Ok "1.0.0") by (vm_compute in E; congruence).
  subst r. exists w'. split; [reflexivity|].
  destruct (@getNewVersion_returns_validated_version cacheForge 3 mismatch_requirement 0
              "1.0.0" mismatch_world w' eq_refl E) as (Hg & _ & _ & Hothers).
  split; [exact Hg|].
  destruct (Hothers 1 _ ltac:(discriminate) eq_refl) as (md' & Hm & _ & _ & Hv).
  rewrite Hm. cbn [option_map]. rewrite Hv. reflexivity.
Defined.

(** ** DependencyResolver._addToGraph *)

Lemma bind_ret {A B} (a : A) (k : A -> M B) w : bind (ret a) k w = k a w.
Proof. reflexivity. Qed.

Lemma bind_get {B} (k : World -> M B) w : bind get k w = k w w.
Proof. reflexivity. Qed.

(** The edges carry the key that [getEdgeId] builds: source and target,
    separated by a dot. *)
Definition well_keyed (g : Graph) : Prop :=
  forall e, e ∈ edges g -> edge_key e = edge_source e +:+ "." +:+ edge_target e.

(** A requirement as the store and the resolver build it: the target is an
    object, and the source is the manifest (and there is no source module) or
    a module that is an object. [sourceKey] and [targetKey] are the keys of
    its nodes. *)
Definition well_formed (w : World) (r : Requirement) (sourceKey targetKey : string)
  : Prop :=
  (exists t md, targetModule r = Some t /\ heap w !! t = Some md
                /\ targetKey = getSlug md)
  /\ (source r = Some Puppetfile /\ sourceModule r = None /\ sourceKey = "puppetfile"
      \/ source r = Some Dependency
         /\ exists s md, sourceModule r = Some s /\ heap w !! s = Some md
                         /\ sourceKey = getSlug md).

Lemma ensure_node_run key module w :
  exists w',
    (if negb (DirectedGraph.hasNode key (dependencyGraph w))
     then DependencyResolver.on_graph (DirectedGraph.addNode key module)
     else ret tt) w = (Ok tt, w')
    /\ heap w' = heap w /\ warnings w' = warnings w
    /\ edges (dependencyGraph w') = edges (dependencyGraph w)
    /\ DirectedGraph.hasNode key (dependencyGraph w') = true
    /\ (forall k, DirectedGraph.hasNode k (dependencyGraph w) = true ->
                  DirectedGraph.hasNode k (dependencyGraph w') = true)
    /\ (DirectedGraph.hasNode key (dependencyGraph w) = true -> w' = w).
Proof.
  destruct (DirectedGraph.hasNode key (dependencyGraph w)) eqn:Hk; cbn [negb].
  - exists w. repeat split; auto.
  - eexists. split.
    { unfold DependencyResolver.on_graph, bind, get, lift, modify, DirectedGraph.addNode.
      rewrite Hk. reflexivity. }
    cbn [heap warnings dependencyGraph set_graph edges]. repeat split.
    + rewrite hasNode_app. cbn. rewrite String.eqb_refl. apply orb_true_r.
    + intros k Hk'. rewrite hasNode_app, Hk'. reflexivity.
    + discriminate.
Qed.

Lemma hasEdge_key (g : Graph) (e : Edge) :
  e ∈ edges g -> DirectedGraph.hasEdge (edge_key e) g = true.
Proof.
  intros He. unfold DirectedGraph.hasEdge. apply existsb_exists. exists e.
  split; [apply list_elem_of_In; exact He|apply String.eqb_refl].
Qed.

Lemma ensure_edge_run (r : Requirement) (sourceKey targetKey : string) (w : World) :
  well_keyed (dependencyGraph w) ->
  DirectedGraph.hasNode sourceKey (dependencyGraph w) = true ->
  DirectedGraph.hasNode targetKey (dependencyGraph w) = true ->
  RequirementBuilder.getEdgeId r w = (Ok (sourceKey +:+ "." +:+ targetKey), w) ->
  exists w',
    (if negb (DirectedGraph.hasEdge (sourceKey +:+ "." +:+ targetKey) (dependencyGraph w))
     then edgeId <- RequirementBuilder.getEdgeId r ;;
          DependencyResolver.on_graph
            (DirectedGraph.addDirectedEdgeWithKey edgeId sourceKey targetKey
               (RequirementBuilder.getEdgeAttributes r))
     else ret tt) w = (Ok tt, w')
    /\ heap w' = heap w /\ warnings w' = warnings w
    /\ nodes (dependencyGraph w') = nodes (dependencyGraph w)
    /\ well_keyed (dependencyGraph w')
    /\ DirectedGraph.hasEdge (sourceKey +:+ "." +:+ targetKey) (dependencyGraph w') = true
    /\ (DirectedGraph.hasEdge (sourceKey +:+ "." +:+ targetKey) (dependencyGraph w) = true ->
        w' = w).
Proof.
  intros Hkeys Hs Ht Hid.
  destruct (DirectedGraph.hasEdge _ (dependencyGraph w)) eqn:He; cbn [negb].
  - exists w. repeat split; auto.
  - assert (Hnone : existsb (fun e => String.eqb (edge_source e) sourceKey
                                      && String.eqb (edge_target e) targetKey)
                      (edges (dependencyGraph w)) = false).
    { apply not_true_is_false. intros Hex. apply existsb_exists in Hex.
      destruct Hex as (e & Hin & Hst). apply andb_prop in Hst. destruct Hst as [Hes Het].
      apply String.eqb_eq in Hes. apply String.eqb_eq in Het.
      apply list_elem_of_In in Hin.
      pose proof (hasEdge_key Hin) as Hkey.
      rewrite (Hkeys e Hin), Hes, Het, He in Hkey. discriminate. }
    eexists. split.
    { rewrite (bind_Ok Hid).
      unfold DependencyResolver.on_graph, bind, get, lift, modify,
        DirectedGraph.addDirectedEdgeWithKey.
      rewrite Hs, Ht, He, Hnone. reflexivity. }
    cbn. repeat split.
    + intros e Hin. apply elem_of_app in Hin. destruct Hin as [Hin|Hin]; [auto|].
      apply list_elem_of_singleton in Hin. subst e. reflexivity.
    + unfold DirectedGraph.hasEdge. cbn. rewrite existsb_app. cbn.
      rewrite String.eqb_refl. apply orb_true_r.
    + discriminate.
Qed.

(** X9. On a graph whose edges carry the keys that [getEdgeId] builds,
    [_addToGraph] returns for every requirement as the resolver builds it,
    and afterwards the graph has the node of the source, the node of the
    target and the edge between them under its key; modules and log are
    untouched, the keys of the edges are still the built ones, and adding the
    requirement a second time changes nothing. *)
Theorem addToGraph_adds_once (r : Requirement) (sourceKey targetKey : string)
  (w : World) :
  well_formed w r sourceKey targetKey ->
  well_keyed (dependencyGraph w) ->
  exists w',
    DependencyResolver._addToGraph r w = (Ok tt, w')
    /\ heap w' = heap w /\ warnings w' = warnings w
    /\ well_keyed (dependencyGraph w')
    /\ DirectedGraph.hasNode sourceKey (dependencyGraph w') = true
    /\ DirectedGraph.hasNode targetKey (dependencyGraph w') = true
    /\ DirectedGraph.hasEdge (sourceKey +:+ "." +:+ targetKey) (dependencyGraph w') = true
    /\ DependencyResolver._addToGraph r w' = (Ok tt, w').
Proof.
  assert (Hrun : forall w,
    well_formed w r sourceKey targetKey ->
    well_keyed (dependencyGraph w) ->
    exists w',
      DependencyResolver._addToGraph r w = (Ok tt, w')
      /\ heap w' = heap w /\ warnings w' = warnings w
      /\ well_keyed (dependencyGraph w')
      /\ DirectedGraph.hasNode sourceKey (dependencyGraph w') = true
      /\ DirectedGraph.hasNode targetKey (dependencyGraph w') = true
      /\ DirectedGraph.hasEdge (sourceKey +:+ "." +:+ targetKey) (dependencyGraph w') = true
      /\ (DirectedGraph.hasNode sourceKey (dependencyGraph w) = true ->
          DirectedGraph.hasNode targetKey (dependencyGraph w) = true ->
          DirectedGraph.hasEdge (sourceKey +:+ "." +:+ targetKey) (dependencyGraph w) = true ->
          w' = w)).
  { clear w. intros w ((t & md & Ht & Hmd & ->) & Hsource) Hkeys.
    unfold DependencyResolver._addToGraph.
    assert (Hfirst : exists s,
      optional_slug (sourceModule r) w = (Ok s, w)
      /\ nullish s "puppetfile" = sourceKey
      /\ (forall w0, heap w0 = heap w ->
            RequirementBuilder.getEdgeId r w0
            = (Ok (sourceKey +:+ "." +:+ getSlug md), w0))
      /\ exists w1,
           match source r with
           | Some Dependency =>
               if negb (DirectedGraph.hasNode (template s) (dependencyGraph w)) then
                 DependencyResolver.on_graph
                   (DirectedGraph.addNode (template s) (sourceModule r))
               else ret tt
           | Some Puppetfile =>
               if negb (DirectedGraph.hasNode "puppetfile" (dependencyGraph w)) then
                 DependencyResolver.on_graph (DirectedGraph.addNode "puppetfile" None)
               else ret tt
           | None => ret tt
           end w = (Ok tt, w1)
           /\ heap w1 = heap w /\ warnings w1 = warnings w
           /\ edges (dependencyGraph w1) = edges (dependencyGraph w)
           /\ DirectedGraph.hasNode sourceKey (dependencyGraph w1) = true
           /\ (forall k, DirectedGraph.hasNode k (dependencyGraph w) = true ->
                         DirectedGraph.hasNode k (dependencyGraph w1) = true)
           /\ (DirectedGraph.hasNode sourceKey (dependencyGraph w) = true -> w1 = w)).
    { destruct Hsource as [(Hs & Hm & ->) | (Hs & s & smd & Hm & Hsmd & ->)];
        rewrite Hs, Hm; cbn [optional_slug].
      - exists None. split; [reflexivity|]. split; [reflexivity|]. split.
        + intros w0 Hw0. unfold RequirementBuilder.getEdgeId. rewrite Hs, Ht.
          rewrite bind_ret. cbn [optional_slug].
          rewrite <- Hw0 in Hmd. rewrite (bind_Ok (bind_Ok (deref_Ok Hmd))). reflexivity.
        + apply ensure_node_run.
      - exists (Some (getSlug smd)). split; [rewrite (bind_Ok (deref_Ok Hsmd)); reflexivity|].
        split; [reflexivity|]. split.
        + intros w0 Hw0. unfold RequirementBuilder.getEdgeId. rewrite Hs, Hm, Ht.
          cbn [optional_slug]. rewrite <- Hw0 in Hmd, Hsmd.
          rewrite (bind_Ok (bind_Ok (deref_Ok Hsmd))).
          rewrite (bind_Ok (bind_Ok (deref_Ok Hmd))). reflexivity.
        + cbn [template]. apply ensure_node_run. }
    destruct Hfirst as (s & Hslug & Hkey & Hid & w1 & E1 & Hh1 & Hl1 & He1 & Hn1 & Hmono1 & Hsame1).
    rewrite (bind_Ok Hslug), bind_get. cbv beta. rewrite (bind_Ok E1).
    rewrite Ht. cbn [optional_slug].
    assert (Hmd1 : heap w1 !! t = Some md) by (rewrite Hh1; exact Hmd).
    rewrite (bind_Ok (bind_Ok (deref_Ok Hmd1))).
    rewrite bind_get. cbv beta. cbn [template].
    destruct (ensure_node_run (getSlug md) (Some t) w1)
      as (w2 & E2 & Hh2 & Hl2 & He2 & Hn2 & Hmono2 & Hsame2).
    rewrite (bind_Ok E2), bind_get. cbv beta. rewrite Hkey.
    destruct (@ensure_edge_run r sourceKey (getSlug md) w2) as (w3 & E3 & Hh3 & Hl3 & Hnodes3 & Hkeys3 & Hedge3 & Hsame3).
    { intros e He. apply Hkeys. rewrite <- He1, <- He2. exact He. }
    { apply Hmono2. exact Hn1. }
    { exact Hn2. }
    { apply Hid. congruence. }
    exists w3. split; [exact E3|]. split; [congruence|]. split; [congruence|].
    split; [exact Hkeys3|].
    unfold DirectedGraph.hasNode in *. rewrite Hnodes3.
    split; [apply Hmono2; exact Hn1|]. split; [exact Hn2|]. split; [exact Hedge3|].
    intros Hs0 Ht0 He0.
    assert (w1 = w) as -> by (apply Hsame1; exact Hs0).
    assert (w2 = w) as -> by (apply Hsame2; exact Ht0).
    apply Hsame3. exact He0. }
  intros Hformed Hkeys.
  destruct (Hrun w Hformed Hkeys) as (w' & E & Hh & Hl & Hkeys' & Hs & Ht & He & _).
  exists w'. repeat split; auto.
  destruct (Hrun w') as (w'' & E' & _ & _ & _ & _ & _ & _ & Hsame); [|exact Hkeys'|].
  - destruct Hformed as ((t & md & Htarget & Hmd & Hkey) & Hsource). split.
    + exists t, md. rewrite Hh. auto.
    + destruct Hsource as [?|(? & s & smd & ? & ? & ?)]; [left; assumption|].
      right. split; [assumption|]. exists s, smd. rewrite Hh. auto.
  - rewrite (Hsame Hs Ht He) in E'. exact E'.
Qed.

Definition queued_dependency : Requirement :=
  {| targetModule := Some 1; sourceModule := Some 0; source := Some Dependency;
     dependencyRange := Some (mkRange ">=1.0.0") |}.

Lemma addToGraph_adds_once_witness :
  exists w',
    DependencyResolver._addToGraph queued_dependency queue_world = (Ok tt, w')
    /\ nodes (dependencyGraph w') = [("test-a", Some 0); ("test-b", Some 1)]
    /\ List.map edge_key (edges (dependencyGraph w')) = ["test-a.test-b"]
    /\ DependencyResolver._addToGraph queued_dependency w' = (Ok tt, w').
Proof.
  destruct (@addToGraph_adds_once queued_dependency "test-a" "test-b" queue_world)
    as (w' & E & _ & _ & _ & _ & _ & _ & Eagain).
  - split.
    + eexists 1, _. repeat split; reflexivity.
    + right. split; [reflexivity|].
      eexists 0, _. repeat split; reflexivity.
  - intros e He. inversion He.
  - exists w'. split; [exact E|]. split; [|split; [|exact Eagain]];
      vm_compute in E; injection E as <-; reflexivity.
Defined.

(** ** DependencyResolver._checkVersion: a changed version *)

Lemma filterM_sublist {A} (p : A -> M bool) (l : list A) :
  forall w l' w', filterM p l w = (Ok l', w') -> sublist l' l.
Proof.
  induction l as [|x rest IH]; intros w l' w' E; cbn [filterM] in E.
  - inversion E. constructor.
  - apply bind_inv_Ok in E. destruct E as (keep & w1 & _ & E).
    apply bind_inv_Ok in E. destruct E as (rest' & w2 & Hrest & E).
    inversion E; subst. apply IH in Hrest.
    destruct keep; [apply sublist_skip|apply sublist_cons]; exact Hrest.
Qed.

Lemma filterM_targets_heap (slug : string) (l : list Requirement) :
  forall w l' w',
    filterM (fun value =>
               t <- optional_slug (targetModule value) ;;
               ret (bool_decide (t = Some slug))) l w = (Ok l', w') ->
    forall value t, value ∈ l -> targetModule value = Some t -> is_Some (heap w !! t).
Proof.
  induction l as [|x rest IH]; intros w l' w' E value t Hvalue Ht.
  - inversion Hvalue.
  - cbn [filterM] in E. apply bind_inv_Ok in E. destruct E as (keep & w1 & Hkeep & E).
    apply bind_inv_Ok in E. destruct E as (rest' & w2 & Hrest & E).
    assert (w1 = w) as ->.
    { revert Hkeep. generalize (Ok keep).
      match goal with
      | |- forall r, ?c w = (r, w1) -> _ =>
          assert (P : preserves unchanged c) by unchanged_tac
      end.
      intros r Hkeep. exact (P _ _ _ Hkeep). }
    apply elem_of_cons in Hvalue. destruct Hvalue as [->|Hvalue].
    + rewrite Ht in Hkeep. cbn [optional_slug] in Hkeep. unfold bind, deref in Hkeep.
      destruct (heap w !! t); [eauto|discriminate].
    + eapply IH; eauto.
Qed.

Lemma updateTargetVersion_inv (slug v : string) (this : RequirementsStore) (w w' : World) :
  RequirementsStore.updateTargetVersion slug v this w = (Ok tt, w') ->
  exists h',
    w' = set_heap h' w
    /\ forall m md, heap w !! m = Some md ->
         h' !! m
         = Some (if existsb (fun value => bool_decide (targetModule value = Some m))
                      (List.filter (targets_slug w slug) (_requirements this))
                 then set_version (Some v) md else md).
Proof.
  intros E.
  assert (Hheap : forall value t, value ∈ _requirements this ->
                                  targetModule value = Some t -> is_Some (heap w !! t)).
  { pose proof E as E'. unfold RequirementsStore.updateTargetVersion in E'.
    apply bind_inv_Ok in E'. destruct E' as (l' & w1 & Hf & _).
    exact (filterM_targets_heap Hf). }
  destruct (updateTargetVersion_run slug v Hheap) as (h' & E' & _ & Hlookup).
  rewrite E' in E. injection E as <-. eauto.
Qed.

(** A step that removes nodes and edges of the graph, and does nothing else
    that the resolver looks at. *)
Definition pruned (w w' : World) : Prop :=
  heap w' = heap w /\ warnings w' = warnings w
  /\ forall e, e ∈ edges (dependencyGraph w') -> e ∈ edges (dependencyGraph w).

Lemma pruned_refl w : pruned w w.
Proof. repeat split; auto. Qed.

Lemma pruned_trans w1 w2 w3 : pruned w1 w2 -> pruned w2 w3 -> pruned w1 w3.
Proof. intros (Hh1 & Hl1 & He1) (Hh2 & Hl2 & He2). repeat split; try congruence; auto. Qed.

Lemma dropNode_gone key g g' :
  DirectedGraph.dropNode key g = Ok g' ->
  DirectedGraph.hasNode key g' = false
  /\ forall e, e ∈ edges g' ->
       e ∈ edges g /\ edge_source e <> key /\ edge_target e <> key.
Proof.
  unfold DirectedGraph.dropNode. destruct (DirectedGraph.hasNode key g); [|discriminate].
  cbn [negb]. intros E. injection E as <-. split.
  - unfold DirectedGraph.hasNode. cbn [nodes].
    apply not_true_is_false. intros Hex. apply existsb_exists in Hex.
    destruct Hex as (n & Hin & Hn). apply filter_In in Hin. destruct Hin as [_ Hf].
    rewrite Hn in Hf. discriminate.
  - cbn [edges]. intros e He. apply list_elem_of_In, filter_In in He.
    destruct He as [He Hf]. apply andb_prop in Hf. destruct Hf as [Hs Ht].
    split; [apply list_elem_of_In; exact He|].
    split; intros Heq; rewrite Heq, String.eqb_refl in *; discriminate.
Qed.

Lemma pruned_dropNode key :
  preserves pruned (DependencyResolver.on_graph (DirectedGraph.dropNode key)).
Proof.
  intros w r w' E. unfold DependencyResolver.on_graph, bind, get, lift, modify in E.
  destruct (DirectedGraph.dropNode key (dependencyGraph w)) as [g'|e] eqn:Hdrop;
    inversion E; subst; [|apply pruned_refl].
  repeat split. cbn. intros e He. apply (proj2 (dropNode_gone Hdrop) e He).
Qed.

Lemma pruned_drop_sole_dependency e :
  preserves pruned (DependencyResolver.drop_sole_dependency e).
Proof.
  unfold DependencyResolver.drop_sole_dependency.
  repeat preserve_step pruned_refl pruned_trans ltac:(apply pruned_dropNode).
Qed.

(** The requirement that [_checkVersion] queues for an edge that leads to
    the module [t]. *)
Definition requeued (t : mref) (e : Edge) : Requirement :=
  {| targetModule := Some t; sourceModule := sourceModule (edge_attributes e);
     source := Some Dependency; dependencyRange := dependencyRange (edge_attributes e) |}.

Lemma withTargetModule_fields `{Environment} (d : mref) (r0 r : Requirement) (w w' : World) :
  RequirementBuilder.withTargetModule d r0 w = (Ok r, w') ->
  targetModule r = Some d /\ sourceModule r = sourceModule r0 /\ source r = source r0.
Proof.
  unfold RequirementBuilder.withTargetModule. intros E.
  apply bind_inv_Ok in E. destruct E as (md & w1 & _ & E).
  destruct (truthy (version md) && _).
  - apply bind_inv_Ok in E. destruct E as (range & w2 & _ & E). inversion E. auto.
  - inversion E. auto.
Qed.

Lemma readd_requirements_inv `{Environment} (t : mref) (ins : list Edge) :
  forall store w store' w',
    DependencyResolver.readd_requirements t ins store w = (Ok store', w') ->
    store' = {| _requirements := _requirements store ++ List.map (requeued t) ins;
                _puppetfile := _puppetfile store |}.
Proof.
  induction ins as [|e rest IH]; intros store w store' w' E;
    cbn [DependencyResolver.readd_requirements] in E.
  - inversion E; subst. cbn. rewrite app_nil_r. destruct store'; reflexivity.
  - apply bind_inv_Ok in E. destruct E as (r & w1 & Hr & E).
    apply withTargetModule_fields in Hr. destruct Hr as (Ht & Hs & Hsrc).
    apply IH in E. rewrite E. cbn. rewrite <- app_assoc. cbn.
    unfold RequirementBuilder.withDependencyRange, requeued.
    rewrite Ht, Hs, Hsrc. reflexivity.
Qed.



(** ** DependencyResolver.resolve: the manifest that is returned *)

Lemma dump_node_inv (this : DependencyResolver) (nodeId : string) (module : option mref)
  (p p' : PuppetFile) (w w' : World) :
  DependencyResolver.dump_node this (nodeId, module) p w = (Ok p', w') ->
  p' = p /\ (some_equal (_hideList this) nodeId = true \/ nodeId = "puppetfile")
  \/ some_equal (_hideList this) nodeId = false /\ p' = PuppetFile.push_module module p
  \/ some_equal (_hideList this) nodeId = false /\ nodeId <> "puppetfile"
     /\ p' = PuppetFile.push_dependentModule module p.
Proof.
  unfold DependencyResolver.dump_node.
  destruct (some_equal (_hideList this) nodeId); cbn [negb]; intros E.
  - inversion E. auto.
  - apply bind_inv_Ok in E. destruct E as (inSource & w1 & _ & E).
    unfold bind at 1, get at 1 in E.
    apply bind_inv_Ok in E. destruct E as (topLevel & w2 & _ & E).
    unfold DependencyResolver.module_in in E. cbn [negb] in E.
    rewrite !andb_true_r in E. destruct topLevel.
    + inversion E. auto.
    + destruct (String.eqb_spec nodeId "puppetfile") as [->|Hne]; cbn [negb] in E;
        inversion E; auto.
Qed.

Lemma dump_nodes_inv (this : DependencyResolver) (l : list (string * option mref)) :
  forall p p' w w',
    DependencyResolver.dump_nodes this l p w = (Ok p', w') ->
    forge p' = forge p /\ preamble p' = preamble p
    /\ exists tops deps,
         modules p' = modules p ++ tops
         /\ dependentModules p' = dependentModules p ++ deps
         /\ (forall m, m ∈ tops ->
               exists nodeId, (nodeId, m) ∈ l /\ some_equal (_hideList this) nodeId = false)
         /\ (forall m, m ∈ deps ->
               exists nodeId, (nodeId, m) ∈ l /\ some_equal (_hideList this) nodeId = false
                              /\ nodeId <> "puppetfile")
         /\ (forall nodeId m, (nodeId, m) ∈ l ->
               some_equal (_hideList this) nodeId = false -> nodeId <> "puppetfile" ->
               m ∈ tops \/ m ∈ deps).
Proof.
  induction l as [|[nodeId module] rest IH]; intros p p' w w' E;
    cbn [DependencyResolver.dump_nodes] in E.
  - inversion E; subst. split; [reflexivity|]. split; [reflexivity|].
    exists [], []. rewrite !app_nil_r.
    split; [reflexivity|]. split; [reflexivity|].
    split; [intros m Hin; inversion Hin|]. split; [intros m Hin; inversion Hin|].
    intros nodeId m Hin. inversion Hin.
  - apply bind_inv_Ok in E. destruct E as (p1 & w1 & Hnode & E).
    apply IH in E.
    destruct E as (Hf & Hp & tops & deps & Htops & Hdeps & Hfrom_tops & Hfrom_deps & Hall).
    assert (Hrest_tops : forall m, m ∈ tops ->
              exists id, (id, m) ∈ (nodeId, module) :: rest
                         /\ some_equal (_hideList this) id = false).
    { intros m Hm. destruct (Hfrom_tops m Hm) as (id & Hin & Hhide).
      exists id. split; [right; exact Hin|exact Hhide]. }
    assert (Hrest_deps : forall m, m ∈ deps ->
              exists id, (id, m) ∈ (nodeId, module) :: rest
                         /\ some_equal (_hideList this) id = false /\ id <> "puppetfile").
    { intros m Hm. destruct (Hfrom_deps m Hm) as (id & Hin & Hhide).
      exists id. split; [right; exact Hin|exact Hhide]. }
    apply dump_node_inv in Hnode.
    destruct Hnode as [[-> Hskip] | [[Hhide ->] | (Hhide & Hne & ->)]];
      cbn [forge preamble modules dependentModules PuppetFile.push_module
             PuppetFile.push_dependentModule] in *;
      (split; [exact Hf|]); (split; [exact Hp|]).
    + exists tops, deps. repeat split; auto.
      intros id m Hin Hhide Hne. apply elem_of_cons in Hin. destruct Hin as [Heq|Hin].
      * injection Heq as -> ->. destruct Hskip; congruence.
      * eauto.
    + exists (module :: tops), deps. rewrite Htops, <- app_assoc.
      split; [reflexivity|]. split; [exact Hdeps|]. split; [|split; [exact Hrest_deps|]].
      * intros m Hm. apply elem_of_cons in Hm. destruct Hm as [->|Hm]; [|auto].
        exists nodeId. split; [left|exact Hhide].
      * intros id m Hin Hhide' Hne. apply elem_of_cons in Hin. destruct Hin as [Heq|Hin].
        -- injection Heq as -> ->. left. left.
        -- destruct (Hall id m Hin Hhide' Hne); [left; right|right]; assumption.
    + exists tops, (module :: deps). rewrite Hdeps, <- app_assoc.
      split; [exact Htops|]. split; [reflexivity|]. split; [exact Hrest_tops|]. split.
      * intros m Hm. apply elem_of_cons in Hm. destruct Hm as [->|Hm]; [|auto].
        exists nodeId. split; [left|auto].
      * intros id m Hin Hhide' Hne'. apply elem_of_cons in Hin. destruct Hin as [Heq|Hin].
        -- injection Heq as -> ->. right. left.
        -- destruct (Hall id m Hin Hhide' Hne'); [left|right; right]; assumption.
Qed.

(** X11. The manifest that [resolve] returns is read off the nodes of the
    final graph. Every module of the result is the module of a node that is
    not on the hide list; a dependent module is never taken from the node
    [puppetfile]; and every node that is neither hidden nor the node
    [puppetfile] has its module in the result, among the modules or among
    the dependent modules. The forge and the preamble are those of the source
    manifest. *)
Theorem resolve_returns_the_unhidden_nodes `{Environment} (fuel : nat)
  (this : DependencyResolver) (p : PuppetFile) (w w' : World) :
  DependencyResolver.resolve fuel this w = (Ok p, w') ->
  (forall m, m ∈ modules p ->
     exists nodeId, (nodeId, m) ∈ nodes (dependencyGraph w')
                    /\ some_equal (_hideList this) nodeId = false)
  /\ (forall m, m ∈ dependentModules p ->
        exists nodeId, (nodeId, m) ∈ nodes (dependencyGraph w')
                       /\ some_equal (_hideList this) nodeId = false
                       /\ nodeId <> "puppetfile")
  /\ (forall nodeId m, (nodeId, m) ∈ nodes (dependencyGraph w') ->
        some_equal (_hideList this) nodeId = false -> nodeId <> "puppetfile" ->
        m ∈ modules p \/ m ∈ dependentModules p)
  /\ forge p = match _sourcePuppetfile this with
               | Some source => forge source
               | None => DEFAULT_FORGE
               end
  /\ preamble p = match _sourcePuppetfile this with
                  | Some source => preamble source
                  | None => ""
                  end.
Proof.
  unfold DependencyResolver.resolve. destruct (_store this) as [store|]; [|discriminate].
  intros E. apply bind_inv_Ok in E. destruct E as ([] & w1 & _ & E).
  unfold bind at 1, get at 1 in E.
  pose proof (unchanged_dump_nodes E) as Hw. unfold unchanged in Hw. subst w'.
  apply dump_nodes_inv in E.
  destruct E as (Hf & Hp & tops & deps & Htops & Hdeps & Hfrom_tops & Hfrom_deps & Hall).
  cbn in Htops, Hdeps, Hf, Hp. subst tops deps. auto.
Qed.

(** A graph of three nodes, and a resolver with nothing left to do that
    hides [test-b]. *)
Definition dumped_world : World :=
  {| heap := heap queue_world; forgeCache := None;
     dependencyGraph :=
       {| nodes := [("puppetfile", None); ("test-a", Some 0); ("test-b", Some 1)];
          edges := [ mkEdge "puppetfile.test-a" "puppetfile" "test-a"
                       {| targetModule := Some 0; sourceModule := None;
                          source := Some Puppetfile;
                          dependencyRange := Some (mkRange "=1.0.0") |} ] |};
     warnings := [] |}.

Definition dumping_resolver : DependencyResolver :=
  {| _store := Some RequirementsStore.new; _sourcePuppetfile := None; _ignoreList := [];
     _hideList := ["test-b"] |}.

Lemma resolve_returns_the_unhidden_nodes_witness :
  exists p,
    DependencyResolver.resolve (H := cacheForge) 1 dumping_resolver dumped_world
    = (Ok p, dumped_world)
    /\ (Some 0 ∈ modules p \/ Some 0 ∈ dependentModules p)
    /\ forge p = DEFAULT_FORGE.
Proof.
  destruct (DependencyResolver.resolve (H := cacheForge) 1 dumping_resolver dumped_world)
    as [r w'] eqn:E.
  assert (Hr : exists p, r = Ok p /\ w' = dumped_world)
    by (vm_compute in E; injection E as <- <-; eauto).
  destruct Hr as (p & -> & ->).
  destruct (@resolve_returns_the_unhidden_nodes cacheForge 1 dumping_resolver p
              dumped_world dumped_world E) as (_ & _ & Hall & Hforge & _).
  exists p. split; [reflexivity|]. split; [|exact Hforge].
  apply (Hall "test-a").
  - right. left.
  - reflexivity.
  - discriminate.
Defined.

(** ** DependencyResolver.resolve: what is logged *)

(** A step that logs nothing and keeps every object with its author and
    name. *)
Definition silent (w w' : World) : Prop :=
  warnings w' = warnings w /\ heap_evolves (fun _ _ => True) (heap w) (heap w').

Lemma silent_refl w : silent w w.
Proof. split; [reflexivity|apply heap_evolves_refl]. Qed.

Lemma silent_trans w1 w2 w3 : silent w1 w2 -> silent w2 w3 -> silent w1 w3.
Proof.
  intros [Hl1 Hh1] [Hl2 Hh2]. split; [congruence|]. eapply heap_evolves_trans; eauto.
Qed.

Lemma frame_silent changed w w' : frame changed w w' -> silent w w'.
Proof.
  intros (_ & Hl & Hh). split; [exact Hl|]. eapply heap_evolves_weaken; [|exact Hh]. auto.
Qed.

Lemma subsides_silent changed w w' : subsides changed w w' -> silent w w'.
Proof.
  intros (Hl & Hh & _). split; [exact Hl|]. eapply heap_evolves_weaken; [|exact Hh]. auto.
Qed.

Lemma unchanged_silent w w' : unchanged w w' -> silent w w'.
Proof. intros ->. apply silent_refl. Qed.

Lemma silent_on_graph f : preserves silent (DependencyResolver.on_graph f).
Proof.
  intros w r w' E. unfold DependencyResolver.on_graph, bind, get, lift, modify in E.
  destruct (f (dependencyGraph w)); inversion E; subst;
    (split; [reflexivity|apply heap_evolves_refl]).
Qed.

Ltac silent_tac :=
  repeat preserve_step silent_refl silent_trans
    ltac:(first [ apply silent_on_graph
                | apply (preserves_weaken unchanged_silent); solve [eauto with unchanged]
                | apply (preserves_weaken (@frame_silent (fun _ _ => False)));
                  solve [eauto with quiet] ]).

Lemma silent_addToGraph r : preserves silent (DependencyResolver._addToGraph r).
Proof. unfold DependencyResolver._addToGraph. silent_tac. Qed.

Lemma silent_getNewVersion `{Environment} fuel r :
  preserves silent (Requirement.getNewVersion fuel r).
Proof.
  destruct (targetModule r) as [t|] eqn:Ht.
  - apply (preserves_weaken (@frame_silent (fun m _ => m = t))).
    apply getNewVersion_frame. exact Ht.
  - unfold Requirement.getNewVersion. rewrite Ht. apply (preserves_ret silent_refl).
Qed.

Lemma silent_updateTargetVersion slug v store :
  preserves silent (RequirementsStore.updateTargetVersion slug v store).
Proof. intros w r w' E. exact (frame_silent (updateTargetVersion_frame E)). Qed.

Lemma silent_set_version t v : preserves silent (update t (set_version v)).
Proof. intros w r w' E. exact (frame_silent (frame_set_version E)). Qed.

Lemma silent_drop_sole_dependency e :
  preserves silent (DependencyResolver.drop_sole_dependency e).
Proof.
  intros w r w' E.
  exact (subsides_silent (@subsides_drop_sole_dependency (fun _ _ => False) e _ _ _ E)).
Qed.

Lemma silent_checkVersion `{Environment} t oldVersion newVersion store :
  preserves silent (DependencyResolver._checkVersion t oldVersion newVersion store).
Proof.
  unfold DependencyResolver._checkVersion. destruct (String.eqb newVersion oldVersion).
  - apply (preserves_weaken (@frame_silent (fun _ _ => False))). quiet_tac.
  - repeat preserve_step silent_refl silent_trans
      ltac:(first [ apply silent_on_graph
                  | apply silent_set_version
                  | apply silent_updateTargetVersion
                  | apply silent_drop_sole_dependency
                  | apply (preserves_weaken unchanged_silent);
                    solve [eauto with unchanged] ]).
Qed.

(** *** Where a [NoVersionFoundError] comes from *)

(** Every exception of [c] satisfies [P]. *)
Definition raises {A} (P : Error -> Prop) (c : M A) : Prop :=
  forall w e w', c w = (Err e, w') -> P e.

Definition foreign (e : Error) : Prop :=
  match e with
  | NoVersionFoundError _ => False
  | _ => True
  end.

Lemma raises_ret {A} P (a : A) : raises P (ret a).
Proof. intros w e w' E. discriminate. Qed.

Lemma raises_throw {A} (P : Error -> Prop) e : P e -> raises P (throw (A := A) e).
Proof. intros He w e' w' E. inversion E; subst. exact He. Qed.

Lemma raises_get P : raises P get.
Proof. intros w e w' E. discriminate. Qed.

Lemma raises_modify P f : raises P (modify f).
Proof. intros w e w' E. discriminate. Qed.

Lemma raises_deref m : raises foreign (deref m).
Proof.
  intros w e w' E. unfold deref in E. destruct (heap w !! m); inversion E. exact I.
Qed.

Lemma raises_bind {A B} P (c : M A) (k : A -> M B) :
  raises P c -> (forall a, raises P (k a)) -> raises P (bind c k).
Proof.
  intros Hc Hk w e w' E. unfold bind in E. destruct (c w) as [[a|e0] w1] eqn:Ec.
  - eapply Hk; eauto.
  - inversion E; subst. eapply Hc; eauto.
Qed.

Lemma raises_weaken {A} (P Q : Error -> Prop) (c : M A) :
  (forall e, P e -> Q e) -> raises P c -> raises Q c.
Proof. intros HPQ Hc w e w' E. apply HPQ. eapply Hc; eauto. Qed.

Lemma raises_isValid `{Environment} md g :
  raises foreign (lift (DependencyGraph.isValid md g)).
Proof.
  intros w e w' E. unfold lift, DependencyGraph.isValid, DirectedGraph.everyInEdge,
    DirectedGraph.inEdges in E.
  destruct (negb _); inversion E. exact I.
Qed.

Ltac foreign_step known :=
  first
    [ apply raises_ret
    | apply raises_get
    | apply raises_modify
    | apply raises_deref
    | apply raises_isValid
    | apply raises_throw; exact I
    | known
    | apply raises_bind; [|intros ?]
    | match goal with
      | |- raises _ (match ?x with _ => _ end) => destruct x
      | |- raises _ (if ?x then _ else _) => destruct x
      end ].

Create HintDb foreign.

Ltac foreign_tac := repeat foreign_step ltac:(solve [eauto with foreign]).

Lemma foreign_factory url : raises foreign (ForgeCache.factory url).
Proof. unfold ForgeCache.factory. foreign_tac. Qed.
#[local] Hint Resolve foreign_factory : foreign.

Lemma foreign_store c : raises foreign (ForgeCache.store c).
Proof. apply raises_modify. Qed.
#[local] Hint Resolve foreign_store : foreign.

Lemma foreign_getModuleData `{Environment} url a n :
  raises foreign (ForgeCache.getModuleData url a n).
Proof. unfold ForgeCache.getModuleData. foreign_tac. Qed.
#[local] Hint Resolve foreign_getModuleData : foreign.

Lemma foreign_getReleases `{Environment} url a n :
  raises foreign (ForgeCache.getReleases url a n).
Proof. unfold ForgeCache.getReleases. foreign_tac. Qed.
#[local] Hint Resolve foreign_getReleases : foreign.

Lemma foreign_updateAvailableReleases url a n l :
  raises foreign (ForgeCache.updateAvailableReleases url a n l).
Proof. unfold ForgeCache.updateAvailableReleases. foreign_tac. Qed.
#[local] Hint Resolve foreign_updateAvailableReleases : foreign.

Lemma foreign_getAvailableVersions `{Environment} md :
  raises foreign (ModuleDeclaration.getAvailableVersions md).
Proof. unfold ModuleDeclaration.getAvailableVersions. foreign_tac. Qed.
#[local] Hint Resolve foreign_getAvailableVersions : foreign.

Lemma foreign_hasAvailableVersion `{Environment} md :
  raises foreign (ModuleDeclaration.hasAvailableVersion md).
Proof. unfold ModuleDeclaration.hasAvailableVersion. foreign_tac. Qed.
#[local] Hint Resolve foreign_hasAvailableVersion : foreign.

Lemma foreign_getNextAvailableVersion `{Environment} md :
  raises foreign (ModuleDeclaration.getNextAvailableVersion md).
Proof. unfold ModuleDeclaration.getNextAvailableVersion. foreign_tac. Qed.
#[local] Hint Resolve foreign_getNextAvailableVersion : foreign.

Lemma foreign_addAvailableVersion `{Environment} v md :
  raises foreign (ModuleDeclaration.addAvailableVersion v md).
Proof. unfold ModuleDeclaration.addAvailableVersion. foreign_tac. Qed.
#[local] Hint Resolve foreign_addAvailableVersion : foreign.

Lemma foreign_update m f : raises foreign (update m f).
Proof. unfold update. foreign_tac. Qed.
#[local] Hint Resolve foreign_update : foreign.

Lemma foreign_search `{Environment} (fuel : nat) (t : mref) :
  raises foreign (Requirement.search fuel t).
Proof.
  induction fuel as [|fuel IH]; cbn [Requirement.search]; foreign_tac.
Qed.

(** The only [NoVersionFoundError] that [getNewVersion] throws is the one
    for the requirement itself. *)
Lemma getNewVersion_raises `{Environment} (fuel : nat) (r : Requirement) :
  raises (fun e => forall r', e = NoVersionFoundError r' -> r' = r)
    (Requirement.getNewVersion fuel r).
Proof.
  unfold Requirement.getNewVersion.
  assert (Hforeign : forall e, foreign e -> forall r', e = NoVersionFoundError r' -> r' = r).
  { intros e He r' ->. destruct He. }
  destruct (targetModule r) as [t|]; [|apply raises_ret].
  apply raises_bind; [apply (raises_weaken Hforeign), raises_deref|]. intros md.
  apply raises_bind; [apply raises_get|]. intros w.
  apply raises_bind; [apply (raises_weaken Hforeign), raises_isValid|]. intros valid.
  apply raises_bind.
  - destruct (negb valid); [|apply raises_ret].
    apply raises_bind; [apply (raises_weaken Hforeign), foreign_search|].
    intros [|]; [apply raises_ret|]. apply raises_throw. intros r' E. congruence.
  - intros []. apply raises_bind; [apply (raises_weaken Hforeign), raises_deref|].
    intros md'. apply raises_ret.
Qed.

(** *** The warnings *)

(** The warning is about a module on the ignore list: a deprecation warning
    names the slug, a demoted [NoVersionFoundError] the requirement, whose
    target module has the slug. *)
Definition about_ignored (ignoreList : list string) (w : World) (x : Warning) : Prop :=
  match x with
  | IgnoredDeprecation slug _ => some_equal ignoreList slug = true
  | IgnoredNoVersionFound r =>
      exists t md, targetModule r = Some t /\ heap w !! t = Some md
                   /\ some_equal ignoreList (getSlug md) = true
  end.

Definition logs_ignored (ignoreList : list string) (w w' : World) : Prop :=
  heap_evolves (fun _ _ => True) (heap w) (heap w')
  /\ exists new, warnings w' = warnings w ++ new
                 /\ Forall (about_ignored ignoreList w') new.

Lemma about_ignored_evolves ignoreList w w' x :
  heap_evolves (fun _ _ => True) (heap w) (heap w') ->
  about_ignored ignoreList w x -> about_ignored ignoreList w' x.
Proof.
  intros Hh. destruct x as [r|slug status]; cbn; [|auto].
  intros (t & md & Ht & Hmd & Hignored).
  destruct (Hh t md Hmd) as (md' & Hmd' & Ha & Hn & _).
  exists t, md'. rewrite (getSlug_eq Ha Hn). auto.
Qed.

Lemma logs_refl ignoreList w : logs_ignored ignoreList w w.
Proof.
  split; [apply heap_evolves_refl|]. exists []. rewrite app_nil_r. auto.
Qed.

Lemma logs_trans ignoreList w1 w2 w3 :
  logs_ignored ignoreList w1 w2 -> logs_ignored ignoreList w2 w3 ->
  logs_ignored ignoreList w1 w3.
Proof.
  intros (Hh1 & new1 & Hl1 & Hnew1) (Hh2 & new2 & Hl2 & Hnew2).
  split; [eapply heap_evolves_trans; eauto|].
  exists (new1 ++ new2). rewrite Hl2, Hl1, app_assoc. split; [reflexivity|].
  apply Forall_app. split; [|exact Hnew2].
  eapply Forall_impl; [exact Hnew1|]. intros x. apply about_ignored_evolves. exact Hh2.
Qed.

Lemma silent_logs ignoreList w w' : silent w w' -> logs_ignored ignoreList w w'.
Proof.
  intros [Hl Hh]. split; [exact Hh|]. exists []. rewrite app_nil_r. auto.
Qed.

Lemma logs_add_warning ignoreList w x :
  about_ignored ignoreList w x -> logs_ignored ignoreList w (add_warning x w).
Proof.
  intros Hx. split; [apply heap_evolves_refl|]. exists [x]. split; [reflexivity|].
  constructor; [exact Hx|constructor].
Qed.

Lemma logs_checkDeprecationStatus `{Environment} this module :
  preserves (logs_ignored (_ignoreList this))
    (DependencyResolver._checkDeprecationStatus this module).
Proof.
  unfold DependencyResolver._checkDeprecationStatus.
  repeat first
    [ apply (preserves_ret (@logs_refl _))
    | apply (preserves_throw (@logs_refl _))
    | apply (preserves_deref (@logs_refl _))
    | apply (preserves_weaken
               (fun w w' (Hq : quiet w w') => silent_logs (_ignoreList this)
                                                (frame_silent Hq)));
      solve [eauto with quiet]
    | apply (preserves_bind (@logs_trans _)); [|intros ?]
    | match goal with
      | |- preserves _ (if some_equal ?l ?x then _ else _) =>
          destruct (some_equal l x) eqn:?
      | |- preserves _ (match ?x with _ => _ end) => destruct x
      end ].
  apply preserves_modify. intros w. apply logs_add_warning. assumption.
Qed.

(** The guarded search of [resolve]. *)
Lemma logs_attempt `{Environment} (fuel : nat) (requirement : Requirement)
  (ignoreList : list string) (t : mref) (md : ModuleDeclaration) (w w' : World)
  (r : Result (option string)) :
  targetModule requirement = Some t -> heap w !! t = Some md ->
  try_catch (v <- Requirement.getNewVersion fuel requirement ;; ret (Some v))
    (fun e =>
       match e with
       | NoVersionFoundError r =>
           if some_equal ignoreList (getSlug md) then
             modify (add_warning (IgnoredNoVersionFound r)) ;;; ret None
           else throw e
       | _ => throw e
       end) w = (r, w') ->
  logs_ignored ignoreList w w'.
Proof.
  intros Ht Hmd. unfold try_catch, bind at 1.
  destruct (Requirement.getNewVersion fuel requirement w) as [[v|e] w1] eqn:E.
  - intros E'. inversion E'; subst. apply silent_logs. exact (silent_getNewVersion E).
  - pose proof (silent_getNewVersion E) as Hsilent.
    assert (Hthrow : forall r0 w0, throw (A := option string) e w1 = (r0, w0) ->
                                   logs_ignored ignoreList w w0).
    { intros r0 w0 E'. inversion E'; subst. apply silent_logs. exact Hsilent. }
    destruct e; try exact (Hthrow _ _).
    destruct (some_equal ignoreList (getSlug md)) eqn:Hignored; [|exact (Hthrow _ _)].
    intros E'. inversion E'; subst.
    eapply logs_trans; [apply silent_logs; exact Hsilent|].
    apply logs_add_warning. cbn.
    pose proof (getNewVersion_raises E) as Hr. cbv beta in Hr.
    rewrite (Hr dependency eq_refl).
    destruct Hsilent as [_ Hh]. destruct (Hh t md Hmd) as (md' & Hmd' & Ha & Hn & _).
    exists t, md'. rewrite (getSlug_eq Ha Hn). auto.
Qed.

Lemma preserves_deref_bind {B} (R : World -> World -> Prop) (m : mref)
  (k : ModuleDeclaration -> M B) :
  (forall w, R w w) ->
  (forall md w r w', heap w !! m = Some md -> k md w = (r, w') -> R w w') ->
  preserves R (bind (deref m) k).
Proof.
  intros Hrefl Hk w r w' E. unfold bind, deref in E.
  destruct (heap w !! m) as [md|] eqn:Hm; [eapply Hk; eauto|].
  inversion E; subst. apply Hrefl.
Qed.

Lemma logs_resolve_loop `{Environment} (fuel : nat) (this : DependencyResolver) :
  forall store,
    preserves (logs_ignored (_ignoreList this))
      (DependencyResolver.resolve_loop fuel this store).
Proof.
  induction fuel as [|fuel IH]; intros store; cbn [DependencyResolver.resolve_loop].
  - apply (preserves_throw (@logs_refl _)).
  - destruct (RequirementsStore.hasNextRequirement store);
      [|apply (preserves_ret (@logs_refl _))].
    destruct (RequirementsStore.getNextRequirement store) as [next store1].
    destruct next as [requirement|]; [|apply IH].
    apply (preserves_bind (@logs_trans _)); [apply (preserves_lift (@logs_refl _))|].
    intros valid. destruct valid; [|apply IH].
    destruct (targetModule requirement) as [t|] eqn:Ht; [|apply IH].
    apply (preserves_bind (@logs_trans _)).
    { destruct (sourceModule requirement);
        [apply logs_checkDeprecationStatus|apply (preserves_ret (@logs_refl _))]. }
    intros _. apply (preserves_bind (@logs_trans _)); [apply logs_checkDeprecationStatus|].
    intros _. apply (preserves_bind (@logs_trans _)).
    { apply (preserves_weaken (@silent_logs _)), silent_addToGraph. }
    intros _. apply (preserves_deref_bind (@logs_refl _)).
    intros md w r w' Hmd E. unfold bind at 1 in E.
    match type of E with
    | match ?c w with _ => _ end = _ => destruct (c w) as [[attempt|e] w1] eqn:Hattempt
    end.
    + eapply logs_trans; [exact (logs_attempt Ht Hmd Hattempt)|].
      destruct attempt as [newVersion|]; [|exact (IH _ _ _ _ E)].
      revert E. apply (preserves_bind (@logs_trans _)).
      * apply (preserves_weaken (@silent_logs _)), silent_checkVersion.
      * intros store2. apply IH.
    + inversion E; subst. exact (logs_attempt Ht Hmd Hattempt).
Qed.

(** X12. Whatever the outcome of [resolve], the log is only appended to,
    and every warning that the run adds is about a module on the ignore list:
    a deprecation warning names a slug of the list, and a demoted
    [NoVersionFoundError] belongs to a requirement whose target module has a
    slug of the list. With an empty ignore list nothing is logged. *)
Theorem resolve_warns_about_ignored_modules `{Environment} (fuel : nat)
  (this : DependencyResolver) (w : World) :
  let w' := snd (DependencyResolver.resolve fuel this w) in
  (exists new, warnings w' = warnings w ++ new
               /\ Forall (about_ignored (_ignoreList this) w') new)
  /\ (_ignoreList this = [] -> warnings w' = warnings w).
Proof.
  intros w'.
  assert (P : preserves (logs_ignored (_ignoreList this))
                (DependencyResolver.resolve fuel this)).
  { unfold DependencyResolver.resolve.
    destruct (_store this) as [store|]; [|apply (preserves_throw (@logs_refl _))].
    apply (preserves_bind (@logs_trans _)); [apply logs_resolve_loop|]. intros _.
    apply (preserves_bind (@logs_trans _)); [apply (preserves_get (@logs_refl _))|].
    intros w0.
    apply (preserves_weaken
             (fun w1 w2 (Hu : unchanged w1 w2) => silent_logs (_ignoreList this)
                                                    (unchanged_silent Hu))).
    apply unchanged_dump_nodes. }
  assert (Hlogs : logs_ignored (_ignoreList this) w w').
  { subst w'. destruct (DependencyResolver.resolve fuel this w) as [r w1] eqn:E.
    exact (P _ _ _ E). }
  destruct Hlogs as (_ & new & Hl & Hnew). split; [eauto|].
  intros Hnone. rewrite Hl. destruct new as [|x rest]; [apply app_nil_r|].
  apply Forall_cons in Hnew. destruct Hnew as [Hx _]. rewrite Hnone in Hx.
  destruct x as [r|slug status]; cbn in Hx; [destruct Hx as (? & ? & _ & _ & Hx)|];
    discriminate.
Qed.

(** A resolver that ignores the deprecated module of the test forge, with the
    requirement of a manifest for it in the queue. *)
Definition ignoring_resolver : DependencyResolver :=
  {| _store := Some {| _requirements :=
                         [ {| targetModule := Some 0; sourceModule := None;
                              source := Some Puppetfile;
                              dependencyRange := Some (mkRange "=1.2.3") |} ];
                       _puppetfile := None |};
     _sourcePuppetfile := None; _ignoreList := ["test-deprecated"]; _hideList := [] |}.

Lemma resolve_warns_about_ignored_modules_witness :
  warnings (snd (DependencyResolver.resolve (H := Scenario.testForge) 5 ignoring_resolver
                   deprecated_world))
  = [IgnoredDeprecation "test-deprecated" deprecated_status]
  /\ warnings (snd (DependencyResolver.resolve (H := cacheForge) 1 dumping_resolver
                      dumped_world)) = [].
Proof.
  split.
  - destruct (proj1 (@resolve_warns_about_ignored_modules Scenario.testForge 5
                       ignoring_resolver deprecated_world)) as (new & Hl & _).
    rewrite Hl. vm_compute in Hl. vm_compute. symmetry. exact Hl.
  - exact (proj2 (@resolve_warns_about_ignored_modules cacheForge 1 dumping_resolver
                    dumped_world) eq_refl).
Defined.

(** ** ModuleDeclaration.fromText: a declaration without version *)

(** The declaration that [_buildDependencies] writes for a dependency. *)
Lemma fromText_without_version `{Environment} (f a n : string) (w w' : World)
  (r : Result (list string)) :
  token author_char a = true -> token plain_char n = true -> f <> "" ->
  ForgeCache.getReleases f a n w = (r, w') ->
  ModuleDeclaration.fromText ("mod '" +:+ a +:+ "-" +:+ n +:+ "'")
    (ModuleDeclaration.withForgeApiUrl f new_ModuleDeclaration) w
  = (match r with
     | Ok l => Ok {| name := n; author := a; forgeModule := true; version := head l;
                     git := None; ref := None; comments := None;
                     _availableVersions := []; _forgeApiUrl := Some f;
                     _gitMetadata := None; _dependencies := None |}
     | Err e => Err e
     end, w').
Proof.
  intros Ha Hn Hf E. unfold ModuleDeclaration.fromText.
  replace ("mod '" +:+ a +:+ "-" +:+ n +:+ "'")
    with ("mod '" +:+ a +:+ "-" +:+ n +:+ "'" +:+ "")
    by reflexivity.
  rewrite (@match_module_here_dash a n "" None "" Ha Hn eq_refl).
  cbn [group_name group_author group_version after_match].
  change (parameter ":git" (parse_parameters ("" +:+ ""))) with (@None (option string)).
  cbv beta iota. rewrite bind_ret.
  cbn [forgeModule ModuleDeclaration.withForgeApiUrl new_ModuleDeclaration].
  unfold ModuleDeclaration.getAvailableVersions.
  cbn [_forgeApiUrl author name version git ref comments _availableVersions _gitMetadata
         _dependencies forgeModule ModuleDeclaration.withForgeApiUrl
         new_ModuleDeclaration].
  rewrite (truthy_Some Hf). cbn [negb template].
  unfold bind. rewrite E. destruct r; reflexivity.
Qed.

(** X13. A declaration [mod 'author-name'] without version and without
    parameters, read for a forge, asks the forge for the releases of the
    module: the module gets the first release of the list as its version (no
    version when the list is empty), and a failed request fails the
    declaration. Author and name are plain tokens, the author without dash. *)
Theorem fromText_takes_first_release `{Environment} (f a n : string) (w w' : World)
  (r : Result (list string)) :
  token author_char a = true -> token plain_char n = true -> f <> "" ->
  ForgeCache.getReleases f a n w = (r, w') ->
  ModuleDeclaration.fromText ("mod '" +:+ a +:+ "-" +:+ n +:+ "'")
    (ModuleDeclaration.withForgeApiUrl f new_ModuleDeclaration) w
  = (match r with
     | Ok l => Ok {| name := n; author := a; forgeModule := true; version := head l;
                     git := None; ref := None; comments := None;
                     _availableVersions := []; _forgeApiUrl := Some f;
                     _gitMetadata := None; _dependencies := None |}
     | Err e => Err e
     end, w').
Proof. apply fromText_without_version. Qed.

Lemma fromText_takes_first_release_witness :
  exists w',
    ModuleDeclaration.fromText (H := cacheForge) "mod 'test-a'"
      (ModuleDeclaration.withForgeApiUrl Scenario.forgeUrl new_ModuleDeclaration)
      Scenario.start
    = (Ok (set_version (Some "2.0.0") released_module), w').
Proof.
  destruct (ForgeCache.getReleases (H := cacheForge) Scenario.forgeUrl "test" "a"
              Scenario.start) as [r w'] eqn:E.
  pose proof (@fromText_takes_first_release cacheForge Scenario.forgeUrl "test" "a"
                Scenario.start w' r eq_refl eq_refl ltac:(discriminate) E) as Hthm.
  vm_compute in E. injection E as <- _. exists w'. exact Hthm.
Defined.

(** ** ModuleDeclaration.fromText: a text that is no declaration *)

Lemma includes_false_inv p c s :
  includes p (String c s) = false ->
  strip_prefix p (String c s) = None /\ includes p s = false.
Proof.
  rewrite includes_unfold. destruct (strip_prefix p (String c s)); [discriminate|].
  auto.
Qed.

Lemma match_module_without_mod (s : string) :
  includes "mod '" s = false ->
  forall before line_start, match_module before line_start s = None.
Proof.
  induction s as [|c s IH]; intros Hs before line_start.
  - destruct line_start; reflexivity.
  - apply includes_false_inv in Hs. destruct Hs as [Hhere Hs].
    cbn [match_module]. unfold match_module_here. rewrite Hhere.
    destruct line_start; apply IH; exact Hs.
Qed.

(** X14. A text in which [mod '] does not occur is no module declaration:
    [fromText] throws [Invalid module declaration] with the text, and neither
    the module nor the state is changed. This is the fate of a declaration
    whose name is not in single quotes. *)
Theorem fromText_rejects_text_without_mod `{Environment} (text : string)
  (this : ModuleDeclaration) (w : World) :
  includes "mod '" text = false ->
  ModuleDeclaration.fromText text this w
  = (Err (Thrown ("Invalid module declaration: " +:+ text)), w).
Proof.
  intros Htext. unfold ModuleDeclaration.fromText.
  rewrite (match_module_without_mod Htext). reflexivity.
Qed.

Lemma fromText_rejects_text_without_mod_witness :
  ModuleDeclaration.fromText (H := cacheForge) "mod test-a, '1.0.0'" new_ModuleDeclaration
    Scenario.start
  = (Err (Thrown "Invalid module declaration: mod test-a, '1.0.0'"), Scenario.start).
Proof.
  exact (@fromText_rejects_text_without_mod cacheForge "mod test-a, '1.0.0'"
           new_ModuleDeclaration Scenario.start eq_refl).
Defined.

(** ** ModuleDeclaration._buildDependencies *)

(** The release list [l] of the slug is in the cache. *)
Definition cached (w : World) (slug : string) (l : list string) : Prop :=
  exists c, forgeCache w = Some c /\ _releases c !! slug = Some l.

Lemma getModuleData_keeps `{Environment} url a n w r w' :
  ForgeCache.getModuleData url a n w = (r, w') ->
  heap w' = heap w
  /\ (forall c, forgeCache w = Some c ->
        exists c', forgeCache w' = Some c' /\ _releases c' = _releases c)
  /\ (forgeCache w = None ->
        exists c', forgeCache w' = Some c' /\ _releases c' = ∅).
Proof.
  unfold ForgeCache.getModuleData, ForgeCache.factory, ForgeCache.store, bind, get,
    modify, ret, throw.
  destruct (forgeCache w) as [c|] eqn:Hc.
  - destruct (_forgeModuleData c !! _); [|destruct (http_get_module _)];
      intros E; inversion E; subst; cbn; (split; [reflexivity|]);
      (split; [|congruence]); intros c0 Hc0; injection Hc0 as <-.
    + exists c. auto.
    + eexists. split; [reflexivity|]. reflexivity.
    + exists c. auto.
  - cbn. rewrite lookup_empty. destruct (http_get_module _);
      intros E; inversion E; subst; cbn; (split; [reflexivity|]);
      (split; [congruence|]); eauto.
Qed.

Lemma getReleases_inv `{Environment} url a n w l w' :
  ForgeCache.getReleases url a n w = (Ok l, w') ->
  heap w' = heap w
  /\ cached w' (a +:+ "-" +:+ n) l
  /\ forall slug l0, cached w slug l0 -> cached w' slug l0.
Proof.
  unfold ForgeCache.getReleases. intros E.
  apply bind_inv_Ok in E. destruct E as (c & w1 & Hfactory & E).
  apply factory_inv in Hfactory. destruct Hfactory as [Hc1 Hfactory].
  assert (Hfirst : heap w1 = heap w
                   /\ forall c0, forgeCache w = Some c0 -> c0 = c /\ w1 = w).
  { destruct Hfactory as [[Hc ->] | (Hnone & _ & ->)].
    - split; [reflexivity|]. intros c0 Hc0. split; congruence.
    - split; [reflexivity|]. intros c0 Hc0. congruence. }
  destruct Hfirst as [Hheap1 Hsame1].
  destruct (_releases c !! (a +:+ "-" +:+ n)) as [known|] eqn:Hknown.
  - inversion E; subst. split; [exact Hheap1|]. split; [exists c; auto|].
    intros slug l0 (c0 & Hc0 & Hl0). destruct (Hsame1 c0 Hc0) as [-> ->].
    exists c. auto.
  - apply bind_inv_Ok in E. destruct E as (data & w2 & Hdata & E).
    apply bind_inv_Ok in E. destruct E as (c2 & w3 & Hfactory2 & E).
    apply bind_inv_Ok in E. destruct E as ([] & w4 & Hstore & E).
    inversion E; subst l w4. clear E. inversion Hstore; subst w'. clear Hstore.
    destruct (getModuleData_keeps Hdata) as (Hheap2 & Hkept & _).
    destruct (Hkept c Hc1) as (c' & Hc' & Hreleases).
    unfold ForgeCache.factory, bind, get in Hfactory2. rewrite Hc' in Hfactory2.
    injection Hfactory2 as <- <-.
    cbn [heap set_forgeCache]. split; [congruence|]. split.
    + eexists. split; [reflexivity|]. cbn. apply lookup_insert_eq.
    + intros slug l0 (c0 & Hc0 & Hl0). destruct (Hsame1 c0 Hc0) as [-> ->].
      eexists. split; [reflexivity|]. cbn.
      destruct (decide (slug = a +:+ "-" +:+ n)) as [->|Hne]; [congruence|].
      rewrite lookup_insert_ne by congruence. congruence.
Qed.

(** [const [author, name] = dependency.name.split(/[\/-]/)], as they are
    written into the declaration. *)
Definition dependency_author (d : ForgeDependency) : string :=
  template (split_on (fun c => is_char "/"%char c || is_char "-"%char c) (dep_name d)
              !! 0%nat).

Definition dependency_module (d : ForgeDependency) : string :=
  template (split_on (fun c => is_char "/"%char c || is_char "-"%char c) (dep_name d)
              !! 1%nat).

(** The pieces of the name of the dependency are plain tokens. *)
Definition well_named (d : ForgeDependency) : Prop :=
  token author_char (dependency_author d) = true
  /\ token plain_char (dependency_module d) = true.

(** The module that is created for a dependency. *)
Definition dependency_target (f : string) (w : World) (d : ForgeDependency)
  (md : ModuleDeclaration) : Prop :=
  exists l,
    cached w (dependency_author d +:+ "-" +:+ dependency_module d) l
    /\ md = {| name := dependency_module d; author := dependency_author d;
               forgeModule := true; version := head l; git := None; ref := None;
               comments := None; _availableVersions := []; _forgeApiUrl := Some f;
               _gitMetadata := None; _dependencies := None |}.

Lemma withTargetModule_ranged `{Environment} (d : mref) (md : ModuleDeclaration)
  (r : Requirement) (w : World) :
  heap w !! d = Some md -> is_Some (dependencyRange r) ->
  RequirementBuilder.withTargetModule d r w
  = (Ok {| targetModule := Some d; sourceModule := sourceModule r; source := source r;
           dependencyRange := dependencyRange r |}, w).
Proof.
  intros Hd Hrange. unfold RequirementBuilder.withTargetModule.
  rewrite (bind_Ok (deref_Ok Hd)). cbn [dependencyRange].
  rewrite bool_decide_eq_true_2 by exact Hrange. rewrite andb_false_r. reflexivity.
Qed.

Lemma buildDependencies_run `{Environment} (this : mref) (self : ModuleDeclaration)
  (raw : list ForgeDependency) :
  nullish (_forgeApiUrl self) DEFAULT_FORGE <> "" ->
  Forall well_named raw ->
  forall (l : list Requirement) (w w' : World),
    heap w !! this = Some self ->
    ModuleDeclaration._buildDependencies this raw w = (Ok l, w') ->
    dependencyGraph w' = dependencyGraph w /\ warnings w' = warnings w
    /\ (forall slug l0, cached w slug l0 -> cached w' slug l0)
    /\ l = imap (fun i d => {| targetModule := Some (length (heap w) + i);
                               sourceModule := Some this; source := Some Dependency;
                               dependencyRange :=
                                 Some (mkRange (nullish (version_requirement d) "")) |})
             raw
    /\ exists added,
         heap w' = heap w ++ added
         /\ Forall2 (dependency_target (nullish (_forgeApiUrl self) DEFAULT_FORGE) w')
              raw added.
Proof.
  intros Hf Hnamed. induction Hnamed as [|d rest [Ha Hn] Hrest IH]; intros l w w' Hself E;
    cbn [ModuleDeclaration._buildDependencies] in E.
  - inversion E; subst. repeat split; auto. exists []. rewrite app_nil_r. auto.
  - apply bind_inv_Ok in E. destruct E as (range & w0 & Hrange & E).
    assert (Hrange' : w0 = w /\ range = mkRange (nullish (version_requirement d) "")).
    { unfold new_Range in Hrange. destruct (semver_valid_range _); inversion Hrange. auto. }
    destruct Hrange' as [-> ->].
    rewrite (bind_Ok (deref_Ok Hself)) in E.
    fold (dependency_author d) in E. fold (dependency_module d) in E.
    destruct (ForgeCache.getReleases (nullish (_forgeApiUrl self) DEFAULT_FORGE)
                (dependency_author d) (dependency_module d) w) as [r w1] eqn:Hreleases.
    pose proof (fromText_without_version Ha Hn Hf Hreleases) as Htext.
    destruct r as [releases|e]; [|rewrite (bind_Err Htext) in E; discriminate].
    rewrite (bind_Ok Htext) in E. clear Htext.
    destruct (quiet_getReleases Hreleases) as (Hgraph1 & Hlog1 & _).
    apply getReleases_inv in Hreleases. destruct Hreleases as (Hheap1 & Hcached1 & Hkept1).
    unfold alloc at 1 in E. unfold bind at 1 in E. rewrite Hheap1 in E.
    match type of E with
    | context [set_heap (heap w ++ [?md]) w1] => set (target := md) in *
    end.
    set (w2 := set_heap (heap w ++ [target]) w1) in *.
    assert (Htarget : heap w2 !! length (heap w) = Some target).
    { subst w2. cbn. apply list_lookup_middle. reflexivity. }
    match type of E with
    | context [RequirementBuilder.withTargetModule _ ?r0] =>
        rewrite (bind_Ok (@withTargetModule_ranged _ _ _ r0 _ Htarget
                            ltac:(cbn; eauto))) in E
    end.
    cbn [dependencyRange RequirementBuilder.withSourceModule
           RequirementBuilder.withDependencyRange RequirementBuilder.withSource
           RequirementBuilder.new targetModule sourceModule source] in E.
    apply bind_inv_Ok in E. destruct E as (others & w3 & Hothers & E).
    inversion E; subst l w3. clear E.
    apply IH in Hothers; [|subst w2; cbn; apply lookup_app_l_Some; exact Hself].
    destruct Hothers as (Hg & Hl & Hkept & Hreqs & added & Hheap & Hadded).
    subst w2. cbn in Hg, Hl, Hkept, Hreqs, Hheap.
    split; [congruence|]. split; [congruence|]. split.
    { intros slug l0 Hc. apply Hkept. destruct (Hkept1 slug l0 Hc) as (c & Hc1 & Hl0).
      exists c. auto. }
    split.
    { cbn [imap]. rewrite Nat.add_0_r. f_equal. rewrite Hreqs. apply imap_ext.
      intros i x _. cbn. rewrite length_app. cbn. do 2 f_equal. lia. }
    exists (target :: added). split; [rewrite Hheap, <- app_assoc; reflexivity|].
    constructor; [|exact Hadded].
    exists releases. split; [|reflexivity].
    apply Hkept. destruct Hcached1 as (c & Hc1 & Hrel1). exists c. auto.
Qed.

(** X15. [_buildDependencies] turns the dependencies that the forge or the
    repository lists into requirements, in their order: each with the
    module as source module, the source [Dependency] and the listed range,
    and each with a target module of its own, newly created, even when two
    dependencies name the same module. The target has the author and name
    from the name of the dependency, the forge of the module (the default
    forge when it has none), and as version the first entry of the release
    list that the cache holds for it. Graph, log and the modules that
    existed are untouched. *)
Theorem buildDependencies_builds_targets `{Environment} (this : mref)
  (self : ModuleDeclaration) (raw : list ForgeDependency) (l : list Requirement)
  (w w' : World) :
  nullish (_forgeApiUrl self) DEFAULT_FORGE <> "" ->
  Forall well_named raw ->
  heap w !! this = Some self ->
  ModuleDeclaration._buildDependencies this raw w = (Ok l, w') ->
  dependencyGraph w' = dependencyGraph w /\ warnings w' = warnings w
  /\ l = imap (fun i d => {| targetModule := Some (length (heap w) + i);
                             sourceModule := Some this; source := Some Dependency;
                             dependencyRange :=
                               Some (mkRange (nullish (version_requirement d) "")) |})
           raw
  /\ exists added,
       heap w' = heap w ++ added
       /\ Forall2 (dependency_target (nullish (_forgeApiUrl self) DEFAULT_FORGE) w')
            raw added.
Proof.
  intros Hf Hnamed Hself E.
  destruct (buildDependencies_run Hf Hnamed Hself E) as (Hg & Hl & _ & Hreqs & Hadded).
  auto.
Qed.

(** The module [test-default] of the test forge, and what the forge lists as
    its dependencies. *)
Definition default_module : ModuleDeclaration :=
  {| name := "default"; author := "test"; forgeModule := true; version := Some "1.2.3";
     git := None; ref := None; comments := None; _availableVersions := [];
     _forgeApiUrl := Some Scenario.forgeUrl; _gitMetadata := None;
     _dependencies := None |}.

Definition default_world : World :=
  {| heap := [default_module];
     forgeCache := None; dependencyGraph := DirectedGraph.empty; warnings := [] |}.

Definition default_dependencies : list ForgeDependency :=
  [Scenario.needs "test/defaultdependency" ">= 1.2.4"].

Lemma buildDependencies_builds_targets_witness :
  exists l w',
    ModuleDeclaration._buildDependencies (H := Scenario.testForge) 0 default_dependencies
      default_world = (Ok l, w')
    /\ l = [ {| targetModule := Some 1; sourceModule := Some 0; source := Some Dependency;
                dependencyRange := Some (mkRange ">= 1.2.4") |} ]
    /\ option_map getSlug (heap w' !! 1) = Some "test-defaultdependency"
    /\ option_map version (heap w' !! 1) = Some (Some "1.2.5").
Proof.
  destruct (ModuleDeclaration._buildDependencies (H := Scenario.testForge) 0
              default_dependencies default_world) as [r w'] eqn:E.
  assert (Hr : exists l, r = Ok l) by (vm_compute in E; injection E as <- _; eauto).
  destruct Hr as (l & ->).
  destruct (@buildDependencies_builds_targets Scenario.testForge 0 default_module
              default_dependencies
              l default_world w' ltac:(discriminate)
              ltac:(repeat constructor) eq_refl E)
    as (_ & _ & Hl & _).
  exists l, w'. split; [reflexivity|]. split; [exact Hl|].
  vm_compute in E. injection E as _ <-. split; reflexivity.
Defined.

(** ** PuppetFile.toText: the order of the modules *)

Lemma insert_by_name_perm (x : ModuleDeclaration) (l : list ModuleDeclaration) :
  insert_by_name x l ≡ₚ x :: l.
Proof.
  induction l as [|y rest IH]; cbn [insert_by_name]; [reflexivity|].
  destruct (name_leb y x); [|reflexivity].
  rewrite IH. apply Permutation_swap.
Qed.

Lemma sort_fold_perm (l : list ModuleDeclaration) :
  forall sorted,
    fold_left (fun sorted x => insert_by_name x sorted) l sorted ≡ₚ l ++ sorted.
Proof.
  induction l as [|x rest IH]; intros sorted; cbn [fold_left]; [reflexivity|].
  rewrite IH, insert_by_name_perm. cbn. symmetry. apply Permutation_middle.
Qed.

(** Each name is at most the next one. *)
Fixpoint ascending (l : list ModuleDeclaration) : Prop :=
  match l with
  | a :: (b :: _) as rest => name_leb a b = true /\ ascending rest
  | _ => True
  end.

Lemma name_leb_total (a b : ModuleDeclaration) :
  name_leb a b = false -> name_leb b a = true.
Proof.
  unfold name_leb. intros Hab. rewrite (String.compare_antisym (name b) (name a)).
  destruct (String.compare (name a) (name b)); cbn; congruence.
Qed.

Lemma insert_by_name_ascending (x : ModuleDeclaration) (l : list ModuleDeclaration) :
  ascending l -> ascending (insert_by_name x l).
Proof.
  induction l as [|y rest IH]; intros Hl; [exact I|].
  cbn [insert_by_name]. destruct (name_leb y x) eqn:Hyx.
  - destruct rest as [|z rest].
    + cbn. auto.
    + destruct Hl as [Hyz Hrest]. specialize (IH Hrest).
      cbn [insert_by_name] in *. destruct (name_leb z x); cbn; auto.
  - cbn. split; [apply name_leb_total; exact Hyx|exact Hl].
Qed.

Lemma sort_fold_ascending (l : list ModuleDeclaration) :
  forall sorted,
    ascending sorted ->
    ascending (fold_left (fun sorted x => insert_by_name x sorted) l sorted).
Proof.
  induction l as [|x rest IH]; intros sorted Hsorted; cbn [fold_left]; [exact Hsorted|].
  apply IH, insert_by_name_ascending, Hsorted.
Qed.

Lemma ascending_lookup (l : list ModuleDeclaration) :
  ascending l ->
  forall i a b, l !! i = Some a -> l !! S i = Some b -> name_leb a b = true.
Proof.
  induction l as [|x [|y rest] IH]; intros Hl i a b Ha Hb; try discriminate.
  destruct Hl as [Hxy Hrest]. destruct i as [|i].
  - cbn in Ha, Hb. congruence.
  - exact (IH Hrest i a b Ha Hb).
Qed.

(** X16. The emitter sorts the three lists of modules by name: the sorted
    list holds the same modules, each as often as before, and the name of
    each module is not above the name of the one that follows it (in the
    order of the character codes). *)
Theorem sortByModuleName_sorts (l : list ModuleDeclaration) :
  sortByModuleName l ≡ₚ l
  /\ forall i a b,
       sortByModuleName l !! i = Some a -> sortByModuleName l !! S i = Some b ->
       match String.compare (name a) (name b) with
       | Gt => False
       | _ => True
       end.
Proof.
  unfold sortByModuleName. split.
  - rewrite sort_fold_perm, app_nil_r. reflexivity.
  - intros i a b Ha Hb.
    pose proof (@ascending_lookup _ (@sort_fold_ascending l [] I) i a b Ha Hb) as Hab.
    unfold name_leb in Hab. destruct (String.compare (name a) (name b)); auto.
    discriminate.
Qed.

Lemma sortByModuleName_sorts_witness :
  sortByModuleName [default_module; released_module] ≡ₚ [default_module; released_module]
  /\ sortByModuleName [default_module; released_module] = [released_module; default_module]
  /\ match String.compare (name released_module) (name default_module) with
     | Gt => False
     | _ => True
     end.
Proof.
  destruct (sortByModuleName_sorts [default_module; released_module]) as [Hperm Hsorted].
  split; [exact Hperm|]. split; [reflexivity|].
  exact (Hsorted 0 released_module default_module eq_refl eq_refl).
Defined.

(** ** PuppetFile.getModule and PuppetFile.hasModule *)

Lemma find_module_ext (p1 p2 : ModuleDeclaration -> bool) (l : list (option mref)) :
  (forall md, p1 md = p2 md) ->
  forall w, PuppetFile.find_module p1 l w = PuppetFile.find_module p2 l w.
Proof.
  intros Hext. induction l as [|[m|] rest IH]; intros w; cbn [PuppetFile.find_module];
    try reflexivity.
  unfold bind. destruct (deref m w) as [[md|e] w1]; [|reflexivity].
  rewrite Hext. destruct (p2 md); [reflexivity|apply IH].
Qed.

Lemma find_module_inv (predicate : ModuleDeclaration -> bool) (l : list (option mref))
  (w w' : World) (r : Result (option ModuleDeclaration)) :
  PuppetFile.find_module predicate l w = (r, w') ->
  w' = w
  /\ (forall md, r = Ok (Some md) ->
        predicate md = true /\ exists m, Some m ∈ l /\ heap w !! m = Some md)
  /\ (r = Ok None ->
        forall m md, Some m ∈ l -> heap w !! m = Some md -> predicate md = false).
Proof.
  induction l as [|[m|] rest IH]; cbn [PuppetFile.find_module]; intros E.
  - inversion E; subst. split; [reflexivity|]. split; [discriminate|].
    intros _ m md Hin. inversion Hin.
  - unfold bind, deref in E. destruct (heap w !! m) as [value|] eqn:Hm.
    + destruct (predicate value) eqn:Hvalue.
      * inversion E; subst. split; [reflexivity|]. split; [|discriminate].
        intros md Hmd. injection Hmd as <-. split; [exact Hvalue|].
        exists m. split; [left|exact Hm].
      * destruct (IH E) as (Hw & Hfound & Hnone). split; [exact Hw|]. split.
        -- intros md Hmd. destruct (Hfound md Hmd) as (Hp & m' & Hin & Hm').
           split; [exact Hp|]. exists m'. split; [right; exact Hin|exact Hm'].
        -- intros Hr m' md Hin Hm'. apply elem_of_cons in Hin.
           destruct Hin as [Heq|Hin]; [|eapply Hnone; eauto].
           injection Heq as ->. congruence.
    + inversion E; subst. split; [reflexivity|]. split; discriminate.
  - inversion E; subst. split; [reflexivity|]. split; discriminate.
Qed.

(** X17. [getModule] changes nothing. The module that it returns has the
    author and the name that were asked for and is one of the modules of the
    manifest; when it returns nothing, no module of the manifest has that
    author and name. [hasModule] with the same author and name fails when
    [getModule] fails and otherwise tells whether [getModule] returns a
    module. *)
Theorem getModule_finds_the_module (a n : string) (p : PuppetFile) (w w' : World)
  (r : Result (option ModuleDeclaration)) :
  PuppetFile.getModule a n p w = (r, w') ->
  w' = w
  /\ (forall md, r = Ok (Some md) ->
        author md = a /\ name md = n
        /\ exists m, Some m ∈ modules p /\ heap w !! m = Some md)
  /\ (r = Ok None ->
        forall m md, Some m ∈ modules p -> heap w !! m = Some md ->
                     ~ (author md = a /\ name md = n))
  /\ PuppetFile.hasModule a (Some n) p w
     = (match r with
        | Ok found => Ok (bool_decide (is_Some found))
        | Err e => Err e
        end, w).
Proof.
  unfold PuppetFile.getModule, PuppetFile.hasModule. intros E.
  destruct (find_module_inv E) as (-> & Hfound & Hnone).
  split; [reflexivity|]. split; [|split].
  - intros md Hmd. destruct (Hfound md Hmd) as (Hp & Hin).
    apply andb_prop in Hp. destruct Hp as [Ha Hn].
    apply String.eqb_eq in Ha. apply String.eqb_eq in Hn. auto.
  - intros Hr m md Hin Hm [Ha Hn]. specialize (Hnone Hr m md Hin Hm).
    rewrite Ha, Hn, !String.eqb_refl in Hnone. discriminate.
  - unfold bind.
    rewrite (@find_module_ext _
               (fun value => String.eqb (author value) a && String.eqb (name value) n)).
    + rewrite E. destruct r; reflexivity.
    + intros md. f_equal. destruct (String.eqb_spec (name md) n) as [->|Hne].
      * apply bool_decide_eq_true_2. reflexivity.
      * apply bool_decide_eq_false_2. congruence.
Qed.

Definition queue_manifest : PuppetFile :=
  {| modules := [Some 0; Some 1]; dependentModules := []; forge := Scenario.forgeUrl;
     preamble := ""; _dependencyIdentifier := "## dependencies" |}.

Lemma getModule_finds_the_module_witness :
  exists md,
    PuppetFile.getModule "test" "b" queue_manifest queue_world = (Ok (Some md), queue_world)
    /\ getSlug md = "test-b"
    /\ PuppetFile.hasModule "test" (Some "b") queue_manifest queue_world
       = (Ok true, queue_world).
Proof.
  destruct (PuppetFile.getModule "test" "b" queue_manifest queue_world) as [r w'] eqn:E.
  destruct (@getModule_finds_the_module "test" "b" queue_manifest queue_world w' r E)
    as (-> & Hfound & _ & Hhas).
  vm_compute in E. injection E as <-.
  eexists. split; [reflexivity|]. split; [reflexivity|]. exact Hhas.
Defined.

(** ** ResolveCommand._readInFile *)

(** The text of a file with the given lines. *)
Fixpoint lines_text (lines : list string) : string :=
  match lines with
  | [] => ""
  | [line] => line
  | line :: rest => line +:+ nl +:+ lines_text rest
  end.

Definition no_line_feed (line : string) : bool :=
  all_chars (fun c => negb (is_char "010"%char c)) line.

Lemma split_lines_text (lines : list string) :
  Forall (fun line => no_line_feed line = true) lines -> lines <> [] ->
  split_on (is_char "010"%char) (lines_text lines) = lines.
Proof.
  induction 1 as [|line rest Hline Hrest IH]; intros Hne; [contradiction|].
  destruct rest as [|next rest].
  - cbn [lines_text]. apply split_on_none. exact Hline.
  - change (lines_text (line :: next :: rest))
      with (line +:+ String "010"%char (lines_text (next :: rest))).
    rewrite split_on_app; [|exact Hline|reflexivity].
    rewrite IH by discriminate. reflexivity.
Qed.

Lemma read_lines_filter (lines parsedContent : list string) :
  ResolveCommand.read_lines lines parsedContent
  = parsedContent
    ++ List.map ResolveCommand.trim
         (List.filter (fun line => negb (String.eqb line "")) lines).
Proof.
  revert parsedContent. induction lines as [|line rest IH]; intros parsedContent;
    cbn [ResolveCommand.read_lines List.filter].
  - cbn. rewrite app_nil_r. reflexivity.
  - destruct (String.eqb line ""); cbn [negb]; rewrite IH; [reflexivity|].
    cbn [List.map]. rewrite <- app_assoc. reflexivity.
Qed.

Lemma trim_end_idempotent (s : string) :
  ResolveCommand.trim_end (ResolveCommand.trim_end s) = ResolveCommand.trim_end s.
Proof.
  induction s as [|c s IH]; [reflexivity|]. cbn [ResolveCommand.trim_end].
  destruct (ResolveCommand.trim_end s) as [|d kept] eqn:Hs.
  - destruct (is_space c) eqn:Hc; [reflexivity|].
    cbn [ResolveCommand.trim_end]. rewrite Hc. reflexivity.
  - cbn [ResolveCommand.trim_end]. cbn [ResolveCommand.trim_end] in IH.
    rewrite IH. reflexivity.
Qed.

Lemma trim_end_head (c : ascii) (s : string) :
  is_space c = false ->
  exists kept, ResolveCommand.trim_end (String c s) = String c kept.
Proof.
  intros Hc. cbn [ResolveCommand.trim_end].
  destruct (ResolveCommand.trim_end s); rewrite ?Hc; eauto.
Qed.

Lemma span_is_space_rest (s : string) :
  snd (span is_space s) = ""
  \/ exists c r, snd (span is_space s) = String c r /\ is_space c = false.
Proof.
  induction s as [|c s IH]; [left; reflexivity|]. cbn [span].
  destruct (is_space c) eqn:Hc.
  - destruct (span is_space s) as [a b]. exact IH.
  - right. exists c, s. auto.
Qed.

Lemma trim_idempotent (s : string) :
  ResolveCommand.trim (ResolveCommand.trim s) = ResolveCommand.trim s.
Proof.
  unfold ResolveCommand.trim at 2 3.
  destruct (span_is_space_rest s) as [-> | (c & r & -> & Hc)]; [reflexivity|].
  destruct (trim_end_head r Hc) as (kept & Hkept).
  unfold ResolveCommand.trim. rewrite Hkept. cbn [span]. rewrite Hc. cbn [snd].
  rewrite <- Hkept. apply trim_end_idempotent.
Qed.

(** X18. [_readInFile] returns one entry for every line of the file that is
    not empty, in the order of the file: the line without the white space at
    its ends. Lines that hold a comment are not skipped, and a line of white
    space gives an empty entry. Every entry is free of white space at its
    ends. *)
Theorem readInFile_reads_nonempty_lines (lines : list string) :
  Forall (fun line => no_line_feed line = true) lines -> lines <> [] ->
  ResolveCommand._readInFile (lines_text lines)
  = List.map ResolveCommand.trim
      (List.filter (fun line => negb (String.eqb line "")) lines)
  /\ Forall (fun entry => ResolveCommand.trim entry = entry)
       (ResolveCommand._readInFile (lines_text lines)).
Proof.
  intros Hlines Hne.
  assert (E : ResolveCommand._readInFile (lines_text lines)
              = List.map ResolveCommand.trim
                  (List.filter (fun line => negb (String.eqb line "")) lines)).
  { unfold ResolveCommand._readInFile.
    rewrite (split_lines_text Hlines Hne), read_lines_filter. reflexivity. }
  split; [exact E|]. rewrite E. apply Forall_forall. intros entry Hentry.
  apply list_elem_of_In, in_map_iff in Hentry. destruct Hentry as (line & <- & _).
  apply trim_idempotent.
Qed.

Lemma readInFile_reads_nonempty_lines_witness :
  ResolveCommand._readInFile
    (lines_text ["# modules to ignore"; ""; "  test-a  "; "   "; "test-b"])
  = ["# modules to ignore"; "test-a"; ""; "test-b"].
Proof.
  exact (proj1 (@readInFile_reads_nonempty_lines
                  ["# modules to ignore"; ""; "  test-a  "; "   "; "test-b"]
                  ltac:(repeat constructor) ltac:(discriminate))).
Defined.

(** ** PuppetFile.fromText: the modules that are added *)

(** A step that touches the cache of the forge only. *)
Definition cache_only (w w' : World) : Prop :=
  heap w' = heap w /\ dependencyGraph w' = dependencyGraph w
  /\ warnings w' = warnings w.

Lemma cache_only_refl w : cache_only w w.
Proof. repeat split. Qed.

Lemma cache_only_trans w1 w2 w3 : cache_only w1 w2 -> cache_only w2 w3 -> cache_only w1 w3.
Proof. intros (? & ? & ?) (? & ? & ?). repeat split; congruence. Qed.

Lemma cache_only_set_forgeCache c : preserves cache_only (modify (set_forgeCache c)).
Proof. apply preserves_modify. intros w. repeat split. Qed.

Create HintDb cache_only.
#[local] Hint Resolve cache_only_set_forgeCache : cache_only.

Ltac cache_only_tac :=
  repeat preserve_step cache_only_refl cache_only_trans
    ltac:(solve [eauto with cache_only]).

Lemma cache_only_factory url : preserves cache_only (ForgeCache.factory url).
Proof. unfold ForgeCache.factory. cache_only_tac. Qed.
#[local] Hint Resolve cache_only_factory : cache_only.

Lemma cache_only_store c : preserves cache_only (ForgeCache.store c).
Proof. apply cache_only_set_forgeCache. Qed.
#[local] Hint Resolve cache_only_store : cache_only.

Lemma cache_only_getModuleData `{Environment} url a n :
  preserves cache_only (ForgeCache.getModuleData url a n).
Proof. unfold ForgeCache.getModuleData. cache_only_tac. Qed.
#[local] Hint Resolve cache_only_getModuleData : cache_only.

Lemma cache_only_getReleases `{Environment} url a n :
  preserves cache_only (ForgeCache.getReleases url a n).
Proof. unfold ForgeCache.getReleases. cache_only_tac. Qed.
#[local] Hint Resolve cache_only_getReleases : cache_only.

Lemma cache_only_getAvailableVersions `{Environment} md :
  preserves cache_only (ModuleDeclaration.getAvailableVersions md).
Proof. unfold ModuleDeclaration.getAvailableVersions. cache_only_tac. Qed.
#[local] Hint Resolve cache_only_getAvailableVersions : cache_only.

Lemma cache_only_fetchGitMetadata `{Environment} md :
  preserves cache_only (ModuleDeclaration.fetchGitMetadata md).
Proof. unfold ModuleDeclaration.fetchGitMetadata. cache_only_tac. Qed.
#[local] Hint Resolve cache_only_fetchGitMetadata : cache_only.

Lemma cache_only_fromText `{Environment} text md :
  preserves cache_only (ModuleDeclaration.fromText text md).
Proof. unfold ModuleDeclaration.fromText. cache_only_tac. Qed.

(** The state of the parser after some lines: the modules of the manifest
    are those it had, followed by new ones; the new ones are the objects that
    were created, in the order of their creation, the dependent modules
    last. *)
Definition listed (this : PuppetFile) (w0 : World) (st : PuppetFile.ParserState)
  (w : World) : Prop :=
  exists new deps added,
    modules (PuppetFile.parsed st) = modules this ++ new
    /\ dependentModules (PuppetFile.parsed st) = dependentModules this ++ deps
    /\ new ++ deps = List.map Some (seq (length (heap w0)) (length added))
    /\ heap w = heap w0 ++ added
    /\ (PuppetFile.inDependencies st = false -> deps = [])
    /\ preamble (PuppetFile.parsed st) = preamble this
    /\ _dependencyIdentifier (PuppetFile.parsed st) = _dependencyIdentifier this
    /\ dependencyGraph w = dependencyGraph w0 /\ warnings w = warnings w0.

Lemma listed_ext this w0 st st' w :
  PuppetFile.inDependencies st = false \/ PuppetFile.inDependencies st' = true ->
  modules (PuppetFile.parsed st') = modules (PuppetFile.parsed st) ->
  dependentModules (PuppetFile.parsed st') = dependentModules (PuppetFile.parsed st) ->
  preamble (PuppetFile.parsed st') = preamble (PuppetFile.parsed st) ->
  _dependencyIdentifier (PuppetFile.parsed st')
  = _dependencyIdentifier (PuppetFile.parsed st) ->
  listed this w0 st w -> listed this w0 st' w.
Proof.
  intros Hdeps Hm Hd Hp Hi (new & deps & added & ? & ? & ? & ? & Hnone & ? & ? & ? & ?).
  exists new, deps, added. repeat split; try congruence.
  intros Hst'. apply Hnone. destruct Hdeps; congruence.
Qed.

Lemma addToModules_listed `{Environment} this w0 st w st' w' :
  PuppetFile.addToModules st w = (Ok st', w') ->
  listed this w0 st w ->
  listed this w0 st' w'
  /\ PuppetFile.inDependencies st' = PuppetFile.inDependencies st.
Proof.
  unfold PuppetFile.addToModules.
  destruct (PuppetFile.inDeclaration st && _); [|intros E; inversion E; subst; auto].
  intros E (new & deps & added & Hm & Hd & Hnew & Hheap & Hnone & Hp & Hi & Hg & Hl).
  apply bind_inv_Ok in E. destruct E as (md & w1 & Htext & E).
  destruct (cache_only_fromText Htext) as (Hheap1 & Hg1 & Hl1).
  unfold alloc at 1 in E. unfold bind at 1 in E. inversion E; subst st' w'. clear E.
  cbn [PuppetFile.inDependencies]. split; [|reflexivity].
  set (md' := ModuleDeclaration.withComments _ md).
  assert (Hseq : List.map Some (seq (length (heap w0)) (length (added ++ [md'])))
                 = (new ++ deps) ++ [Some (length (heap w1))]).
  { rewrite length_app. cbn [length]. rewrite Nat.add_1_r, seq_S, map_app, <- Hnew.
    cbn. rewrite Hheap1, Hheap, length_app. reflexivity. }
  destruct (PuppetFile.inDependencies st) eqn:Hin.
  - exists new, (deps ++ [Some (length (heap w1))]), (added ++ [md']).
    cbn. rewrite Hd, Hheap1, Hheap, <- !app_assoc. repeat split; try congruence.
    rewrite Hseq, Hheap1, Hheap, <- app_assoc. reflexivity.
  - rewrite (Hnone eq_refl) in *. rewrite app_nil_r in *.
    exists (new ++ [Some (length (heap w1))]), [], (added ++ [md']).
    cbn. rewrite Hm, Hheap1, Hheap, <- !app_assoc, !app_nil_r.
    repeat split; congruence.
Qed.

Lemma parse_line_listed `{Environment} this w0 line st w st' w' :
  PuppetFile.parse_line line st w = (Ok st', w') ->
  listed this w0 st w -> listed this w0 st' w'.
Proof.
  unfold PuppetFile.parse_line. intros E Hst.
  destruct (bool_decide _ || _).
  - apply bind_inv_Ok in E. destruct E as (st1 & w1 & Hadd & E).
    inversion E; subst st' w'. clear E.
    destruct (addToModules_listed Hadd Hst) as [Hst1 Hin].
    eapply listed_ext; [| | | | |exact Hst1]; try reflexivity.
    cbn [PuppetFile.inDependencies].
    destruct (includes _ line); [right; reflexivity|].
    destruct (PuppetFile.inDependencies st1) eqn:Hin1; [right|left]; congruence.
  - destruct (match_comment line); [|destruct (is_blank line);
      [|destruct (PuppetFile.inDeclaration st); [|destruct (match_forge line)]]];
      inversion E; subst st' w'; try exact Hst;
      (eapply listed_ext; [| | | | |exact Hst]; try reflexivity);
      cbn [PuppetFile.inDependencies];
      destruct (PuppetFile.inDependencies st); auto.
Qed.

Lemma parse_lines_listed `{Environment} this w0 lines :
  forall st w st' w',
    PuppetFile.parse_lines lines st w = (Ok st', w') ->
    listed this w0 st w -> listed this w0 st' w'.
Proof.
  induction lines as [|line rest IH]; intros st w st' w' E Hst;
    cbn [PuppetFile.parse_lines] in E.
  - inversion E; subst. exact Hst.
  - apply bind_inv_Ok in E. destruct E as (st1 & w1 & Hline & E).
    eapply IH; [exact E|]. eapply parse_line_listed; eauto.
Qed.

(** X19. [PuppetFile.fromText] keeps the modules that the manifest had and
    adds one new object for every declaration that it reads: the new objects
    are appended to the heap in the order of the text, and the manifest
    lists them in that order, first the modules of the part before the
    dependency sentinel, then the dependent modules. Nothing that existed is
    changed: not the objects, the graph, the log, the preamble or the
    sentinel. *)
Theorem fromText_lists_new_modules `{Environment} (text : string) (this p : PuppetFile)
  (w w' : World) :
  PuppetFile.fromText text this w = (Ok p, w') ->
  exists new deps added,
    modules p = modules this ++ new
    /\ dependentModules p = dependentModules this ++ deps
    /\ new ++ deps = List.map Some (seq (length (heap w)) (length added))
    /\ heap w' = heap w ++ added
    /\ preamble p = preamble this
    /\ _dependencyIdentifier p = _dependencyIdentifier this
    /\ dependencyGraph w' = dependencyGraph w /\ warnings w' = warnings w.
Proof.
  unfold PuppetFile.fromText. intros E.
  apply bind_inv_Ok in E. destruct E as (st1 & w1 & Hlines & E).
  apply bind_inv_Ok in E. destruct E as (st2 & w2 & Hadd & E).
  inversion E; subst p w2. clear E.
  assert (Hstart : listed this w
                     {| PuppetFile.currentDeclaration := "";
                        PuppetFile.inDeclaration := false;
                        PuppetFile.inDependencies := false;
                        PuppetFile.currentComment := [];
                        PuppetFile.readingComment := [];
                        PuppetFile.parsed := this |} w).
  { exists [], [], []. cbn. rewrite !app_nil_r. repeat split. }
  pose proof (parse_lines_listed Hlines Hstart) as Hst1.
  destruct (addToModules_listed Hadd Hst1)
    as [(new & deps & added & ? & ? & ? & ? & _ & ? & ? & ? & ?) _].
  exists new, deps, added. repeat split; assumption.
Qed.

Lemma fromText_lists_new_modules_witness :
  exists p w',
    PuppetFile.fromText (H := Scenario.testForge) Scenario.basicManifest new_PuppetFile
      default_world = (Ok p, w')
    /\ modules p = [Some 1] /\ dependentModules p = [Some 2]
    /\ length (heap w') = 3.
Proof.
  destruct (PuppetFile.fromText (H := Scenario.testForge) Scenario.basicManifest
              new_PuppetFile default_world) as [r w'] eqn:E.
  assert (Hr : exists p, r = Ok p) by (vm_compute in E; injection E as <- _; eauto).
  destruct Hr as (p & ->).
  destruct (@fromText_lists_new_modules Scenario.testForge Scenario.basicManifest
              new_PuppetFile p default_world w' E)
    as (new & deps & added & Hm & Hd & _ & Hheap & _).
  exists p, w'. split; [reflexivity|].
  vm_compute in E. injection E as <- <-. repeat split.
Defined.
